(** * Filter refresh subsystem of [internal/home/filter.go]

    A shallow embedding of the filter registry, the per-filter update
    pipeline and the refresh scheduler, followed by the properties of the
    specification that were checked against it.

    Conventions.
    - Go [int] and [int64] are [Z] with the two's-complement wrap-around
      [wrap_int] written out at every arithmetic operation of the source;
      [uint32] checksums are [Z] in [0, 2^32).
    - Go strings holding file data are [list byte]; URLs and names are
      [string].
    - [time.Time] is the number of Unix seconds, a [Z].
    - Calls into the operating system and the network take their outcome
      from an explicit environment record; the file system is explicit
      state.
    - The locks of [config] and the refresh flag are left out: every
      function is read as running to its end on its own. *)

From Stdlib Require Import Strings.String Strings.Ascii Strings.Byte ZArith Bool Lia Arith
  Sorting.Permutation List.
Import ListNotations.
Local Open Scope Z_scope.

(* ================================================================== *)
(** ** Machine integers and bytes *)

Definition wrap_int (x : Z) : Z := (x + 2^63) mod 2^64 - 2^63.

Definition code (b : byte) : Z := Z.of_N (Byte.to_N b).

Definition bytes (s : string) : list byte := list_byte_of_string s.

(* ================================================================== *)
(** ** Package [hash/crc32] (Go standard library)

    [simpleMakeTable] and [simpleUpdate] of the standard library; the
    accelerated implementations compute the same function. *)

Module crc32.

Definition IEEE : Z := 0xedb88320.

Definition bitStep (poly crc : Z) : Z :=
  if Z.testbit crc 0 then Z.lxor (Z.shiftr crc 1) poly else Z.shiftr crc 1.

Definition tableEntry (poly i : Z) : Z := Nat.iter 8 (bitStep poly) i.

Definition Table := list Z.

Definition simpleMakeTable (poly : Z) : Table :=
  map (fun i => tableEntry poly (Z.of_nat i)) (seq 0 256).

Definition IEEETable : Table := Eval vm_compute in simpleMakeTable IEEE.

(** [^crc] on a [uint32]. *)
Definition not32 (x : Z) : Z := Z.lxor x 0xffffffff.

(** One iteration of [for _, v := range p]:
    [crc = tab[byte(crc)^v] ^ (crc >> 8)]. *)
Definition step (tab : Table) (crc : Z) (v : byte) : Z :=
  Z.lxor (nth (Z.to_nat (Z.lxor (Z.land crc 0xff) (code v))) tab 0)
         (Z.shiftr crc 8).

Definition Update (crc : Z) (tab : Table) (p : list byte) : Z :=
  not32 (fold_left (step tab) p (not32 crc)).

Definition ChecksumIEEE (data : list byte) : Z := Update 0 IEEETable data.

End crc32.

(* ================================================================== *)
(** ** Package [strings] (Go standard library) *)

Module strings.

(** The table [asciiSpace]: tab, LF, VT, FF, CR and space. *)
Definition asciiSpace (b : byte) : bool :=
  existsb (Byte.eqb b) [x09; x0a; x0b; x0c; x0d; x20].

(** The non-ASCII code points of [unicode.IsSpace] in UTF-8:
    U+0085 and U+00A0 take two bytes, U+1680, U+2000..U+200A, U+2028,
    U+2029, U+202F, U+205F and U+3000 take three.  Go decodes only the
    shortest encoding of a code point, and an undecodable byte is
    U+FFFD, which is not a space. *)
Definition space2 (b0 b1 : byte) : bool :=
  Byte.eqb b0 xc2 && (Byte.eqb b1 x85 || Byte.eqb b1 xa0).

Definition space3 (b0 b1 b2 : byte) : bool :=
  (Byte.eqb b0 xe1 && Byte.eqb b1 x9a && Byte.eqb b2 x80)
  || (Byte.eqb b0 xe2 && Byte.eqb b1 x80
      && ((0x80 <=? code b2) && (code b2 <=? 0x8a)
          || Byte.eqb b2 xa8 || Byte.eqb b2 xa9 || Byte.eqb b2 xaf))
  || (Byte.eqb b0 xe2 && Byte.eqb b1 x81 && Byte.eqb b2 x9f)
  || (Byte.eqb b0 xe3 && Byte.eqb b1 x80 && Byte.eqb b2 x80).

(** [TrimLeftFunc(s, unicode.IsSpace)]: drop leading space runes. *)
Fixpoint trimLeft (s : list byte) : list byte :=
  match s with
  | [] => []
  | b0 :: t0 =>
    if asciiSpace b0 then trimLeft t0 else
    match t0 with
    | [] => s
    | b1 :: t1 =>
      if space2 b0 b1 then trimLeft t1 else
      match t1 with
      | [] => s
      | b2 :: t2 => if space3 b0 b1 b2 then trimLeft t2 else s
      end
    end
  end.

(** The same scan on the reversed string, for
    [TrimRightFunc(s, unicode.IsSpace)]: [DecodeLastRuneInString]
    yields a space exactly when the string ends with one of the
    encodings above. *)
Fixpoint trimLeftRev (s : list byte) : list byte :=
  match s with
  | [] => []
  | b0 :: t0 =>
    if asciiSpace b0 then trimLeftRev t0 else
    match t0 with
    | [] => s
    | b1 :: t1 =>
      if space2 b1 b0 then trimLeftRev t1 else
      match t1 with
      | [] => s
      | b2 :: t2 => if space3 b2 b1 b0 then trimLeftRev t2 else s
      end
    end
  end.

Definition trimRight (s : list byte) : list byte := rev (trimLeftRev (rev s)).

Definition TrimSpace (s : list byte) : list byte := trimRight (trimLeft s).

(** [ToLower] on the bytes 'A'..'Z'.  Go lower-cases runes; the only
    non-ASCII runes whose lower case is ASCII are U+0130 and U+212A,
    giving 'i' and 'k', and every other non-ASCII rune or undecodable
    byte becomes bytes above 0x7f.  For a needle made of ASCII bytes
    other than 'i' and 'k', [Contains(ToLower(s), needle)] is therefore
    the same in Go and here. *)
Definition lowerByte (b : byte) : byte :=
  if (0x41 <=? code b) && (code b <=? 0x5a)
  then match Byte.of_N (Byte.to_N b + 32) with Some c => c | None => b end
  else b.

Definition ToLower (s : list byte) : list byte := map lowerByte s.

Fixpoint HasPrefix (s prefix : list byte) : bool :=
  match prefix, s with
  | [], _ => true
  | p :: prefix', b :: s' => Byte.eqb b p && HasPrefix s' prefix'
  | _ :: _, [] => false
  end.

Fixpoint Contains (s substr : list byte) : bool :=
  HasPrefix s substr ||
  match s with
  | [] => false
  | _ :: s' => Contains s' substr
  end.

End strings.

(* ================================================================== *)
(** ** The title pattern of [Init]: start of text, [! Title:], one or
    more spaces, a capture group of any characters, end of text *)

Definition titlePrefix : list byte := bytes "! Title: ".

Fixpoint stripPrefix (prefix s : list byte) : option (list byte) :=
  match prefix, s with
  | [], _ => Some s
  | p :: prefix', b :: s' => if Byte.eqb b p then stripPrefix prefix' s' else None
  | _ :: _, [] => None
  end.

(** The greedy [ +] after the first space has been matched. *)
Fixpoint dropSpaces (s : list byte) : list byte :=
  match s with
  | b :: t => if Byte.eqb b x20 then dropSpaces t else s
  | [] => []
  end.

(** [filterTitleRegexp.FindAllStringSubmatch(line, -1)] followed by
    [m[0][1]]: the text of the capture group when the line matches.  The
    pattern is anchored at both ends, so there is at most one match; [.]
    does not match a line feed. *)
Definition filterTitleRegexp (line : list byte) : option (list byte) :=
  match stripPrefix titlePrefix line with
  | None => None
  | Some rest =>
    let m := dropSpaces rest in
    if existsb (Byte.eqb x0a) m then None else Some m
  end.

(* ================================================================== *)
(** ** [parseFilterContents] *)

(** The successive results of [r.ReadString('\n')] up to and including the
    one that comes with [io.EOF]: every line keeps its terminator, and the
    last result is what is left of the stream, possibly nothing.  [file] is
    what the reader yields before it ends; the loop stops in the same way
    on any other error of the reader. *)
Fixpoint readLinesFrom (cur : list byte) (file : list byte) : list (list byte) :=
  match file with
  | [] => [rev cur]
  | b :: rest =>
    if Byte.eqb b x0a then rev (b :: cur) :: readLinesFrom [] rest
    else readLinesFrom (b :: cur) rest
  end.

Definition readLines (file : list byte) : list (list byte) := readLinesFrom [] file.

Record parseState := mkParseState {
  ps_rulesCount : Z;
  ps_checksum : Z;
  ps_name : string;
  ps_seenTitle : bool
}.

Definition parseInit : parseState := mkParseState 0 0 EmptyString false.

(** The body of the [for] loop for one line. *)
Definition parseLine (st : parseState) (raw : list byte) : parseState :=
  let checksum := crc32.Update (ps_checksum st) crc32.IEEETable raw in
  let line := strings.TrimSpace raw in
  match line with
  | [] => mkParseState (ps_rulesCount st) checksum (ps_name st) (ps_seenTitle st)
  | c :: _ =>
    if Byte.eqb c "!"%byte then
      match filterTitleRegexp line with
      | Some m =>
        if negb (ps_seenTitle st)
        then mkParseState (ps_rulesCount st) checksum (string_of_list_byte m) true
        else mkParseState (ps_rulesCount st) checksum (ps_name st) (ps_seenTitle st)
      | None => mkParseState (ps_rulesCount st) checksum (ps_name st) (ps_seenTitle st)
      end
    else if Byte.eqb c "#"%byte then
      mkParseState (ps_rulesCount st) checksum (ps_name st) (ps_seenTitle st)
    else
      mkParseState (wrap_int (ps_rulesCount st + 1)) checksum (ps_name st) (ps_seenTitle st)
  end.

Definition parseFilterContents (file : list byte) : Z * Z * string :=
  let st := fold_left parseLine (readLines file) parseInit in
  (ps_rulesCount st, ps_checksum st, ps_name st).

(* ================================================================== *)
(** ** Errors *)

Inductive error :=
| ErrCreateTemp
| ErrChmod
| ErrOpen
| ErrTransport
| ErrStatus (status : Z)
| ErrNonPrintable        (* data contains non-printable characters *)
| ErrHTML                (* data is HTML, not plain text *)
| ErrRead
| ErrWrite
| ErrSeek
| ErrClose
| ErrSourceClose
| ErrStat
| ErrRemove
| ErrRename.

(** [errors.WithDeferred]: nil when both are nil; the returned error stays
    the principal one when both are set. *)
Definition WithDeferred (returned deferred : option error) : option error :=
  match returned with
  | Some e => Some e
  | None => deferred
  end.

Definition isNil (err : option error) : bool :=
  match err with None => true | Some _ => false end.

(** The two errors of the content check in [read]. *)
Definition contentRejected (err : option error) : bool :=
  match err with
  | Some ErrNonPrintable | Some ErrHTML => true
  | _ => false
  end.

(* ================================================================== *)
(** ** [isPrintableText] *)

Definition printable (c : byte) : bool :=
  ((0x20 <=? code c) && negb (code c =? 0x7f))
  || Byte.eqb c x0a || Byte.eqb c x0d || Byte.eqb c x09.

Definition isPrintableText (data : list byte) (len : nat) : bool :=
  forallb printable (firstn len data).

(* ================================================================== *)
(** ** [io.Reader] and [read] *)

(** The error that ends a stream. *)
Inductive readErr := EOF | ReadFailure.

(** A source that ends: the results of the calls of [Read] that return a
    nil error, then the last result with its error. *)
Record reader := mkReader {
  r_chunks : list (list byte);
  r_last : list byte;
  r_err : readErr
}.

Definition streamBytes (r : reader) : list byte := concat (r_chunks r) ++ r_last r.

Definition firstChunkCap : nat := 4 * 1024.

(** The array [firstChunk], of which [fc] is the part filled so far. *)
Definition firstChunkArray (fc : list byte) : list byte :=
  fc ++ repeat x00 (firstChunkCap - length fc).

Record readState := mkReadState {
  rs_htmlTest : bool;
  rs_firstChunk : list byte;
  rs_total : Z;
  rs_written : list byte;
  rs_nwrites : nat
}.

Definition readInit : readState := mkReadState true [] 0 [] 0.

Definition htmlNeedle : list byte := bytes "<html".
Definition doctypeNeedle : list byte := bytes "<!doctype".

(** The content check run once the first chunk is complete. *)
Definition checkFirstChunk (fc : list byte) : option error :=
  if negb (isPrintableText (firstChunkArray fc) (length fc)) then Some ErrNonPrintable
  else
    let s := strings.ToLower (firstChunkArray fc) in
    if strings.Contains s htmlNeedle || strings.Contains s doctypeNeedle
    then Some ErrHTML
    else None.

(** One iteration of the loop of [read], given what [reader.Read]
    returned: [buf] is [buf[:n]] and [eof] tells whether the error was
    [io.EOF].  [Some] is an early return with that error. *)
Definition readIter (writeOK : nat -> bool) (st : readState) (buf : list byte)
    (eof : bool) : readState * option error :=
  let total := wrap_int (rs_total st + Z.of_nat (length buf)) in
  let checked :=
    if rs_htmlTest st then
      let num := Nat.min (firstChunkCap - length (rs_firstChunk st)) (length buf) in
      let fc := rs_firstChunk st ++ firstn num buf in
      if (length fc =? firstChunkCap)%nat || eof then
        match checkFirstChunk fc with
        | Some e => inr e
        | None => inl (false, [])
        end
      else inl (true, fc)
    else inl (false, rs_firstChunk st) in
  match checked with
  | inr e =>
    (mkReadState (rs_htmlTest st) (rs_firstChunk st) total (rs_written st) (rs_nwrites st),
     Some e)
  | inl (htmlTest, fc) =>
    if writeOK (rs_nwrites st)
    then (mkReadState htmlTest fc total (rs_written st ++ buf) (S (rs_nwrites st)), None)
    else (mkReadState htmlTest fc total (rs_written st) (rs_nwrites st), Some ErrWrite)
  end.

Fixpoint readLoop (writeOK : nat -> bool) (st : readState)
    (chunks : list (list byte)) (last : list byte) (lerr : readErr)
    : readState * option error :=
  match chunks with
  | buf :: chunks' =>
    match readIter writeOK st buf false with
    | (st', Some e) => (st', Some e)
    | (st', None) => readLoop writeOK st' chunks' last lerr
    end
  | [] =>
    match readIter writeOK st last (match lerr with EOF => true | _ => false end) with
    | (st', Some e) => (st', Some e)
    | (st', None) =>
      (st', match lerr with EOF => None | ReadFailure => Some ErrRead end)
    end
  end.

(** [read]: the number of bytes read, the bytes written to the temporary
    file, and the error. *)
Definition read (writeOK : nat -> bool) (r : reader) : Z * list byte * option error :=
  let '(st, err) := readLoop writeOK readInit (r_chunks r) (r_last r) (r_err r) in
  (rs_total st, rs_written st, err).

(* ================================================================== *)
(** ** Filters *)

(** The struct [filter]; of the embedded [filtering.Filter] only [ID] is
    used here. *)
Record filter := mkFilter {
  Enabled : bool;
  URL : string;
  Name : string;
  RulesCount : Z;
  LastUpdated : Z;
  checksum : Z;
  white : bool;
  ID : Z
}.

(** [time.Time{}] in Unix seconds. *)
Definition zeroTime : Z := -62135596800.

(** [var uf filter] *)
Definition zeroFilter : filter := mkFilter false EmptyString EmptyString 0 zeroTime 0 false 0.

Definition setEnabled (v : bool) (f : filter) : filter :=
  mkFilter v (URL f) (Name f) (RulesCount f) (LastUpdated f) (checksum f) (white f) (ID f).
Definition setURL (v : string) (f : filter) : filter :=
  mkFilter (Enabled f) v (Name f) (RulesCount f) (LastUpdated f) (checksum f) (white f) (ID f).
Definition setName (v : string) (f : filter) : filter :=
  mkFilter (Enabled f) (URL f) v (RulesCount f) (LastUpdated f) (checksum f) (white f) (ID f).
Definition setRulesCount (v : Z) (f : filter) : filter :=
  mkFilter (Enabled f) (URL f) (Name f) v (LastUpdated f) (checksum f) (white f) (ID f).
Definition setLastUpdated (v : Z) (f : filter) : filter :=
  mkFilter (Enabled f) (URL f) (Name f) (RulesCount f) v (checksum f) (white f) (ID f).
Definition setChecksum (v : Z) (f : filter) : filter :=
  mkFilter (Enabled f) (URL f) (Name f) (RulesCount f) (LastUpdated f) v (white f) (ID f).
Definition setID (v : Z) (f : filter) : filter :=
  mkFilter (Enabled f) (URL f) (Name f) (RulesCount f) (LastUpdated f) (checksum f) (white f) v.

(** [filter.unload] *)
Definition unload (f : filter) : filter := setChecksum 0 (setRulesCount 0 f).

(** [stringutil.Coalesce] on two strings: the first that is not empty. *)
Definition Coalesce (a b : string) : string :=
  if String.eqb a EmptyString then b else a.

(* ================================================================== *)
(** ** The file system *)

(** The files of the filter directory: [<ID>.txt], [<ID>.txt.old] and
    the temporary files of [os.CreateTemp], whose names have no
    extension. *)
Inductive path :=
| FilterPath (id : Z)
| OldPath (id : Z)
| TempPath (n : nat).

Definition path_eqb (p q : path) : bool :=
  match p, q with
  | FilterPath a, FilterPath b => a =? b
  | OldPath a, OldPath b => a =? b
  | TempPath a, TempPath b => (a =? b)%nat
  | _, _ => false
  end.

Record file := mkFile {
  f_data : list byte;
  f_mtime : Z
}.

Definition filesystem := path -> option file.

Definition fs_set (p : path) (o : option file) (fs : filesystem) : filesystem :=
  fun q => if path_eqb q p then o else fs q.

(** The calls that changed the file system, oldest first. *)
Inductive fsop :=
| OpCreateTemp (p : path)
| OpRename (src dst : path)
| OpRemove (p : path)
| OpChtimes (p : path) (t : Z).

Record world := mkWorld {
  w_fs : filesystem;
  w_ops : list fsop
}.

(** [filter.Path] *)
Definition Path (f : filter) : path := FilterPath (ID f).

(** What the operating system and the network answer during one call of
    [update]; a [bool] is [true] when the call succeeds. *)
Record env := mkEnv {
  e_now : Z;                      (* time.Now() in update *)
  e_tempName : nat;               (* the name os.CreateTemp picks *)
  e_tempMtime : Z;                (* the modification time of the temporary file *)
  e_createTemp : bool;
  e_chmod : bool;
  e_open : option reader;         (* os.Open(flt.URL) *)
  e_get : option (Z * reader);    (* client.Get(flt.URL): status code and body *)
  e_sourceClose : bool;           (* file.Close() or resp.Body.Close() *)
  e_write : nat -> bool;          (* the n-th tmpFile.Write *)
  e_seek : bool;
  e_close : bool;                 (* closing the temporary file *)
  e_rename : bool;
  e_remove : bool;
  e_chtimes : bool
}.

Definition logOp (o : fsop) (w : world) (fs : filesystem) : world :=
  mkWorld fs (w_ops w ++ [o]).

(** [os.CreateTemp] with an empty pattern: fails as well when the name
    is taken. *)
Definition os_CreateTemp (e : env) (w : world) : option (path * world) :=
  let p := TempPath (e_tempName e) in
  if e_createTemp e then
    match w_fs w p with
    | None => Some (p, logOp (OpCreateTemp p) w (fs_set p (Some (mkFile [] (e_tempMtime e))) (w_fs w)))
    | Some _ => None
    end
  else None.

Definition os_Remove (e : env) (p : path) (w : world) : world * option error :=
  if e_remove e then
    match w_fs w p with
    | Some _ => (logOp (OpRemove p) w (fs_set p None (w_fs w)), None)
    | None => (w, Some ErrRemove)
    end
  else (w, Some ErrRemove).

Definition os_Rename (e : env) (src dst : path) (w : world) : world * option error :=
  if e_rename e then
    match w_fs w src with
    | Some f => (logOp (OpRename src dst) w (fs_set dst (Some f) (fs_set src None (w_fs w))), None)
    | None => (w, Some ErrRename)
    end
  else (w, Some ErrRename).

Definition os_Chtimes (e : env) (p : path) (t : Z) (w : world) : world * option error :=
  if e_chtimes e then
    match w_fs w p with
    | Some f => (logOp (OpChtimes p t) w (fs_set p (Some (mkFile (f_data f) t)) (w_fs w)), None)
    | None => (w, Some ErrStat)
    end
  else (w, Some ErrStat).

(** The bytes [read] wrote to the temporary file. *)
Definition writeTemp (e : env) (p : path) (data : list byte) (w : world) : world :=
  mkWorld (fs_set p (Some (mkFile data (e_tempMtime e))) (w_fs w)) (w_ops w).

(* ================================================================== *)
(** ** [finalizeUpdate], [processUpdate], [updateIntl], [update] *)

Definition finalizeUpdate (e : env) (tmp : path) (flt : filter) (updated : bool)
    (name : string) (rnum cs : Z) (w : world) : filter * world * option error :=
  if negb (e_close e) then (flt, w, Some ErrClose)
  else if negb updated then
    let '(w', err) := os_Remove e tmp w in (flt, w', err)
  else
    match os_Rename e tmp (Path flt) w with
    | (w', Some err) =>
      let '(w'', _) := os_Remove e tmp w' in (flt, w'', Some err)
    | (w', None) =>
      (setRulesCount rnum (setChecksum cs (setName (Coalesce (Name flt) name) flt)), w', None)
    end.

(** The results [name, rnum, cs, n, err] of [processUpdate]. *)
Record processed := mkProcessed {
  p_name : string;
  p_rnum : Z;
  p_cs : Z;
  p_n : Z;
  p_err : option error
}.

Definition processFailed (err : error) : processed := mkProcessed EmptyString 0 0 0 (Some err).

Definition processUpdate (e : env) (src : reader) (dst : path) (w : world)
    : processed * world :=
  let '(n, written, err) := read (e_write e) src in
  let w' := writeTemp e dst written w in
  match err with
  | Some er => (processFailed er, w')
  | None =>
    if negb (e_seek e) then (processFailed ErrSeek, w')
    else
      let '(rnum, cs, name) := parseFilterContents written in
      (mkProcessed name rnum cs n None, w')
  end.

(** [filepath.IsAbs] on Unix. *)
Definition IsAbs (p : string) : bool :=
  match p with
  | String c _ => Ascii.eqb c "/"%char
  | EmptyString => false
  end.

Definition StatusOK : Z := 200.

(** The body of [updateIntl] after the temporary file exists, up to its
    [return], followed by the deferred [Close] of the source: the values
    of [name], [rnum], [cs], [ok] and [err] that the deferred call of
    [finalizeUpdate] sees. *)
Definition fetchAndProcess (e : env) (flt : filter) (tmp : path) (w : world)
    : processed * bool * world :=
  let closeSource (err : option error) :=
    WithDeferred err (if e_sourceClose e then None else Some ErrSourceClose) in
  let failed (err : error) := (processFailed err, false, w) in
  let run (r : reader) :=
    let '(p, w') := processUpdate e r tmp w in
    (mkProcessed (p_name p) (p_rnum p) (p_cs p) (p_n p) (closeSource (p_err p)),
     negb (p_cs p =? checksum flt), w') in
  if negb (e_chmod e) then failed ErrChmod
  else if IsAbs (URL flt) then
    match e_open e with
    | None => failed ErrOpen
    | Some r => run r
    end
  else
    match e_get e with
    | None => failed ErrTransport
    | Some (status, body) =>
      if negb (status =? StatusOK)
      then (mkProcessed EmptyString 0 0 0 (closeSource (Some (ErrStatus status))), false, w)
      else run body
    end.

Definition updateIntl (e : env) (flt : filter) (w : world)
    : filter * world * bool * option error :=
  match os_CreateTemp e w with
  | None => (flt, w, false, Some ErrCreateTemp)
  | Some (tmp, w1) =>
    let '(p, ok, w2) := fetchAndProcess e flt tmp w1 in
    let '(flt', w3, ferr) :=
      finalizeUpdate e tmp flt ok (p_name p) (p_rnum p) (p_cs p) w2 in
    let err := WithDeferred (p_err p) ferr in
    (flt', w3, ok && isNil err, err)
  end.

Definition update (e : env) (flt : filter) (w : world)
    : filter * world * bool * option error :=
  let '(flt1, w1, b, err) := updateIntl e flt w in
  let flt2 := setLastUpdated (e_now e) flt1 in
  let w2 := if b then w1 else fst (os_Chtimes e (Path flt2) (e_now e) w1) in
  (flt2, w2, b, err).

(* ================================================================== *)
(** ** The registry *)

(** The fields of [config] that this file uses. *)
Record config := mkConfig {
  Filters : list filter;
  WhitelistFilters : list filter;
  FiltersUpdateIntervalHours : Z
}.

Definition statusFound : Z := 1.
Definition statusEnabledChanged : Z := 2.
Definition statusURLChanged : Z := 4.
Definition statusURLExists : Z := 8.
Definition statusUpdateRequired : Z := 0x10.

Definition hasURL (url : string) (f : filter) : bool := String.eqb (URL f) url.

Definition filterExistsNoLock (cfg : config) (url : string) : bool :=
  existsb (hasURL url) (Filters cfg) || existsb (hasURL url) (WhitelistFilters cfg).


(** What the operating system answers during one call of [load]. *)
Record loadEnv := mkLoadEnv {
  l_open : bool;     (* os.Open of a file that exists *)
  l_stat : bool;
  l_close : bool
}.

(** [load] *)
Definition load (le : loadEnv) (fs : filesystem) (flt : filter) : filter * option error :=
  match fs (Path flt) with
  | None => (flt, None)
  | Some f =>
    if negb (l_open le) then (flt, Some ErrOpen)
    else
      let closed := if l_close le then None else Some ErrClose in
      if negb (l_stat le) then (flt, WithDeferred (Some ErrStat) closed)
      else
        let '(rulesCount, cs, _) := parseFilterContents (f_data f) in
        (setLastUpdated (f_mtime f) (setChecksum cs (setRulesCount rulesCount flt)),
         WithDeferred None closed)
  end.

(** The index of the first filter with this URL. *)
Fixpoint indexOfURL (url : string) (filters : list filter) : option nat :=
  match filters with
  | [] => None
  | f :: rest =>
    if hasURL url f then Some 0%nat
    else option_map S (indexOfURL url rest)
  end.

(** [filters[i] = x] *)
Definition setNth {A : Type} (i : nat) (x : A) (l : list A) : list A :=
  firstn i l ++ x :: skipn (S i) l.

Definition clearCache (f : filter) : filter :=
  setRulesCount 0 (setChecksum 0 (setLastUpdated zeroTime f)).

(** [filterSetProperties]: the status flags and the new configuration. *)
Definition filterSetProperties (le : loadEnv) (fs : filesystem)
    (url : string) (newf : filter) (whitelist : bool) (cfg : config) : Z * config :=
  let filters := if whitelist then WhitelistFilters cfg else Filters cfg in
  let store (l : list filter) :=
    if whitelist
    then mkConfig (Filters cfg) l (FiltersUpdateIntervalHours cfg)
    else mkConfig l (WhitelistFilters cfg) (FiltersUpdateIntervalHours cfg) in
  match indexOfURL url filters with
  | None => (0, cfg)
  | Some i =>
    let put (f : filter) := store (setNth i f filters) in
    let filt0 := setName (Name newf) (nth i filters zeroFilter) in
    let urlChanges := negb (String.eqb (URL filt0) (URL newf)) in
    if urlChanges && filterExistsNoLock (put filt0) (URL newf)
    then (statusURLExists, put filt0)
    else
      let '(r1, filt1) :=
        if urlChanges
        then (Z.lor statusURLChanged statusUpdateRequired,
              clearCache (unload (setURL (URL newf) filt0)))
        else (0, filt0) in
      let '(r2, filt2) :=
        if negb (Bool.eqb (Enabled filt1) (Enabled newf)) then
          let r := Z.lor r1 statusEnabledChanged in
          let f := setEnabled (Enabled newf) filt1 in
          if Enabled f then
            if Z.land r statusURLChanged =? 0 then
              match load le fs f with
              | (f', None) => (r, f')
              | (f', Some _) => (Z.lor r statusUpdateRequired, clearCache f')
              end
            else (r, f)
          else (r, unload f)
        else (r1, filt1) in
      (Z.lor r2 statusFound, put filt2)
  end.

(** [assignUniqueFilterID]: the value returned and the next counter. *)
Definition assignUniqueFilterID (nextFilterID : Z) : Z * Z :=
  (nextFilterID, wrap_int (nextFilterID + 1)).

(** [loadFilters] on the array from index [i] on. *)
Fixpoint loadFilters (les : nat -> loadEnv) (fs : filesystem) (i : nat)
    (array : list filter) (nextFilterID : Z) : list filter * Z :=
  match array with
  | [] => ([], nextFilterID)
  | f :: rest =>
    let '(f1, next1) :=
      if ID f =? 0
      then let '(value, next) := assignUniqueFilterID nextFilterID in (setID value f, next)
      else (f, nextFilterID) in
    let f2 := if negb (Enabled f1) then f1 else fst (load (les i) fs f1) in
    let '(rest', next2) := loadFilters les fs (S i) rest next1 in
    (f2 :: rest', next2)
  end.

(** [deduplicateFilters] on the block list, [urls] being the URLs seen. *)
Fixpoint deduplicateFrom (urls : list string) (filters : list filter) : list filter :=
  match filters with
  | [] => []
  | f :: rest =>
    if existsb (String.eqb (URL f)) urls then deduplicateFrom urls rest
    else f :: deduplicateFrom (URL f :: urls) rest
  end.

Definition deduplicateFilters (cfg : config) : config :=
  mkConfig (deduplicateFrom [] (Filters cfg)) (WhitelistFilters cfg)
           (FiltersUpdateIntervalHours cfg).

(** [updateUniqueFilterID] *)
Definition updateUniqueFilterID (filters : list filter) (nextFilterID : Z) : Z :=
  fold_left (fun next f => if next <? ID f then wrap_int (ID f + 1) else next)
            filters nextFilterID.

(** [Init], from [loadFilters] on: the configuration and the counter. *)
Definition Init (les lesW : nat -> loadEnv) (fs : filesystem) (cfg : config)
    (nextFilterID : Z) : config * Z :=
  let '(fl, next1) := loadFilters les fs 0 (Filters cfg) nextFilterID in
  let '(wl, next2) := loadFilters lesW fs 0 (WhitelistFilters cfg) next1 in
  let cfg1 := deduplicateFilters (mkConfig fl wl (FiltersUpdateIntervalHours cfg)) in
  let next3 := updateUniqueFilterID (Filters cfg1) next2 in
  let next4 := updateUniqueFilterID (WhitelistFilters cfg1) next3 in
  (cfg1, next4).

(* ================================================================== *)
(** ** [refreshFiltersArray] and [refreshFiltersIfNecessary] *)

(** The copy [uf] of the fields of a filter that is due. *)
Definition snapshot (f : filter) : filter :=
  setChecksum (checksum f) (setName (Name f) (setURL (URL f) (setID (ID f) zeroFilter))).

Definition expireTime (hours : Z) (f : filter) : Z :=
  wrap_int (LastUpdated f + wrap_int (wrap_int (hours * 60) * 60)).

Definition due (force : bool) (hours now : Z) (f : filter) : bool :=
  Enabled f && negb (negb force && (expireTime hours f >? now)).

Definition candidates (force : bool) (hours now : Z) (filters : list filter) : list filter :=
  map snapshot (List.filter (due force hours now) filters).

(** The loop over [updateFilters]: the updated copies, [updateFlags],
    [nfail] and the world; [envs i] answers the call for the copy at
    index [i]. *)
Fixpoint updateEach (envs : nat -> env) (i : nat) (ufs : list filter) (w : world)
    : list filter * list bool * nat * world :=
  match ufs with
  | [] => ([], [], 0%nat, w)
  | uf :: rest =>
    let '(uf', w1, updated, err) := update (envs i) uf w in
    let '(rest', flags, nfail, w2) := updateEach envs (S i) rest w1 in
    (uf' :: rest', updated :: flags, (if isNil err then nfail else S nfail), w2)
  end.

(** The loop over [k] for one updated copy. *)
Fixpoint mergeOne (uf : filter) (updated : bool) (filters : list filter)
    (updateCount : Z) : list filter * Z :=
  match filters with
  | [] => ([], updateCount)
  | f :: rest =>
    if negb (ID f =? ID uf) || negb (String.eqb (URL f) (URL uf)) then
      let '(rest', n) := mergeOne uf updated rest updateCount in (f :: rest', n)
    else
      let f1 := setLastUpdated (LastUpdated uf) f in
      if negb updated then
        let '(rest', n) := mergeOne uf updated rest updateCount in (f1 :: rest', n)
      else
        let f2 := setChecksum (checksum uf)
                    (setRulesCount (RulesCount uf) (setName (Name uf) f1)) in
        let '(rest', n) := mergeOne uf updated rest (wrap_int (updateCount + 1)) in
        (f2 :: rest', n)
  end.

Fixpoint mergeAll (ufs : list (filter * bool)) (filters : list filter)
    (updateCount : Z) : list filter * Z :=
  match ufs with
  | [] => (filters, updateCount)
  | (uf, updated) :: rest =>
    let '(filters', n) := mergeOne uf updated filters updateCount in
    mergeAll rest filters' n
  end.

Record arrayResult := mkArrayResult {
  ar_updateCount : Z;
  ar_updateFilters : list filter;
  ar_updateFlags : list bool;
  ar_netErr : bool;
  ar_filters : list filter;       (* the array after the call *)
  ar_world : world
}.

Definition refreshFiltersArray (envs : nat -> env) (now hours : Z)
    (filters : list filter) (force : bool) (w : world) : arrayResult :=
  let updateFilters := candidates force hours now filters in
  match updateFilters with
  | [] => mkArrayResult 0 [] [] false filters w
  | _ :: _ =>
    let '(ufs, updateFlags, nfail, w') := updateEach envs 0 updateFilters w in
    if (nfail =? length ufs)%nat then mkArrayResult 0 [] [] true filters w'
    else
      let '(filters', updateCount) := mergeAll (combine ufs updateFlags) filters 0 in
      mkArrayResult updateCount ufs updateFlags false filters' w'
  end.

Definition filterRefreshForce : Z := 1.
Definition filterRefreshAllowlists : Z := 2.
Definition filterRefreshBlocklists : Z := 4.

(** [os.Remove(uf.Path() + ".old")] with its error dropped. *)
Definition removeOld (w : world) (uf : filter * bool) : world :=
  let '(uf, updated) := uf in
  if updated then
    match w_fs w (OldPath (ID uf)) with
    | Some _ => logOp (OpRemove (OldPath (ID uf))) w (fs_set (OldPath (ID uf)) None (w_fs w))
    | None => w
    end
  else w.

(** [refreshFiltersIfNecessary]: the number of updated filters, the
    network-error flag, the configuration and the world afterwards.
    [enableFilters] hands the files to the rule engine and changes
    nothing here. *)
Definition refreshFiltersIfNecessary (envsB envsW : nat -> env) (now : Z)
    (flags : Z) (cfg : config) (w : world) : Z * bool * config * world :=
  let hours := FiltersUpdateIntervalHours cfg in
  let force := negb (Z.land flags filterRefreshForce =? 0) in
  let b :=
    if negb (Z.land flags filterRefreshBlocklists =? 0)
    then refreshFiltersArray envsB now hours (Filters cfg) force w
    else mkArrayResult 0 [] [] false (Filters cfg) w in
  let a :=
    if negb (Z.land flags filterRefreshAllowlists =? 0)
    then refreshFiltersArray envsW now hours (WhitelistFilters cfg) force (ar_world b)
    else mkArrayResult 0 [] [] false (WhitelistFilters cfg) (ar_world b) in
  let updateCount := wrap_int (ar_updateCount b + ar_updateCount a) in
  let updateFilters := ar_updateFilters b ++ ar_updateFilters a in
  let updateFlags := ar_updateFlags b ++ ar_updateFlags a in
  let cfg' := mkConfig (ar_filters b) (ar_filters a) hours in
  if ar_netErr b && ar_netErr a then (0, true, cfg', ar_world a)
  else if negb (updateCount =? 0)
  then (updateCount, false, cfg',
        fold_left removeOld (combine updateFilters updateFlags) (ar_world a))
  else (updateCount, false, cfg', ar_world a).

(* ================================================================== *)
(** ** [periodicallyRefreshFilters] *)

Definition maxInterval : Z := 1 * 60 * 60.

(** [intval := 5] *)
Definition initialInterval : Z := 5.

(** The interval an iteration of the loop sleeps for, from the interval
    before it; [batch] is the network-error flag of the batch, or [None]
    when no batch ran in this iteration. *)
Definition nextInterval (batch : option bool) (intval : Z) : Z :=
  let isNetworkErr := match batch with Some e => e | None => false end in
  let intval1 :=
    match batch with
    | Some false => maxInterval
    | _ => intval
    end in
  if isNetworkErr then
    let doubled := wrap_int (intval1 * 2) in
    if doubled >? maxInterval then maxInterval else doubled
  else intval1.

Record scheduler := mkScheduler {
  s_intval : Z;
  s_config : config;
  s_world : world
}.

(** One iteration of the loop up to its [time.Sleep]; [cas] is the
    result of the compare-and-swap on [refreshStatus]. *)
Definition periodicIteration (envsB envsW : nat -> env) (now : Z) (cas : bool)
    (s : scheduler) : scheduler :=
  if negb (FiltersUpdateIntervalHours (s_config s) =? 0) && cas then
    let '(_, isNetworkErr, cfg, w) :=
      refreshFiltersIfNecessary envsB envsW now
        (Z.lor filterRefreshBlocklists filterRefreshAllowlists)
        (s_config s) (s_world s) in
    mkScheduler (nextInterval (Some isNetworkErr) (s_intval s)) cfg w
  else mkScheduler (nextInterval None (s_intval s)) (s_config s) (s_world s).

(** The intervals slept for, given the outcome of each iteration. *)
Fixpoint intervals (intval : Z) (batches : list (option bool)) : list Z :=
  match batches with
  | [] => []
  | b :: rest => nextInterval b intval :: intervals (nextInterval b intval) rest
  end.

(* ================================================================== *)
(** ** Reading the parser line by line

    What the specification says about single lines, restated to be
    compared with [parseFilterContents]. *)

(** Strings made of white space only: a sequence of encoded space runes. *)
Inductive spaceRunes : list byte -> Prop :=
| sr_nil : spaceRunes []
| sr_ascii b t :
    strings.asciiSpace b = true -> spaceRunes t -> spaceRunes (b :: t)
| sr_two b0 b1 t :
    strings.space2 b0 b1 = true -> spaceRunes t -> spaceRunes (b0 :: b1 :: t)
| sr_three b0 b1 b2 t :
    strings.space3 b0 b1 b2 = true -> spaceRunes t -> spaceRunes (b0 :: b1 :: b2 :: t).

(** An ASCII character that is not white space. *)
Definition asciiNonSpace (c : byte) : bool :=
  (code c <? 0x80) && negb (strings.asciiSpace c).

Inductive lineKind := Blank | Comment | Rule.

(** The kind of a raw line, decided on its trimmed text. *)
Definition kindOf (raw : list byte) : lineKind :=
  match strings.TrimSpace raw with
  | [] => Blank
  | c :: _ =>
    if Byte.eqb c "!"%byte || Byte.eqb c "#"%byte then Comment else Rule
  end.

Definition isRule (raw : list byte) : bool :=
  match kindOf raw with Rule => true | _ => false end.

(** The text a raw line declares as title, if it is a title line. *)
Definition titleOf (raw : list byte) : option (list byte) :=
  filterTitleRegexp (strings.TrimSpace raw).

(** The title of the first title line. *)
Fixpoint firstTitle (lines : list (list byte)) : option (list byte) :=
  match lines with
  | [] => None
  | raw :: rest =>
    match titleOf raw with
    | Some m => Some m
    | None => firstTitle rest
    end
  end.

Definition declaredName (lines : list (list byte)) : string :=
  match firstTitle lines with
  | Some m => string_of_list_byte m
  | None => EmptyString
  end.

(* ================================================================== *)
(** ** Reading the scheduler and the identifiers *)

(** The interval after a run of iterations of the loop. *)
Definition intervalAfter (batches : list (option bool)) : Z :=
  fold_left (fun intval b => nextInterval b intval) batches initialInterval.

(** The identifiers after [loadFilters], without wrap-around: a zero takes
    the value of the counter, which then moves on by one. *)
Fixpoint renumber (ids : list Z) (next : Z) : list Z :=
  match ids with
  | [] => []
  | id :: rest =>
    if id =? 0 then next :: renumber rest (next + 1)
    else id :: renumber rest next
  end.

Definition zeros (ids : list Z) : Z :=
  Z.of_nat (length (List.filter (fun id => id =? 0) ids)).

(* ================================================================== *)
(** ** Reading the content check and the pipeline *)

(** The bytes that [isPrintableText] lets through, as a set: 0x20..0x7e,
    0x80..0xff, line feed, carriage return and tab. *)
Definition allowedByte (c : byte) : bool :=
  ((0x20 <=? code c) && (code c <=? 0x7e)) || (0x80 <=? code c)
  || (code c =? 0x0a) || (code c =? 0x0d) || (code c =? 0x09).

(** The set the specification names: 0x20..0x7e, line feed, carriage
    return and tab. *)
Definition specByte (c : byte) : bool :=
  ((0x20 <=? code c) && (code c <=? 0x7e))
  || (code c =? 0x0a) || (code c =? 0x0d) || (code c =? 0x09).

(** [needle] occurs in [s] whatever the case of the ASCII letters of [s]. *)
Definition containsFold (s needle : list byte) : bool :=
  strings.Contains (strings.ToLower s) needle.

(** The prefix that the content check looks at. *)
Definition leadingPrefix (r : reader) : list byte :=
  firstn firstChunkCap (streamBytes r).

Definition badPrefix (p : list byte) : bool :=
  negb (forallb allowedByte p)
  || containsFold p htmlNeedle || containsFold p doctypeNeedle.

(** The stream that the fetch step hands to [processUpdate], if any: the
    local file, or the body of a response with status 200. *)
Definition fetched (e : env) (flt : filter) : option reader :=
  if IsAbs (URL flt) then e_open e
  else
    match e_get e with
    | Some (status, body) => if status =? StatusOK then Some body else None
    | None => None
    end.

(** The registry entries that [mergeOne] matches with a copy. *)
Definition sameEntry (uf f : filter) : bool :=
  (ID f =? ID uf) && String.eqb (URL f) (URL uf).

Definition isRename (o : fsop) : bool :=
  match o with OpRename _ _ => true | _ => false end.

(** The calls that changed the file system between two worlds. *)
Definition newOps (w w' : world) : list fsop :=
  skipn (length (w_ops w)) (w_ops w').

(** The local calls around the temporary file succeed: it is created
    under a fresh name, closed and removed. *)
Definition tempFileOK (e : env) (w : world) : Prop :=
  e_createTemp e = true /\ w_fs w (TempPath (e_tempName e)) = None
  /\ e_close e = true /\ e_remove e = true.

(** Environments and file systems for the examples. *)
Definition plainLoad : nat -> loadEnv := fun _ => mkLoadEnv true true true.
Definition emptyFS : filesystem := fun _ => None.
Definition emptyWorld : world := mkWorld emptyFS [].

(** An environment in which every local call succeeds and the source is
    what [get] says. *)
Definition envWith (now : Z) (get : option (Z * reader)) : env :=
  mkEnv now 0 now true true None get true (fun _ => true) true true true true true.

(** Sample data for the examples. *)
Definition listURL : string := "https://example.com/list.txt".
Definition otherURL : string := "https://example.org/other.txt".

(** An enabled filter with two rules, last updated at time 0, checksum 77
    and identifier 1. *)
Definition sampleFilter : filter := mkFilter true listURL "Example" 2 0 77 false 1.

Definition otherFilter : filter := mkFilter true otherURL "Other" 0 0 0 false 2.

Definition sampleBody : list byte := bytes "||ads.example^" ++ [x0a].

(** A response with status 200 and this body in one read. *)
Definition okResponse (body : list byte) : option (Z * reader) :=
  Some (200, mkReader [] body EOF).

(** A world in which the file of filter 1 holds an earlier download. *)
Definition worldWithFile : world :=
  mkWorld (fs_set (FilterPath 1) (Some (mkFile (bytes "||old.example^") 5)) emptyFS) [].

(* ================================================================== *)
(** ** The registry, read as a whole *)

(** The URLs of both sequences, block list first. *)
Definition allURLs (cfg : config) : list string :=
  map URL (Filters cfg) ++ map URL (WhitelistFilters cfg).

(** The sequence that [filterSetProperties] works on, and the
    configuration with that sequence replaced. *)
Definition designated (whitelist : bool) (cfg : config) : list filter :=
  if whitelist then WhitelistFilters cfg else Filters cfg.

Definition withDesignated (whitelist : bool) (l : list filter) (cfg : config) : config :=
  if whitelist
  then mkConfig (Filters cfg) l (FiltersUpdateIntervalHours cfg)
  else mkConfig l (WhitelistFilters cfg) (FiltersUpdateIntervalHours cfg).

(** The loop of [deduplicateFilters] on the array itself: the state is the
    array, the output index [i] and the URLs seen; the body reads the
    element at index [j] and, when its URL is new, stores it at index [i]. *)
Definition deduplicateBody (st : list filter * nat * list string) (j : nat)
    : list filter * nat * list string :=
  let '(arr, i, urls) := st in
  let f := nth j arr zeroFilter in
  if existsb (String.eqb (URL f)) urls then (arr, i, urls)
  else (setNth i f arr, S i, URL f :: urls).

(** [deduplicateFilters] as written: the loop over the indices of the
    array, then [config.Filters[:i]]. *)
Definition deduplicateInPlace (filters : list filter) : list filter :=
  let '(arr, i, _) :=
    fold_left deduplicateBody (seq 0 (length filters)) (filters, 0%nat, []) in
  firstn i arr.

(** [l1] is [l2] with some elements left out, the others in their order. *)
Inductive subseq {A : Type} : list A -> list A -> Prop :=
| subseq_nil : subseq [] []
| subseq_skip x l1 l2 : subseq l1 l2 -> subseq l1 (x :: l2)
| subseq_keep x l1 l2 : subseq l1 l2 -> subseq (x :: l1) (x :: l2).

(** What a merge may change of an entry: nothing of its identity, and
    nothing at all unless a copy in [ufs] has its identifier and URL. *)
Definition merged (ufs : list filter) (f f' : filter) : Prop :=
  ID f' = ID f /\ URL f' = URL f /\ Enabled f' = Enabled f /\ white f' = white f
  /\ ((forall uf, In uf ufs -> sameEntry uf f = false) -> f' = f).

(** The fields of a filter that a refresh never changes. *)
Definition identity (f : filter) : Z * string * bool * bool :=
  (ID f, URL f, Enabled f, white f).

(** What the user configured of a filter. *)
Definition settings (f : filter) : string * string * bool * bool :=
  (URL f, Name f, Enabled f, white f).

(** What a download may change of a registry entry besides its time. *)
Definition content (f : filter) : string * Z * Z :=
  (Name f, RulesCount f, checksum f).

(* ================================================================== *)
(** * Properties *)

(** ** The models of the standard library and of the parser on known values *)

Example crc_check : crc32.ChecksumIEEE (bytes "123456789") = 0xcbf43926.
Proof. vm_compute. reflexivity. Qed.

Example parse_e2e :
  parseFilterContents
    (bytes "! Title: Example List
! comment
||ads.example^
||track.example^
# note
") = (2, crc32.ChecksumIEEE (bytes "! Title: Example List
! comment
||ads.example^
||track.example^
# note
"), "Example List"%string).
Proof. vm_compute. reflexivity. Qed.

(** ** The checksum *)

Lemma not32_involutive (x : Z) : crc32.not32 (crc32.not32 x) = x.
Proof.
  unfold crc32.not32.
  now rewrite Z.lxor_assoc, Z.lxor_nilpotent, Z.lxor_0_r.
Qed.

Lemma Update_app (c : Z) (tab : crc32.Table) (a b : list byte) :
  crc32.Update (crc32.Update c tab a) tab b = crc32.Update c tab (a ++ b).
Proof.
  unfold crc32.Update.
  now rewrite not32_involutive, fold_left_app.
Qed.

Lemma Update_nil (c : Z) (tab : crc32.Table) : crc32.Update c tab [] = c.
Proof. unfold crc32.Update. simpl. apply not32_involutive. Qed.

Lemma Update_lines (tab : crc32.Table) (lines : list (list byte)) :
  forall c,
    fold_left (fun c raw => crc32.Update c tab raw) lines c
    = crc32.Update c tab (concat lines).
Proof.
  induction lines as [|l lines IH]; intros c; simpl.
  - symmetry. apply Update_nil.
  - rewrite IH. apply Update_app.
Qed.

Lemma concat_readLinesFrom (file : list byte) :
  forall cur, concat (readLinesFrom cur file) = rev cur ++ file.
Proof.
  induction file as [|b rest IH]; intros cur; simpl.
  - reflexivity.
  - destruct (Byte.eqb b x0a); simpl; rewrite IH; simpl.
    + now rewrite <- app_assoc.
    + now rewrite <- app_assoc.
Qed.

Lemma concat_readLines (file : list byte) : concat (readLines file) = file.
Proof. unfold readLines. now rewrite concat_readLinesFrom. Qed.

Lemma parseLine_checksum (st : parseState) (raw : list byte) :
  ps_checksum (parseLine st raw)
  = crc32.Update (ps_checksum st) crc32.IEEETable raw.
Proof.
  unfold parseLine.
  destruct (strings.TrimSpace raw) as [|c line]; [reflexivity|].
  destruct (Byte.eqb c "!"%byte).
  - destruct (filterTitleRegexp (c :: line)); [destruct (negb (ps_seenTitle st))|];
      reflexivity.
  - destruct (Byte.eqb c "#"%byte); reflexivity.
Qed.

Lemma fold_parseLine_checksum (lines : list (list byte)) :
  forall st,
    ps_checksum (fold_left parseLine lines st)
    = fold_left (fun c raw => crc32.Update c crc32.IEEETable raw)
                lines (ps_checksum st).
Proof.
  induction lines as [|l lines IH]; intros st; simpl; [reflexivity|].
  now rewrite IH, parseLine_checksum.
Qed.

(** C5.  The checksum that [parseFilterContents] returns is the CRC-32/IEEE
    folded over the raw lines in file order, the raw lines concatenated are
    the stream, and so the checksum is the CRC-32/IEEE of the whole stream. *)
Theorem parse_checksum_is_crc32_of_stream :
  forall file : list byte,
    let '(_, cs, _) := parseFilterContents file in
    cs = fold_left (fun c raw => crc32.Update c crc32.IEEETable raw) (readLines file) 0
    /\ concat (readLines file) = file
    /\ cs = crc32.ChecksumIEEE file.
Proof.
  intros file. unfold parseFilterContents.
  rewrite fold_parseLine_checksum. simpl ps_checksum.
  split; [reflexivity|]. split; [apply concat_readLines|].
  rewrite Update_lines, concat_readLines. reflexivity.
Qed.

(** Checksums stay within [uint32]. *)
Lemma lxor_uint32 (a b : Z) :
  0 <= a < 4294967296 -> 0 <= b < 4294967296 -> 0 <= Z.lxor a b < 4294967296.
Proof.
  intros Ha Hb.
  assert (Hn : 0 <= Z.lxor a b) by (apply Z.lxor_nonneg; lia).
  split; [exact Hn|].
  destruct (Z.eq_dec (Z.lxor a b) 0) as [E|E]; [lia|].
  change 4294967296 with (2 ^ 32) in *.
  apply Z.log2_lt_pow2; [lia|].
  pose proof (Z.log2_lxor a b ltac:(lia) ltac:(lia)) as Hl.
  assert (Hla : Z.log2 a < 32).
  { destruct (Z.eq_dec a 0) as [->|]; [reflexivity|apply Z.log2_lt_pow2; lia]. }
  assert (Hlb : Z.log2 b < 32).
  { destruct (Z.eq_dec b 0) as [->|]; [reflexivity|apply Z.log2_lt_pow2; lia]. }
  lia.
Qed.

Lemma IEEETable_uint32 (i : nat) : 0 <= nth i crc32.IEEETable 0 < 4294967296.
Proof.
  assert (H : forallb (fun x => (0 <=? x) && (x <? 4294967296)) crc32.IEEETable = true)
    by (vm_compute; reflexivity).
  destruct (nth_in_or_default i crc32.IEEETable 0) as [Hin|Hd]; [|rewrite Hd; lia].
  rewrite forallb_forall in H. specialize (H _ Hin).
  apply andb_prop in H as [H1 H2]. apply Z.leb_le in H1. apply Z.ltb_lt in H2. lia.
Qed.

Lemma step_uint32 (crc : Z) (v : byte) :
  0 <= crc < 4294967296 -> 0 <= crc32.step crc32.IEEETable crc v < 4294967296.
Proof.
  intros H. unfold crc32.step. apply lxor_uint32; [apply IEEETable_uint32|].
  rewrite Z.shiftr_div_pow2 by lia. change (2 ^ 8) with 256.
  split; [apply Z.div_pos; lia|].
  apply Z.div_lt_upper_bound; lia.
Qed.

Lemma Update_uint32 (p : list byte) (crc : Z) :
  0 <= crc < 4294967296 -> 0 <= crc32.Update crc crc32.IEEETable p < 4294967296.
Proof.
  intros H. unfold crc32.Update, crc32.not32.
  apply lxor_uint32; [|lia].
  assert (H0 : 0 <= Z.lxor crc 0xffffffff < 4294967296) by (apply lxor_uint32; lia).
  revert H0. generalize (Z.lxor crc 0xffffffff) as c.
  induction p as [|v p IH]; intros c Hc; simpl; [exact Hc|].
  apply IH. now apply step_uint32.
Qed.

Lemma parsed_checksum_uint32 (file : list byte) :
  0 <= snd (fst (parseFilterContents file)) < 4294967296.
Proof.
  unfold parseFilterContents. simpl.
  rewrite fold_parseLine_checksum, Update_lines. apply Update_uint32. simpl. lia.
Qed.

(** ** Trimming *)

Lemma space2_lead (b0 b1 : byte) :
  strings.space2 b0 b1 = true ->
  strings.asciiSpace b0 = false /\ strings.asciiSpace b1 = false.
Proof.
  unfold strings.space2. intros H.
  apply andb_prop in H as [H0 H1].
  apply Byte.byte_dec_bl in H0. subst b0.
  apply orb_prop in H1 as [H1|H1]; apply Byte.byte_dec_bl in H1; subst b1;
    split; reflexivity.
Qed.

Lemma space3_lead (b0 b1 b2 : byte) :
  strings.space3 b0 b1 b2 = true ->
  strings.asciiSpace b0 = false /\ strings.space2 b0 b1 = false
  /\ strings.asciiSpace b2 = false /\ strings.space2 b1 b2 = false.
Proof.
  unfold strings.space3. intros H.
  assert (Hb2 : 0x80 <= code b2 -> strings.asciiSpace b2 = false).
  { destruct b2; vm_compute; intros Hc; try reflexivity; exfalso; apply Hc; reflexivity. }
  repeat (apply orb_prop in H as [H|H]);
    repeat (apply andb_prop in H as [H ?]);
    repeat match goal with
           | E : Byte.eqb _ _ = true |- _ => apply Byte.byte_dec_bl in E; subst
           end;
    repeat split; try reflexivity.
  apply orb_prop in H0 as [H0|H0];
    [apply orb_prop in H0 as [H0|H0]; [apply orb_prop in H0 as [H0|H0]|]|];
    try (apply Byte.byte_dec_bl in H0; subst; reflexivity).
  apply andb_prop in H0 as [H0 _]. apply Hb2. now apply Z.leb_le.
Qed.

Lemma trimLeft_spaces (ws : list byte) :
  spaceRunes ws -> forall s, strings.trimLeft (ws ++ s) = strings.trimLeft s.
Proof.
  induction 1 as [|b t Hb _ IH|b0 b1 t H2 _ IH|b0 b1 b2 t H3 _ IH]; intros s.
  - reflexivity.
  - simpl. now rewrite Hb.
  - destruct (space2_lead _ _ H2) as [H0 _].
    simpl. now rewrite H0, H2.
  - destruct (space3_lead _ _ _ H3) as (H0 & H2 & _).
    simpl. now rewrite H0, H2, H3.
Qed.

Lemma trimLeftRev_spaces (ws : list byte) :
  spaceRunes ws -> forall s, strings.trimLeftRev (rev ws ++ s) = strings.trimLeftRev s.
Proof.
  induction 1 as [|b t Hb _ IH|b0 b1 t H2 _ IH|b0 b1 b2 t H3 _ IH]; intros s.
  - reflexivity.
  - simpl rev. rewrite <- app_assoc, IH. simpl. now rewrite Hb.
  - destruct (space2_lead _ _ H2) as [_ H1].
    simpl rev. rewrite <- !app_assoc, IH. simpl. now rewrite H1, H2.
  - destruct (space3_lead _ _ _ H3) as (_ & _ & Hb2 & H12).
    simpl rev. rewrite <- !app_assoc, IH. simpl. now rewrite Hb2, H12, H3.
Qed.

Lemma TrimSpace_spaces (ws : list byte) : spaceRunes ws -> strings.TrimSpace ws = [].
Proof.
  intros H. unfold strings.TrimSpace.
  rewrite <- (app_nil_r ws), (trimLeft_spaces ws H). reflexivity.
Qed.

Lemma TrimSpace_indent (indent raw : list byte) :
  spaceRunes indent -> strings.TrimSpace (indent ++ raw) = strings.TrimSpace raw.
Proof.
  intros H. unfold strings.TrimSpace. now rewrite trimLeft_spaces.
Qed.

Lemma asciiNonSpace_lead (c : byte) :
  asciiNonSpace c = true ->
  strings.asciiSpace c = false
  /\ (forall b, strings.space2 c b = false)
  /\ (forall b b', strings.space3 c b b' = false).
Proof.
  unfold asciiNonSpace. intros H. apply andb_prop in H as [Hc Hs].
  apply negb_true_iff in Hs. split; [exact Hs|].
  assert (Hne : forall d, 0x80 <= code d -> Byte.eqb c d = false).
  { intros d Hd. destruct (Byte.eqb c d) eqn:E; [|reflexivity].
    apply Byte.byte_dec_bl in E. subst d. apply Z.ltb_lt in Hc. lia. }
  split; intros; unfold strings.space2, strings.space3;
    rewrite ?(Hne xc2), ?(Hne xe1), ?(Hne xe2), ?(Hne xe3);
    try reflexivity; vm_compute; discriminate.
Qed.

(** The head of a trimmed string is not an ASCII space, and neither is
    its last byte. *)
Lemma trimLeftRev_head (n : nat) :
  forall s, (length s <= n)%nat ->
    match strings.trimLeftRev s with
    | [] => True
    | b :: _ => strings.asciiSpace b = false
    end.
Proof.
  induction n as [|n IH]; intros s Hn.
  - destruct s; [exact I|simpl in Hn; lia].
  - destruct s as [|b0 [|b1 [|b2 t2]]]; simpl in *.
    + exact I.
    + destruct (strings.asciiSpace b0) eqn:E0; [exact I|exact E0].
    + destruct (strings.asciiSpace b0) eqn:E0.
      * apply (IH [b1]). simpl. lia.
      * destruct (strings.space2 b1 b0); [exact I|exact E0].
    + destruct (strings.asciiSpace b0) eqn:E0.
      * apply (IH (b1 :: b2 :: t2)). simpl. lia.
      * destruct (strings.space2 b1 b0).
        -- apply (IH (b2 :: t2)). simpl. lia.
        -- destruct (strings.space3 b2 b1 b0); [|exact E0].
           apply IH. lia.
Qed.

Lemma TrimSpace_last (raw : list byte) :
  match rev (strings.TrimSpace raw) with
  | [] => True
  | b :: _ => strings.asciiSpace b = false
  end.
Proof.
  unfold strings.TrimSpace, strings.trimRight. rewrite rev_involutive.
  now apply (trimLeftRev_head (length (rev (strings.trimLeft raw)))).
Qed.

(** A leading character that is no part of a space rune survives
    trimming on the right. *)
Lemma trimLeftRev_keeps_last (c : byte) (n : nat) :
  asciiNonSpace c = true ->
  forall l, (length l <= n)%nat ->
    exists l', strings.trimLeftRev (l ++ [c]) = l' ++ [c].
Proof.
  intros Hc. destruct (asciiNonSpace_lead c Hc) as (Hc1 & Hc2 & Hc3).
  induction n as [|n IH]; intros l Hn.
  - destruct l; [|simpl in Hn; lia]. exists []. simpl. now rewrite Hc1.
  - destruct l as [|b0 [|b1 [|b2 t2]]]; simpl in *.
    + exists []. now rewrite Hc1.
    + destruct (strings.asciiSpace b0).
      * exists []. now rewrite Hc1.
      * rewrite Hc2. now exists [b0].
    + destruct (strings.asciiSpace b0).
      * apply (IH [b1]). simpl. lia.
      * destruct (strings.space2 b1 b0).
        -- exists []. now rewrite Hc1.
        -- rewrite Hc3. now exists [b0; b1].
    + destruct (strings.asciiSpace b0).
      * apply (IH (b1 :: b2 :: t2)). simpl. lia.
      * destruct (strings.space2 b1 b0).
        -- apply (IH (b2 :: t2)). simpl. lia.
        -- destruct (strings.space3 b2 b1 b0).
           ++ apply IH. lia.
           ++ now exists (b0 :: b1 :: b2 :: t2).
Qed.

Lemma TrimSpace_first (indent : list byte) (c : byte) (rest : list byte) :
  spaceRunes indent -> asciiNonSpace c = true ->
  exists rest', strings.TrimSpace (indent ++ c :: rest) = c :: rest'.
Proof.
  intros Hi Hc. rewrite TrimSpace_indent by exact Hi.
  destruct (asciiNonSpace_lead c Hc) as (Hc1 & Hc2 & Hc3).
  assert (Hl : strings.trimLeft (c :: rest) = c :: rest).
  { destruct rest as [|b1 [|b2 t]]; simpl; now rewrite Hc1, ?Hc2, ?Hc3. }
  unfold strings.TrimSpace, strings.trimRight. rewrite Hl. simpl rev.
  destruct (trimLeftRev_keeps_last c (length (rev rest)) Hc (rev rest) (le_n _))
    as [l' Hl'].
  rewrite Hl', rev_app_distr. simpl. now exists (rev l').
Qed.

(** ** The title pattern *)

Lemma stripPrefix_Some (prefix : list byte) :
  forall s rest, stripPrefix prefix s = Some rest -> s = prefix ++ rest.
Proof.
  induction prefix as [|p prefix IH]; intros s rest H; simpl in *.
  - now inversion H.
  - destruct s as [|b s]; [discriminate|].
    destruct (Byte.eqb b p) eqn:E; [|discriminate].
    apply Byte.byte_dec_bl in E. subst b. f_equal. now apply IH.
Qed.

Lemma dropSpaces_spec (s : list byte) :
  exists k, s = repeat x20 k ++ dropSpaces s.
Proof.
  induction s as [|b s [k IH]]; simpl.
  - now exists 0%nat.
  - destruct (Byte.eqb b x20) eqn:E.
    + apply Byte.byte_dec_bl in E. subst b. exists (S k). simpl. now f_equal.
    + now exists 0%nat.
Qed.

Lemma filterTitleRegexp_shape (line m : list byte) :
  filterTitleRegexp line = Some m ->
  exists k, line = bytes "! Title:" ++ repeat x20 (S k) ++ m.
Proof.
  unfold filterTitleRegexp. intros H.
  destruct (stripPrefix titlePrefix line) as [rest|] eqn:E; [|discriminate].
  apply stripPrefix_Some in E.
  destruct (existsb (Byte.eqb x0a) (dropSpaces rest)); [discriminate|].
  inversion H; subst m; clear H.
  destruct (dropSpaces_spec rest) as [k Hk].
  exists k. rewrite E, Hk at 1. reflexivity.
Qed.

Lemma dropSpaces_repeat (k : nat) (m : list byte) :
  dropSpaces (repeat x20 k ++ m) = dropSpaces m.
Proof. induction k as [|k IH]; simpl; [reflexivity|exact IH]. Qed.

Lemma filterTitleRegexp_matches (k : nat) (m : list byte) :
  dropSpaces m = m -> existsb (Byte.eqb x0a) m = false ->
  filterTitleRegexp (bytes "! Title:" ++ repeat x20 (S k) ++ m) = Some m.
Proof.
  intros Hm Hn. unfold filterTitleRegexp, titlePrefix. simpl.
  now rewrite dropSpaces_repeat, Hm, Hn.
Qed.

Lemma filterTitleRegexp_head (line : list byte) :
  match line with
  | c :: _ => Byte.eqb c "!"%byte = false -> filterTitleRegexp line = None
  | [] => filterTitleRegexp line = None
  end.
Proof.
  destruct line as [|c line]; [reflexivity|].
  intros E. unfold filterTitleRegexp, titlePrefix. simpl. now rewrite E.
Qed.

Lemma title_text_nonempty (raw m : list byte) : titleOf raw = Some m -> m <> [].
Proof.
  unfold titleOf. intros H Hm. subst m.
  apply filterTitleRegexp_shape in H as [k Hk].
  pose proof (TrimSpace_last raw) as Hl. rewrite Hk in Hl.
  change (repeat x20 (S k)) with (x20 :: repeat x20 k) in Hl.
  rewrite app_nil_r, repeat_cons, !rev_app_distr in Hl.
  simpl in Hl. discriminate.
Qed.

(** ** The loop of [parseFilterContents] *)

Lemma parseLine_title (st : parseState) (raw : list byte) :
  (ps_name (parseLine st raw), ps_seenTitle (parseLine st raw))
  = if ps_seenTitle st then (ps_name st, true)
    else match titleOf raw with
         | Some m => (string_of_list_byte m, true)
         | None => (ps_name st, false)
         end.
Proof.
  unfold parseLine, titleOf.
  pose proof (filterTitleRegexp_head (strings.TrimSpace raw)) as Hh.
  destruct (strings.TrimSpace raw) as [|c line].
  - rewrite Hh. now destruct (ps_seenTitle st).
  - destruct (Byte.eqb c "!"%byte).
    + destruct (filterTitleRegexp (c :: line)); now destruct (ps_seenTitle st).
    + rewrite Hh by reflexivity.
      destruct (Byte.eqb c "#"%byte); now destruct (ps_seenTitle st).
Qed.

Lemma fold_parseLine_seen (lines : list (list byte)) :
  forall st, ps_seenTitle st = true ->
    ps_name (fold_left parseLine lines st) = ps_name st.
Proof.
  induction lines as [|raw lines IH]; intros st Hs; simpl; [reflexivity|].
  pose proof (parseLine_title st raw) as Ht. rewrite Hs in Ht.
  injection Ht as Hn Hs'. rewrite IH by exact Hs'. exact Hn.
Qed.

Lemma fold_parseLine_name (lines : list (list byte)) :
  forall st, ps_seenTitle st = false ->
    ps_name (fold_left parseLine lines st)
    = match firstTitle lines with
      | Some m => string_of_list_byte m
      | None => ps_name st
      end.
Proof.
  induction lines as [|raw lines IH]; intros st Hs; simpl; [reflexivity|].
  pose proof (parseLine_title st raw) as Ht. rewrite Hs in Ht.
  destruct (titleOf raw) as [m|]; injection Ht as Hn Hs'.
  - rewrite fold_parseLine_seen by exact Hs'. exact Hn.
  - rewrite IH by exact Hs'. now rewrite Hn.
Qed.

Lemma wrap_int_idem (a b : Z) : wrap_int (wrap_int a + b) = wrap_int (a + b).
Proof.
  unfold wrap_int. f_equal.
  replace ((a + 2 ^ 63) mod 2 ^ 64 - 2 ^ 63 + b + 2 ^ 63)
    with ((a + 2 ^ 63) mod 2 ^ 64 + b) by ring.
  rewrite Zplus_mod_idemp_l. f_equal. ring.
Qed.

Lemma parseLine_rulesCount (st : parseState) (raw : list byte) :
  ps_rulesCount (parseLine st raw)
  = if isRule raw then wrap_int (ps_rulesCount st + 1) else ps_rulesCount st.
Proof.
  unfold parseLine, isRule, kindOf.
  destruct (strings.TrimSpace raw) as [|c line]; [reflexivity|].
  destruct (Byte.eqb c "!"%byte); simpl.
  - destruct (filterTitleRegexp (c :: line)); [destruct (negb (ps_seenTitle st))|];
      reflexivity.
  - destruct (Byte.eqb c "#"%byte); reflexivity.
Qed.

Lemma fold_parseLine_rulesCount (lines : list (list byte)) :
  forall st,
    wrap_int (ps_rulesCount (fold_left parseLine lines st))
    = wrap_int (ps_rulesCount st + Z.of_nat (length (List.filter isRule lines))).
Proof.
  induction lines as [|raw lines IH]; intros st; simpl.
  - now rewrite Z.add_0_r.
  - rewrite IH, parseLine_rulesCount.
    destruct (isRule raw); [|reflexivity].
    rewrite wrap_int_idem. f_equal. simpl length. lia.
Qed.

Lemma wrap_int_small (x : Z) :
  -9223372036854775808 <= x < 9223372036854775808 -> wrap_int x = x.
Proof.
  intros H. unfold wrap_int.
  change (2 ^ 63) with 9223372036854775808.
  change (2 ^ 64) with 18446744073709551616.
  rewrite Z.mod_small; lia.
Qed.

Lemma wrap_int_wrap (x : Z) : wrap_int (wrap_int x) = wrap_int x.
Proof.
  pose proof (wrap_int_idem x 0) as H. now rewrite !Z.add_0_r in H.
Qed.

Lemma fold_parseLine_wrapped (lines : list (list byte)) :
  forall st, wrap_int (ps_rulesCount st) = ps_rulesCount st ->
    wrap_int (ps_rulesCount (fold_left parseLine lines st))
    = ps_rulesCount (fold_left parseLine lines st).
Proof.
  induction lines as [|raw lines IH]; intros st Hs; simpl; [exact Hs|].
  apply IH. rewrite parseLine_rulesCount.
  destruct (isRule raw); [apply wrap_int_wrap|exact Hs].
Qed.

Lemma parse_rulesCount (file : list byte) :
  fst (fst (parseFilterContents file))
  = wrap_int (Z.of_nat (length (List.filter isRule (readLines file)))).
Proof.
  unfold parseFilterContents. simpl fst.
  rewrite <- (fold_parseLine_wrapped (readLines file) parseInit).
  - now rewrite fold_parseLine_rulesCount.
  - vm_compute. reflexivity.
Qed.

Lemma parse_name (file : list byte) :
  snd (parseFilterContents file) = declaredName (readLines file).
Proof.
  unfold parseFilterContents, declaredName. simpl snd.
  now rewrite fold_parseLine_name.
Qed.

Lemma parse_checksum (file : list byte) :
  snd (fst (parseFilterContents file)) = crc32.ChecksumIEEE file.
Proof.
  unfold parseFilterContents. simpl.
  rewrite fold_parseLine_checksum, Update_lines, concat_readLines. reflexivity.
Qed.

(** ** The name at commit *)

Ltac break_match :=
  match goal with
  | |- context [match ?x with _ => _ end] => destruct x eqn:?
  end.

Lemma finalizeUpdate_Name (e : env) (tmp : path) (flt : filter) (updated : bool)
    (name : string) (rnum cs : Z) (w : world) :
  Name (fst (fst (finalizeUpdate e tmp flt updated name rnum cs w)))
  = if String.eqb (Name flt) EmptyString
    then (if updated && isNil (snd (finalizeUpdate e tmp flt updated name rnum cs w))
          then name else EmptyString)
    else Name flt.
Proof.
  unfold finalizeUpdate, os_Remove, os_Rename, logOp, Coalesce.
  destruct (String.eqb (Name flt) EmptyString) eqn:E;
    [apply String.eqb_eq in E|];
    destruct (e_close e), updated; simpl;
    repeat (break_match; simpl in *);
    try reflexivity; try discriminate; try assumption;
    repeat match goal with H : (_, _) = (_, _) |- _ => inversion H; clear H; subst end;
    simpl; try reflexivity; try discriminate; assumption.
Qed.

Lemma updateIntl_Name (e : env) (flt : filter) (w : world) :
  Name flt = EmptyString \/ Name (fst (fst (fst (updateIntl e flt w)))) = Name flt.
Proof.
  destruct (String.eqb (Name flt) EmptyString) eqn:E; [left; now apply String.eqb_eq|right].
  unfold updateIntl.
  destruct (os_CreateTemp e w) as [[tmp w1]|]; [|reflexivity].
  destruct (fetchAndProcess e flt tmp w1) as [[p ok] w2].
  pose proof (finalizeUpdate_Name e tmp flt ok (p_name p) (p_rnum p) (p_cs p) w2) as H.
  destruct (finalizeUpdate e tmp flt ok (p_name p) (p_rnum p) (p_cs p) w2)
    as [[flt' w3] ferr].
  simpl in *. now rewrite E in H.
Qed.

Lemma update_Name (e : env) (flt : filter) (w : world) :
  Name flt = EmptyString \/ Name (fst (fst (fst (update e flt w)))) = Name flt.
Proof.
  destruct (updateIntl_Name e flt w) as [H|H]; [now left|right].
  unfold update.
  destruct (updateIntl e flt w) as [[[flt1 w1] b] err]. exact H.
Qed.

(** C7.  The name that the parser returns is the text of the first line
    whose trimmed text matches the title pattern, and later title lines do
    not change it; a title line is [! Title:], one or more spaces and a text
    that is not empty, and every trimmed line of this form whose text starts
    with no space matches; at commit the name of the filter becomes the declared
    title only if it was empty, and a name that is set is kept, by
    [finalizeUpdate] and by the whole of [update]. *)
Theorem first_title_sets_name_and_set_name_is_kept :
  (forall file, snd (parseFilterContents file) = declaredName (readLines file))
  /\ (forall raw,
        match titleOf raw with
        | Some m =>
          m <> []
          /\ exists k, strings.TrimSpace raw = bytes "! Title:" ++ repeat x20 (S k) ++ m
        | None => True
        end)
  /\ (forall k m,
        dropSpaces m = m -> existsb (Byte.eqb x0a) m = false ->
        filterTitleRegexp (bytes "! Title:" ++ repeat x20 (S k) ++ m) = Some m)
  /\ (forall e tmp flt updated name rnum cs w,
        Name (fst (fst (finalizeUpdate e tmp flt updated name rnum cs w)))
        = if String.eqb (Name flt) EmptyString
          then (if updated && isNil (snd (finalizeUpdate e tmp flt updated name rnum cs w))
                then name else EmptyString)
          else Name flt)
  /\ (forall e flt w,
        Name flt = EmptyString \/ Name (fst (fst (fst (update e flt w)))) = Name flt).
Proof.
  split; [exact parse_name|].
  split; [|split; [exact filterTitleRegexp_matches|]].
  - intros raw. destruct (titleOf raw) as [m|] eqn:E; [|exact I].
    split; [now apply (title_text_nonempty raw)|].
    now apply filterTitleRegexp_shape.
  - split; [exact finalizeUpdate_Name|exact update_Name].
Qed.

(** ** Lines *)

Lemma kindOf_spaces (ws : list byte) : spaceRunes ws -> kindOf ws = Blank.
Proof. intros H. unfold kindOf. now rewrite TrimSpace_spaces. Qed.

Lemma kindOf_first (indent : list byte) (c : byte) (rest : list byte) :
  spaceRunes indent -> asciiNonSpace c = true ->
  kindOf (indent ++ c :: rest)
  = if Byte.eqb c "!"%byte || Byte.eqb c "#"%byte then Comment else Rule.
Proof.
  intros Hi Hc. unfold kindOf.
  destruct (TrimSpace_first indent c rest Hi Hc) as [rest' H].
  now rewrite H.
Qed.

Lemma parse_all (file : list byte) :
  parseFilterContents file
  = (wrap_int (Z.of_nat (length (List.filter isRule (readLines file)))),
     fold_left (fun c raw => crc32.Update c crc32.IEEETable raw) (readLines file) 0,
     declaredName (readLines file)).
Proof.
  pose proof (parse_rulesCount file) as H1.
  pose proof (parse_name file) as H3.
  assert (H2 : snd (fst (parseFilterContents file))
               = fold_left (fun c raw => crc32.Update c crc32.IEEETable raw)
                           (readLines file) 0).
  { unfold parseFilterContents. simpl. now rewrite fold_parseLine_checksum. }
  destruct (parseFilterContents file) as [[rnum cs] name]. simpl in *.
  now subst.
Qed.

(** C10, as amended.  Every line is classified on its trimmed text: the
    rule count is the number of lines whose trimmed text is not empty and
    starts with neither [!] nor [#], the checksum is folded over the raw
    lines, a line of white space only is blank, a line whose first character
    after the white space is [!] or [#] is a comment, and the title pattern
    is applied to the trimmed text as well, so that an indented title line
    declares the same title as the line without its indentation. *)
Theorem lines_are_classified_after_trimming :
  (forall file,
     parseFilterContents file
     = (wrap_int (Z.of_nat (length (List.filter isRule (readLines file)))),
        fold_left (fun c raw => crc32.Update c crc32.IEEETable raw) (readLines file) 0,
        declaredName (readLines file)))
  /\ (forall ws, spaceRunes ws -> kindOf ws = Blank)
  /\ (forall indent c rest,
        spaceRunes indent -> asciiNonSpace c = true ->
        kindOf (indent ++ c :: rest)
        = if Byte.eqb c "!"%byte || Byte.eqb c "#"%byte then Comment else Rule)
  /\ (forall indent raw,
        spaceRunes indent -> titleOf (indent ++ raw) = titleOf raw).
Proof.
  split; [exact parse_all|].
  split; [exact kindOf_spaces|].
  split; [exact kindOf_first|].
  intros indent raw H. unfold titleOf. now rewrite TrimSpace_indent.
Qed.

(** C10, as stated, fails: the claim has an indented title line not match
    the pattern, but the pattern is applied to the trimmed line, and the
    line below, indented by two spaces, declares the title [Foo]. *)
Lemma indented_title_line_matches :
  titleOf (bytes "  ! Title: Foo" ++ [x0a]) = Some (bytes "Foo")
  /\ snd (parseFilterContents (bytes "  ! Title: Foo" ++ [x0a] ++ bytes "||ads.example^"))
     = "Foo"%string.
Proof. split; vm_compute; reflexivity. Qed.

(** ** The interval of the scheduler *)

Lemma nextInterval_range (b : option bool) (intval : Z) :
  5 <= intval <= maxInterval -> 5 <= nextInterval b intval <= maxInterval.
Proof.
  unfold nextInterval, maxInterval. change (1 * 60 * 60) with 3600. intros H.
  destruct b as [[|]|]; cbv zeta; try lia.
  rewrite wrap_int_small by lia.
  destruct (intval * 2 >? 3600) eqn:E; [lia|].
  rewrite Z.gtb_ltb in E. apply Z.ltb_ge in E. lia.
Qed.

Lemma intervalAfter_range (batches : list (option bool)) :
  5 <= intervalAfter batches <= maxInterval.
Proof.
  unfold intervalAfter.
  assert (H : 5 <= initialInterval <= maxInterval) by (vm_compute; split; discriminate).
  revert H. generalize initialInterval as intval.
  induction batches as [|b batches IH]; intros intval H; simpl; [exact H|].
  apply IH. now apply nextInterval_range.
Qed.

Lemma nextInterval_failed (intval : Z) :
  5 <= intval <= maxInterval ->
  nextInterval (Some true) intval = Z.min (2 * intval) 3600.
Proof.
  unfold nextInterval, maxInterval. change (1 * 60 * 60) with 3600. intros H.
  cbv zeta. rewrite wrap_int_small by lia.
  destruct (intval * 2 >? 3600) eqn:E.
  - apply Z.gtb_lt in E. lia.
  - rewrite Z.gtb_ltb in E. apply Z.ltb_ge in E. lia.
Qed.

(** C8.  The interval starts at 5 seconds; whatever iterations went
    before, a batch that ran without a full network failure sets it to 3600,
    a batch that failed entirely doubles it up to the cap of 3600, and an
    iteration without a batch leaves it as it is; an iteration of the loop
    applies exactly this to the flag its batch returned; three batches that
    fail entirely give 5, 10, 20, 40. *)
Theorem scheduler_interval_policy :
  initialInterval = 5
  /\ (forall batches,
        nextInterval (Some false) (intervalAfter batches) = 3600
        /\ nextInterval (Some true) (intervalAfter batches)
           = Z.min (2 * intervalAfter batches) 3600
        /\ nextInterval None (intervalAfter batches) = intervalAfter batches)
  /\ (forall envsB envsW now cas s,
        s_intval (periodicIteration envsB envsW now cas s)
        = nextInterval
            (if negb (FiltersUpdateIntervalHours (s_config s) =? 0) && cas
             then Some (snd (fst (fst
                    (refreshFiltersIfNecessary envsB envsW now
                       (Z.lor filterRefreshBlocklists filterRefreshAllowlists)
                       (s_config s) (s_world s)))))
             else None)
            (s_intval s))
  /\ initialInterval :: intervals initialInterval [Some true; Some true; Some true]
     = [5; 10; 20; 40].
Proof.
  split; [reflexivity|]. split; [|split].
  - intros batches. pose proof (intervalAfter_range batches) as H.
    split; [reflexivity|]. split; [now apply nextInterval_failed|reflexivity].
  - intros envsB envsW now cas s. unfold periodicIteration.
    destruct (negb (FiltersUpdateIntervalHours (s_config s) =? 0) && cas);
      [|reflexivity].
    destruct (refreshFiltersIfNecessary envsB envsW now
                (Z.lor filterRefreshBlocklists filterRefreshAllowlists)
                (s_config s) (s_world s)) as [[[n isNetworkErr] cfg] w].
    reflexivity.
  - vm_compute. reflexivity.
Qed.

(** ** Identifiers *)

Lemma load_ID (le : loadEnv) (fs : filesystem) (flt : filter) :
  ID (fst (load le fs flt)) = ID flt.
Proof. unfold load. repeat break_match; reflexivity. Qed.

Lemma ID_after_load (le : loadEnv) (fs : filesystem) (f : filter) :
  ID (if negb (Enabled f) then f else fst (load le fs f)) = ID f.
Proof. destruct (negb (Enabled f)); [reflexivity|apply load_ID]. Qed.

Lemma zeros_nonneg (ids : list Z) : 0 <= zeros ids.
Proof. unfold zeros. lia. Qed.

Lemma zeros_cons (id : Z) (ids : list Z) :
  zeros (id :: ids) = (if id =? 0 then 1 else 0) + zeros ids.
Proof.
  unfold zeros. simpl. destruct (id =? 0); simpl length; lia.
Qed.

Lemma loadFilters_ids (array : list filter) :
  forall les fs i next,
    -9223372036854775808 <= next ->
    next + Z.of_nat (length array) < 9223372036854775808 ->
    map ID (fst (loadFilters les fs i array next)) = renumber (map ID array) next
    /\ snd (loadFilters les fs i array next) = next + zeros (map ID array)
    /\ length (fst (loadFilters les fs i array next)) = length array.
Proof.
  induction array as [|f rest IH]; intros les fs i next Hlo Hhi.
  - simpl. repeat split. unfold zeros. simpl. lia.
  - simpl map. rewrite zeros_cons. simpl loadFilters. simpl length in Hhi.
    unfold assignUniqueFilterID.
    destruct (ID f =? 0) eqn:E.
    + rewrite wrap_int_small by lia.
      destruct (IH les fs (S i) (next + 1)) as (H1 & H2 & H3); [lia|lia|].
      destruct (loadFilters les fs (S i) rest (next + 1)) as [rest' next2].
      cbn [fst snd map length renumber] in *. rewrite E, H1, H2, H3.
      repeat split; [|lia].
      now rewrite ID_after_load.
    + destruct (IH les fs (S i) next) as (H1 & H2 & H3); [lia|lia|].
      destruct (loadFilters les fs (S i) rest next) as [rest' next2].
      cbn [fst snd map length renumber] in *. rewrite E, H1, H2, H3.
      repeat split.
      now rewrite ID_after_load.
Qed.

Lemma renumber_In (ids : list Z) :
  forall next v, In v (renumber ids next) ->
    (In v ids /\ v <> 0) \/ next <= v < next + zeros ids.
Proof.
  induction ids as [|id rest IH]; intros next v H; simpl in H; [contradiction|].
  rewrite zeros_cons. pose proof (zeros_nonneg rest) as Hz.
  destruct (id =? 0) eqn:E; destruct H as [H|H].
  - right. lia.
  - destruct (IH _ _ H) as [[Hin Hv]|Hr]; [left; split; [now right|exact Hv]|right; lia].
  - left. apply Z.eqb_neq in E. subst v. split; [now left|exact E].
  - destruct (IH _ _ H) as [[Hin Hv]|Hr]; [left; split; [now right|exact Hv]|right; lia].
Qed.

Lemma renumber_fresh (ids : list Z) :
  forall next, (forall id, In id ids -> id < next) ->
  forall k, (k < length ids)%nat ->
    if nth k ids 0 =? 0 then
      next <= nth k (renumber ids next) 0
      /\ Forall (fun x => x < nth k (renumber ids next) 0) (firstn k (renumber ids next))
      /\ ~ In (nth k (renumber ids next) 0) (skipn (S k) (renumber ids next))
    else nth k (renumber ids next) 0 = nth k ids 0.
Proof.
  induction ids as [|id rest IH]; intros next Hlt k Hk; [simpl in Hk; lia|].
  assert (Hrest : forall n, next <= n -> forall x, In x rest -> x < n).
  { intros n Hn x Hx. specialize (Hlt x (or_intror Hx)). lia. }
  destruct k as [|k].
  - simpl. destruct (id =? 0) eqn:E; simpl; [|reflexivity].
    split; [lia|]. split; [constructor|].
    intros Hin. apply renumber_In in Hin as [[Hin _]|Hr]; [|lia].
    specialize (Hlt next (or_intror Hin)). lia.
  - simpl in Hk. simpl nth at 1.
    assert (Hid : id < next) by (apply Hlt; now left).
    destruct (id =? 0) eqn:E; simpl renumber; rewrite ?E; simpl nth; simpl firstn;
      simpl skipn.
    + specialize (IH (next + 1) (Hrest (next + 1) ltac:(lia)) k ltac:(lia)).
      destruct (nth k rest 0 =? 0); [|exact IH].
      destruct IH as (H1 & H2 & H3). split; [lia|]. split; [|exact H3].
      constructor; [lia|exact H2].
    + specialize (IH next (Hrest next ltac:(lia)) k ltac:(lia)).
      destruct (nth k rest 0 =? 0); [|exact IH].
      destruct IH as (H1 & H2 & H3). split; [lia|]. split; [|exact H3].
      constructor; [lia|exact H2].
Qed.

Lemma updateUniqueFilterID_fixed (filters : list filter) :
  forall next, (forall f, In f filters -> ID f < next) ->
    updateUniqueFilterID filters next = next.
Proof.
  unfold updateUniqueFilterID.
  induction filters as [|f rest IH]; intros next H; simpl; [reflexivity|].
  assert (E : (next <? ID f) = false).
  { apply Z.ltb_ge. specialize (H f (or_introl eq_refl)). lia. }
  rewrite E. apply IH. intros g Hg. apply H. now right.
Qed.

(** C9, as amended.  When every identifier seen so far and every
    identifier of the array is below the counter, and the counter does not
    overflow, [loadFilters] gives every filter whose identifier is zero an
    identifier that is at least the value of the counter at the start (the
    seed, for the first call), strictly greater than every identifier seen
    before it, and different from every identifier after it; the other
    filters keep theirs; the counter ends above every identifier seen, and
    [updateUniqueFilterID] leaves it there. *)
Theorem assigned_ids_are_fresh :
  forall (les : nat -> loadEnv) (fs : filesystem) (i : nat)
         (array : list filter) (next : Z) (seen : list Z),
    -9223372036854775808 <= next ->
    next + Z.of_nat (length array) < 9223372036854775808 ->
    (forall id, In id (seen ++ map ID array) -> id < next) ->
    let '(array', next') := loadFilters les fs i array next in
    length array' = length array
    /\ (forall k, (k < length array)%nat ->
          if nth k (map ID array) 0 =? 0 then
            next <= nth k (map ID array') 0
            /\ Forall (fun id => id < nth k (map ID array') 0)
                      (seen ++ firstn k (map ID array'))
            /\ ~ In (nth k (map ID array') 0) (skipn (S k) (map ID array'))
          else nth k (map ID array') 0 = nth k (map ID array) 0)
    /\ next <= next'
    /\ (forall id, In id (seen ++ map ID array') -> id < next')
    /\ updateUniqueFilterID array' next' = next'.
Proof.
  intros les fs i array next seen Hlo Hhi Hlt.
  destruct (loadFilters_ids array les fs i next Hlo Hhi) as (H1 & H2 & H3).
  destruct (loadFilters les fs i array next) as [array' next'].
  simpl in H1, H2, H3. subst next'. rewrite H1.
  pose proof (zeros_nonneg (map ID array)) as Hz.
  assert (Hin : forall id, In id (map ID array) -> id < next).
  { intros id Hid. apply Hlt, in_or_app. now right. }
  assert (Hseen : forall id, In id seen -> id < next).
  { intros id Hid. apply Hlt, in_or_app. now left. }
  assert (Hall : forall id, In id (seen ++ renumber (map ID array) next) ->
                            id < next + zeros (map ID array)).
  { intros id Hid. apply in_app_or in Hid as [Hid|Hid].
    - specialize (Hseen id Hid). lia.
    - apply renumber_In in Hid as [[Hid _]|Hid]; [specialize (Hin id Hid)|]; lia. }
  split; [exact H3|]. split; [|split; [lia|split; [exact Hall|]]].
  - intros k Hk.
    pose proof (renumber_fresh (map ID array) next Hin k) as Hf.
    rewrite length_map in Hf. specialize (Hf Hk).
    destruct (nth k (map ID array) 0 =? 0); [|exact Hf].
    destruct Hf as (Hf1 & Hf2 & Hf3). split; [exact Hf1|]. split; [|exact Hf3].
    apply Forall_app. split; [|exact Hf2].
    apply Forall_forall. intros id Hid. specialize (Hseen id Hid). lia.
  - apply updateUniqueFilterID_fixed. intros f Hf.
    apply Hall, in_or_app. right. rewrite <- H1. now apply in_map.
Qed.

(** The theorem on an array with two zero identifiers and the identifier 7,
    loaded with the counter at 100 after the identifier 3 was seen. *)
Lemma assigned_ids_are_fresh_witness :
  let array := [zeroFilter; setID 7 zeroFilter; zeroFilter] in
  let '(array', next') := loadFilters plainLoad emptyFS 0 array 100 in
  length array' = length array
  /\ (forall k, (k < length array)%nat ->
        if nth k (map ID array) 0 =? 0 then
          100 <= nth k (map ID array') 0
          /\ Forall (fun id => id < nth k (map ID array') 0)
                    ([3] ++ firstn k (map ID array'))
          /\ ~ In (nth k (map ID array') 0) (skipn (S k) (map ID array'))
        else nth k (map ID array') 0 = nth k (map ID array) 0)
  /\ 100 <= next'
  /\ (forall id, In id ([3] ++ map ID array') -> id < next')
  /\ updateUniqueFilterID array' next' = next'.
Proof.
  apply (assigned_ids_are_fresh plainLoad emptyFS 0
           [zeroFilter; setID 7 zeroFilter; zeroFilter] 100 [3]).
  - lia.
  - simpl. lia.
  - simpl. intros id [H|[H|[H|[H|H]]]]; try contradiction; subst; lia.
Defined.

(** C9, as stated, fails: the first identifier handed out is the seed
    itself, not a greater one; and a configuration that already holds the
    identifier of the seed gets it a second time, because the counter looks
    at the configured identifiers only after the load. *)
Lemma first_assigned_id_is_the_seed :
  map ID (fst (loadFilters plainLoad emptyFS 0 [zeroFilter] 1700000000)) = [1700000000]
  /\ ~ (1700000000
        < nth 0 (map ID (fst (loadFilters plainLoad emptyFS 0 [zeroFilter] 1700000000))) 0)
  /\ map ID (fst (loadFilters plainLoad emptyFS 0
                    [setID 1700000000 zeroFilter; zeroFilter] 1700000000))
     = [1700000000; 1700000000].
Proof. split; [reflexivity|]. split; [simpl; lia|reflexivity]. Qed.

(** The comparison of [updateUniqueFilterID] is strict, so a counter equal
    to an identifier of the array stays equal to it. *)
Example counter_stays_on_equal_id :
  updateUniqueFilterID [setID 1700000000 zeroFilter] 1700000000 = 1700000000.
Proof. reflexivity. Qed.

(** ** The content check *)

Lemma printable_allowed (c : byte) : printable c = allowedByte c.
Proof. destruct c; reflexivity. Qed.

Lemma forallb_printable (p : list byte) :
  forallb printable p = forallb allowedByte p.
Proof.
  induction p as [|c p IH]; simpl; [reflexivity|].
  now rewrite printable_allowed, IH.
Qed.

Lemma HasPrefix_padding (needle : list byte) :
  forallb (fun p => negb (Byte.eqb x00 p)) needle = true ->
  forall s k,
    strings.HasPrefix (s ++ repeat x00 k) needle = strings.HasPrefix s needle.
Proof.
  induction needle as [|p needle IH]; intros Hn s k; [now destruct (s ++ repeat x00 k), s|].
  simpl in Hn. apply andb_prop in Hn as [Hp Hn]. apply negb_true_iff in Hp.
  destruct s as [|b s]; simpl.
  - destruct k; simpl; [reflexivity|]. now rewrite Hp.
  - now rewrite IH.
Qed.

Lemma Contains_padding (needle : list byte) :
  needle <> [] ->
  forallb (fun p => negb (Byte.eqb x00 p)) needle = true ->
  forall s k,
    strings.Contains (s ++ repeat x00 k) needle = strings.Contains s needle.
Proof.
  intros Hne Hn s k.
  assert (Hz : forall k, strings.Contains (repeat x00 k) needle = false).
  { destruct needle as [|p needle]; [contradiction|].
    simpl in Hn. apply andb_prop in Hn as [Hp _]. apply negb_true_iff in Hp.
    induction k0 as [|k0 IHk]; simpl; [reflexivity|]. now rewrite Hp, IHk. }
  induction s as [|b s IH].
  - simpl app. rewrite Hz. destruct needle; [contradiction|reflexivity].
  - change ((b :: s) ++ repeat x00 k) with (b :: (s ++ repeat x00 k)).
    cbn [strings.Contains]. rewrite IH.
    change (b :: (s ++ repeat x00 k)) with ((b :: s) ++ repeat x00 k).
    now rewrite HasPrefix_padding.
Qed.

Lemma ToLower_padding (fc : list byte) (k : nat) :
  strings.ToLower (fc ++ repeat x00 k) = strings.ToLower fc ++ repeat x00 k.
Proof.
  unfold strings.ToLower. rewrite map_app. f_equal.
  induction k as [|k IH]; simpl; [reflexivity|]. now rewrite IH.
Qed.

Lemma checkFirstChunk_bad (fc : list byte) :
  contentRejected (checkFirstChunk fc) = badPrefix fc.
Proof.
  unfold checkFirstChunk, badPrefix, isPrintableText, firstChunkArray, containsFold.
  rewrite firstn_app, firstn_all, Nat.sub_diag, firstn_O, app_nil_r.
  rewrite ToLower_padding, forallb_printable.
  rewrite !Contains_padding by (try discriminate; reflexivity).
  destruct (forallb allowedByte fc); simpl; [|reflexivity].
  destruct (strings.Contains (strings.ToLower fc) htmlNeedle
            || strings.Contains (strings.ToLower fc) doctypeNeedle); reflexivity.
Qed.

Lemma checkFirstChunk_None (fc : list byte) :
  checkFirstChunk fc = None -> badPrefix fc = false.
Proof. intros H. now rewrite <- checkFirstChunk_bad, H. Qed.

Lemma checkFirstChunk_Some (fc : list byte) (err : error) :
  checkFirstChunk fc = Some err -> badPrefix fc = true /\ contentRejected (Some err) = true.
Proof.
  intros H. rewrite <- checkFirstChunk_bad, H.
  unfold checkFirstChunk in H.
  repeat match type of H with
         | context [if ?c then _ else _] => destruct c
         end; inversion H; now split.
Qed.

(** ** The loop of [read] *)

Lemma firstn_min_length {A : Type} (a : nat) (l : list A) :
  firstn (Nat.min a (length l)) l = firstn a l.
Proof.
  destruct (Nat.le_gt_cases a (length l)) as [H|H].
  - now rewrite Nat.min_l.
  - rewrite Nat.min_r by lia. rewrite firstn_all, firstn_all2 by lia. reflexivity.
Qed.

Lemma firstChunk_grows (fc buf : list byte) :
  (length fc < firstChunkCap)%nat ->
  fc ++ firstn (Nat.min (firstChunkCap - length fc) (length buf)) buf
  = firstn firstChunkCap (fc ++ buf).
Proof.
  intros H. rewrite firstn_min_length, firstn_app.
  rewrite (firstn_all2 fc) by lia. reflexivity.
Qed.

Section ReadLoop.

(** The writes to the temporary file succeed. *)
Variable w : nat -> bool.
Hypothesis Hw : forall k, w k = true.

Lemma readIter_checking (fc : list byte) (total : Z)
    (written : list byte) (n : nat) (buf : list byte) (eof : bool) :
  (length fc < firstChunkCap)%nat ->
  readIter w (mkReadState true fc total written n) buf eof
  = let total' := wrap_int (total + Z.of_nat (length buf)) in
    let fc' := firstn firstChunkCap (fc ++ buf) in
    if (length fc' =? firstChunkCap)%nat || eof then
      match checkFirstChunk fc' with
      | Some e => (mkReadState true fc total' written n, Some e)
      | None => (mkReadState false [] total' (written ++ buf) (S n), None)
      end
    else (mkReadState true fc' total' (written ++ buf) (S n), None).
Proof.
  intros Hfc. unfold readIter.
  cbn [rs_htmlTest rs_firstChunk rs_total rs_written rs_nwrites].
  rewrite firstChunk_grows by exact Hfc. rewrite Hw. cbv zeta.
  destruct ((length (firstn firstChunkCap (fc ++ buf)) =? firstChunkCap)%nat || eof);
    [|reflexivity].
  destruct (checkFirstChunk (firstn firstChunkCap (fc ++ buf))); reflexivity.
Qed.

Lemma readIter_unchecked (st : readState) (buf : list byte) (eof : bool) :
  rs_htmlTest st = false ->
  rs_htmlTest (fst (readIter w st buf eof)) = false
  /\ contentRejected (snd (readIter w st buf eof)) = false.
Proof.
  intros H. unfold readIter. rewrite H.
  destruct (w (rs_nwrites st)); split; reflexivity.
Qed.

Lemma readLoop_unchecked (last : list byte) (lerr : readErr)
    (chunks : list (list byte)) :
  forall st, rs_htmlTest st = false ->
    contentRejected (snd (readLoop w st chunks last lerr)) = false.
Proof.
  induction chunks as [|buf chunks IH]; intros st H; simpl.
  - destruct (readIter_unchecked st last
                (match lerr with EOF => true | ReadFailure => false end) H) as [_ H2].
    destruct (readIter w st last _) as [st' [e|]]; [exact H2|].
    now destruct lerr.
  - destruct (readIter_unchecked st buf false H) as [H1 H2].
    destruct (readIter w st buf false) as [st' [e|]]; [exact H2|].
    now apply IH.
Qed.

Lemma firstn_full_app {A : Type} (n : nat) (l rest : list A) :
  length (firstn n l) = n -> firstn n (l ++ rest) = firstn n l.
Proof.
  intros H. rewrite length_firstn in H.
  rewrite firstn_app. replace (n - length l)%nat with 0%nat by lia.
  now rewrite firstn_O, app_nil_r.
Qed.

Lemma readLoop_checking (last : list byte) (lerr : readErr)
    (chunks : list (list byte)) :
  forall fc total written n,
    (length fc < firstChunkCap)%nat ->
    lerr = EOF \/ (firstChunkCap <= length (fc ++ concat chunks ++ last))%nat ->
    contentRejected
      (snd (readLoop w (mkReadState true fc total written n) chunks last lerr))
    = badPrefix (firstn firstChunkCap (fc ++ concat chunks ++ last)).
Proof.
  induction chunks as [|buf chunks IH]; intros fc total written n Hfc Hreach.
  - cbn [readLoop concat app]. rewrite readIter_checking by assumption. cbv zeta.
    destruct ((length (firstn firstChunkCap (fc ++ last)) =? firstChunkCap)%nat
              || match lerr with EOF => true | ReadFailure => false end) eqn:E.
    + destruct (checkFirstChunk (firstn firstChunkCap (fc ++ last))) as [e|] eqn:C.
      * apply checkFirstChunk_Some in C as [C1 C2]. cbn [snd]. now rewrite C1.
      * apply checkFirstChunk_None in C. cbn [snd]. rewrite C. now destruct lerr.
    + apply orb_false_iff in E as [E1 E2]. apply Nat.eqb_neq in E1.
      destruct Hreach as [->|Hreach]; [discriminate|].
      rewrite length_firstn in E1. cbn [concat app] in Hreach. lia.
  - cbn [readLoop]. rewrite readIter_checking by assumption. cbv zeta.
    rewrite orb_false_r.
    assert (Hcat : fc ++ concat (buf :: chunks) ++ last
                   = (fc ++ buf) ++ concat chunks ++ last).
    { cbn [concat]. now rewrite <- !app_assoc. }
    destruct (length (firstn firstChunkCap (fc ++ buf)) =? firstChunkCap)%nat eqn:E.
    + apply Nat.eqb_eq in E. rewrite Hcat, (firstn_full_app _ _ _ E).
      destruct (checkFirstChunk (firstn firstChunkCap (fc ++ buf))) as [e|] eqn:C.
      * apply checkFirstChunk_Some in C as [C1 C2]. cbn [snd]. now rewrite C1.
      * apply checkFirstChunk_None in C. rewrite C.
        now apply readLoop_unchecked.
    + apply Nat.eqb_neq in E. rewrite length_firstn in E.
      rewrite (firstn_all2 (fc ++ buf)) by lia.
      rewrite Hcat. apply IH; [lia|]. now rewrite <- Hcat.
Qed.

End ReadLoop.

(** C2, as amended.  When the stream ends with [io.EOF] or holds at least
    4096 bytes, and the writes to the temporary file succeed, [read] returns
    one of its two content errors if and only if the leading prefix of up to
    4096 bytes holds a byte outside 0x20..0x7e, 0x80..0xff, line feed,
    carriage return and tab, or holds [<html] or [<!doctype] in any case. *)
Theorem read_rejects_bad_prefix :
  forall (w : nat -> bool) (r : reader),
    (forall k, w k = true) ->
    r_err r = EOF \/ (firstChunkCap <= length (streamBytes r))%nat ->
    contentRejected (snd (read w r))
    = negb (forallb allowedByte (leadingPrefix r))
      || containsFold (leadingPrefix r) (bytes "<html")
      || containsFold (leadingPrefix r) (bytes "<!doctype").
Proof.
  intros w r Hw Hreach. unfold read.
  pose proof (readLoop_checking w Hw (r_last r) (r_err r) (r_chunks r)
                [] 0 [] 0%nat) as H.
  cbn [app] in H. unfold readInit.
  destruct (readLoop w (mkReadState true [] 0 [] 0) (r_chunks r) (r_last r) (r_err r))
    as [st err].
  cbn [snd] in *. rewrite H; [reflexivity| |exact Hreach].
  unfold firstChunkCap. simpl. lia.
Qed.

(** The theorem on a stream read in two parts that ends with [io.EOF]. *)
Lemma read_rejects_bad_prefix_witness :
  contentRejected
    (snd (read (fun _ => true) (mkReader [bytes "! list"] (bytes "<HTML>") EOF)))
  = negb (forallb allowedByte
            (leadingPrefix (mkReader [bytes "! list"] (bytes "<HTML>") EOF)))
    || containsFold (leadingPrefix (mkReader [bytes "! list"] (bytes "<HTML>") EOF))
                    (bytes "<html")
    || containsFold (leadingPrefix (mkReader [bytes "! list"] (bytes "<HTML>") EOF))
                    (bytes "<!doctype").
Proof.
  apply (read_rejects_bad_prefix (fun _ => true)
           (mkReader [bytes "! list"] (bytes "<HTML>") EOF)).
  - reflexivity.
  - left. reflexivity.
Defined.

(** C2, as stated, fails: the two bytes of a UTF-8 letter are outside the
    set that the specification names, and [read] accepts the stream. *)
Lemma utf8_text_is_accepted :
  forallb specByte (leadingPrefix (mkReader [] [xc3; xa9; x0a] EOF)) = false
  /\ containsFold (leadingPrefix (mkReader [] [xc3; xa9; x0a] EOF)) (bytes "<html") = false
  /\ containsFold (leadingPrefix (mkReader [] [xc3; xa9; x0a] EOF)) (bytes "<!doctype") = false
  /\ snd (read (fun _ => true) (mkReader [] [xc3; xa9; x0a] EOF)) = None.
Proof. repeat split; vm_compute; reflexivity. Qed.

(** ** The file system *)

Lemma path_eqb_eq (p q : path) : path_eqb p q = true <-> p = q.
Proof.
  destruct p, q; simpl; split; intros H; try discriminate; try congruence.
  - apply Z.eqb_eq in H. now subst.
  - inversion H. apply Z.eqb_refl.
  - apply Z.eqb_eq in H. now subst.
  - inversion H. apply Z.eqb_refl.
  - apply Nat.eqb_eq in H. now subst.
  - inversion H. apply Nat.eqb_refl.
Qed.

Lemma fs_set_same (p : path) (o : option file) (fs : filesystem) :
  fs_set p o fs p = o.
Proof.
  unfold fs_set. now rewrite (proj2 (path_eqb_eq p p) eq_refl).
Qed.

Lemma fs_set_other (p q : path) (o : option file) (fs : filesystem) :
  q <> p -> fs_set p o fs q = fs q.
Proof.
  intros H. unfold fs_set. destruct (path_eqb q p) eqn:E; [|reflexivity].
  apply path_eqb_eq in E. contradiction.
Qed.

Lemma WithDeferred_nil (err : option error) : WithDeferred err None = err.
Proof. now destruct err. Qed.

Lemma os_CreateTemp_Some (e : env) (w : world) :
  e_createTemp e = true -> w_fs w (TempPath (e_tempName e)) = None ->
  os_CreateTemp e w
  = Some (TempPath (e_tempName e),
          logOp (OpCreateTemp (TempPath (e_tempName e))) w
            (fs_set (TempPath (e_tempName e)) (Some (mkFile [] (e_tempMtime e))) (w_fs w))).
Proof. intros H1 H2. unfold os_CreateTemp. now rewrite H1, H2. Qed.

(** What [fetchAndProcess] leaves of the world: only the temporary file
    may differ, and it is still there. *)
Lemma fetchAndProcess_world (e : env) (flt : filter) (tmp : path) (w : world) :
  let w' := snd (fetchAndProcess e flt tmp w) in
  w_ops w' = w_ops w
  /\ (forall q, q <> tmp -> w_fs w' q = w_fs w q)
  /\ (w_fs w tmp <> None -> w_fs w' tmp <> None).
Proof.
  assert (Hp : forall r,
             let w' := snd (processUpdate e r tmp w) in
             w_ops w' = w_ops w
             /\ (forall q, q <> tmp -> w_fs w' q = w_fs w q)
             /\ (w_fs w tmp <> None -> w_fs w' tmp <> None)).
  { intros r. unfold processUpdate.
    destruct (read (e_write e) r) as [[n written] err].
    assert (Hw : let w' := writeTemp e tmp written w in
                 w_ops w' = w_ops w
                 /\ (forall q, q <> tmp -> w_fs w' q = w_fs w q)
                 /\ (w_fs w tmp <> None -> w_fs w' tmp <> None)).
    { unfold writeTemp. cbn [w_fs w_ops]. split; [reflexivity|]. split.
      - intros q Hq. now apply fs_set_other.
      - intros _. now rewrite fs_set_same. }
    destruct err; [exact Hw|].
    destruct (negb (e_seek e)); [exact Hw|].
    destruct (parseFilterContents written) as [[rnum cs] name]. exact Hw. }
  assert (Hid : w_ops w = w_ops w
                /\ (forall q, q <> tmp -> w_fs w q = w_fs w q)
                /\ (w_fs w tmp <> None -> w_fs w tmp <> None)) by now repeat split.
  unfold fetchAndProcess.
  destruct (negb (e_chmod e)); [exact Hid|].
  destruct (IsAbs (URL flt)).
  - destruct (e_open e) as [r|]; [|exact Hid].
    specialize (Hp r). destruct (processUpdate e r tmp w). exact Hp.
  - destruct (e_get e) as [[status body]|]; [|exact Hid].
    destruct (negb (status =? StatusOK)); [exact Hid|].
    specialize (Hp body). destruct (processUpdate e body tmp w). exact Hp.
Qed.

(** An attempt that [fetchAndProcess] ends with [ok = false]. *)
Lemma update_not_updated (e : env) (flt : filter) (w : world) (p : processed) :
  tempFileOK e w ->
  fst (fetchAndProcess e flt (TempPath (e_tempName e))
         (logOp (OpCreateTemp (TempPath (e_tempName e))) w
            (fs_set (TempPath (e_tempName e)) (Some (mkFile [] (e_tempMtime e))) (w_fs w))))
  = (p, false) ->
  let '(flt', w', b, err) := update e flt w in
  flt' = setLastUpdated (e_now e) flt
  /\ b = false
  /\ err = p_err p
  /\ w_fs w' (TempPath (e_tempName e)) = None
  /\ (forall q, q <> Path flt -> w_fs w' q = w_fs w q)
  /\ option_map f_data (w_fs w' (Path flt)) = option_map f_data (w_fs w (Path flt))
  /\ (e_chtimes e = true ->
      option_map f_mtime (w_fs w' (Path flt))
      = option_map (fun _ => e_now e) (w_fs w (Path flt)))
  /\ existsb isRename (newOps w w') = false.
Proof.
  intros (Hc & Hfresh & Hclose & Hremove) Hfp.
  set (tmp := TempPath (e_tempName e)) in *.
  set (w1 := logOp (OpCreateTemp tmp) w
               (fs_set tmp (Some (mkFile [] (e_tempMtime e))) (w_fs w))) in *.
  destruct (fetchAndProcess_world e flt tmp w1) as (Hops & Hfs & Htmp).
  assert (Hex : w_fs (snd (fetchAndProcess e flt tmp w1)) tmp <> None).
  { apply Htmp. unfold w1. cbn [w_fs logOp]. rewrite fs_set_same. discriminate. }
  unfold update, updateIntl. rewrite os_CreateTemp_Some by assumption.
  fold tmp. fold w1.
  destruct (fetchAndProcess e flt tmp w1) as [[p' ok] w2].
  cbn [fst snd] in *. inversion Hfp; subst p' ok. clear Hfp.
  unfold finalizeUpdate, os_Remove. rewrite Hclose, Hremove. cbn [negb].
  destruct (w_fs w2 tmp) as [tf|] eqn:Etmp; [|contradiction].
  rewrite WithDeferred_nil. cbn [andb].
  assert (Hneq : Path flt <> tmp) by discriminate.
  assert (Htarget : w_fs w2 (Path flt) = w_fs w (Path flt)).
  { rewrite Hfs by exact Hneq. unfold w1. cbn [w_fs logOp].
    now apply fs_set_other. }
  assert (Hw1 : w_ops w1 = w_ops w ++ [OpCreateTemp tmp]) by reflexivity.
  assert (Hgone : forall q, q <> Path flt -> fs_set tmp None (w_fs w2) q = w_fs w q).
  { intros q Hq. destruct (path_eqb q tmp) eqn:Eq.
    - apply path_eqb_eq in Eq. subst q. now rewrite fs_set_same.
    - assert (q <> tmp) by (intros ->; now rewrite (proj2 (path_eqb_eq tmp tmp)) in Eq).
      rewrite fs_set_other by assumption. rewrite Hfs by assumption.
      unfold w1. cbn [w_fs logOp]. now apply fs_set_other. }
  assert (Hkept : fs_set tmp None (w_fs w2) (Path flt) = w_fs w (Path flt)).
  { now rewrite fs_set_other. }
  unfold os_Chtimes, logOp, newOps. cbn [w_fs w_ops].
  change (Path (setLastUpdated (e_now e) flt)) with (Path flt).
  rewrite Hops, Hkept, Hw1.
  split; [reflexivity|]. split; [reflexivity|]. split; [reflexivity|].
  destruct (e_chtimes e) eqn:Ech; [destruct (w_fs w (Path flt)) as [tf'|] eqn:Et|];
    cbn [fst w_fs w_ops];
    rewrite <- ?app_assoc, skipn_app, skipn_all, Nat.sub_diag;
    rewrite ?fs_set_same, ?(fs_set_other (Path flt) tmp) by congruence;
    rewrite ?fs_set_same, ?Hkept, ?Et.
  - repeat split; try reflexivity.
    intros q Hq. rewrite fs_set_other by exact Hq. now apply Hgone.
  - repeat split; try reflexivity. exact Hgone.
  - repeat split; try reflexivity; try discriminate. exact Hgone.
Qed.

(** ** Attempts that do not commit *)

Lemma fetchAndProcess_no_source (e : env) (flt : filter) (tmp : path) (w : world) :
  fetched e flt = None ->
  exists p, fst (fetchAndProcess e flt tmp w) = (p, false) /\ p_err p <> None.
Proof.
  unfold fetched, fetchAndProcess. intros H.
  destruct (negb (e_chmod e)); [eexists; split; [reflexivity|discriminate]|].
  destruct (IsAbs (URL flt)).
  - rewrite H. eexists; split; [reflexivity|discriminate].
  - destruct (e_get e) as [[status body]|];
      [|eexists; split; [reflexivity|discriminate]].
    destruct (status =? StatusOK); [discriminate|].
    eexists; split; [reflexivity|discriminate].
Qed.

Lemma fetchAndProcess_source (e : env) (flt : filter) (tmp : path) (w : world)
    (r : reader) :
  e_chmod e = true -> fetched e flt = Some r ->
  fetchAndProcess e flt tmp w
  = let '(p, w') := processUpdate e r tmp w in
    (mkProcessed (p_name p) (p_rnum p) (p_cs p) (p_n p)
       (WithDeferred (p_err p) (if e_sourceClose e then None else Some ErrSourceClose)),
     negb (p_cs p =? checksum flt), w').
Proof.
  unfold fetched, fetchAndProcess. intros Hc H. rewrite Hc. cbn [negb].
  destruct (IsAbs (URL flt)).
  - now rewrite H.
  - destruct (e_get e) as [[status body]|]; [|discriminate].
    destruct (status =? StatusOK); [|discriminate].
    inversion H. reflexivity.
Qed.

Lemma fetchAndProcess_read_fails (e : env) (flt : filter) (tmp : path) (w : world)
    (r : reader) :
  fetched e flt = Some r -> snd (read (e_write e) r) <> None -> checksum flt = 0 ->
  exists p, fst (fetchAndProcess e flt tmp w) = (p, false) /\ p_err p <> None.
Proof.
  intros Hf Hr Hc.
  destruct (e_chmod e) eqn:Ech.
  - rewrite (fetchAndProcess_source e flt tmp w r Ech Hf).
    unfold processUpdate.
    destruct (read (e_write e) r) as [[n written] [er|]]; [|now contradiction Hr].
    cbn [processFailed p_name p_rnum p_cs p_n p_err WithDeferred fst].
    rewrite Hc. eexists; split; [reflexivity|discriminate].
  - unfold fetchAndProcess. rewrite Ech. eexists; split; [reflexivity|discriminate].
Qed.

Lemma fetchAndProcess_same (e : env) (flt : filter) (tmp : path) (w : world)
    (r : reader) (n : Z) (content : list byte) :
  e_chmod e = true -> e_sourceClose e = true -> e_seek e = true ->
  fetched e flt = Some r -> read (e_write e) r = (n, content, None) ->
  crc32.ChecksumIEEE content = checksum flt ->
  exists p, fst (fetchAndProcess e flt tmp w) = (p, false) /\ p_err p = None.
Proof.
  intros Hch Hsc Hseek Hf Hr Hc.
  rewrite (fetchAndProcess_source e flt tmp w r Hch Hf).
  unfold processUpdate. rewrite Hr, Hseek, Hsc. cbn [negb].
  pose proof (parse_checksum content) as Hp.
  destruct (parseFilterContents content) as [[rnum cs] name].
  cbn [fst snd p_name p_rnum p_cs p_n p_err WithDeferred] in *.
  rewrite Hp, Hc, Z.eqb_refl. eexists; split; reflexivity.
Qed.

Lemma mergeOne_not_updated (uf : filter) (filters : list filter) :
  forall n,
    mergeOne uf false filters n
    = (map (fun f => if sameEntry uf f then setLastUpdated (LastUpdated uf) f else f)
           filters, n).
Proof.
  induction filters as [|f rest IH]; intros n; simpl; [reflexivity|].
  unfold sameEntry. rewrite IH.
  destruct (ID f =? ID uf), (String.eqb (URL f) (URL uf)); reflexivity.
Qed.

Lemma refreshFiltersArray_all_failed (envs : nat -> env) (now hours : Z)
    (filters : list filter) (force : bool) (w : world) :
  ar_netErr (refreshFiltersArray envs now hours filters force w) = true ->
  ar_filters (refreshFiltersArray envs now hours filters force w) = filters.
Proof.
  unfold refreshFiltersArray.
  destruct (candidates force hours now filters) as [|uf ufs]; [discriminate|].
  destruct (updateEach envs 0 (uf :: ufs) w) as [[[ufs' flags] nfail] w'].
  destruct (nfail =? length ufs')%nat; [reflexivity|].
  destruct (mergeAll (combine ufs' flags) filters 0). discriminate.
Qed.

(** C1, as amended.  When the temporary file can be created, closed and
    removed, an attempt whose fetch fails, or whose read or content check
    fails while the stored checksum is zero, returns an error and no update,
    sets [LastUpdated] of the copy to the current time and leaves its
    [RulesCount], [Checksum] and [Name] as they were; it leaves no temporary
    file and changes no other file, renames nothing, and keeps the content
    of the file of the filter; the merge of such a copy sets [LastUpdated]
    of the matching entries and nothing else; and an array whose attempts
    all failed is not merged at all. *)
Theorem failed_attempt_keeps_cache_and_file :
  forall (e : env) (flt : filter) (w : world),
    tempFileOK e w ->
    fetched e flt = None
    \/ (checksum flt = 0
        /\ exists r, fetched e flt = Some r /\ snd (read (e_write e) r) <> None) ->
    let '(flt', w', b, err) := update e flt w in
    b = false /\ err <> None
    /\ flt' = setLastUpdated (e_now e) flt
    /\ (forall q, q <> Path flt -> w_fs w' q = w_fs w q)
    /\ option_map f_data (w_fs w' (Path flt)) = option_map f_data (w_fs w (Path flt))
    /\ existsb isRename (newOps w w') = false
    /\ (forall filters n,
          mergeOne flt' false filters n
          = (map (fun f => if sameEntry flt f then setLastUpdated (e_now e) f else f)
                 filters, n))
    /\ (forall envs now hours filters force w0,
          ar_netErr (refreshFiltersArray envs now hours filters force w0) = true ->
          ar_filters (refreshFiltersArray envs now hours filters force w0) = filters).
Proof.
  intros e flt w Hok Hfail.
  assert (Hp : exists p,
             fst (fetchAndProcess e flt (TempPath (e_tempName e))
                    (logOp (OpCreateTemp (TempPath (e_tempName e))) w
                       (fs_set (TempPath (e_tempName e))
                          (Some (mkFile [] (e_tempMtime e))) (w_fs w))))
             = (p, false) /\ p_err p <> None).
  { destruct Hfail as [Hf|(Hc & r & Hf & Hr)].
    - now apply fetchAndProcess_no_source.
    - now apply (fetchAndProcess_read_fails e flt _ _ r). }
  destruct Hp as (p & Hp & Herr).
  pose proof (update_not_updated e flt w p Hok Hp) as H.
  destruct (update e flt w) as [[[flt' w'] b] err].
  destruct H as (H1 & H2 & H3 & H4 & H5 & H6 & H7 & H8).
  subst flt' b err.
  repeat split; try assumption.
  - intros filters n. now rewrite mergeOne_not_updated.
  - intros envs now hours filters force w0. apply refreshFiltersArray_all_failed.
Qed.

(** The theorem on a fetch that fails with a transport error. *)
Lemma failed_attempt_keeps_cache_and_file_witness :
  let '(flt', w', b, err) :=
    update (envWith 1000 None) (snapshot sampleFilter) worldWithFile in
  b = false /\ err <> None
  /\ flt' = setLastUpdated 1000 (snapshot sampleFilter)
  /\ (forall q, q <> Path (snapshot sampleFilter) -> w_fs w' q = w_fs worldWithFile q)
  /\ option_map f_data (w_fs w' (Path (snapshot sampleFilter)))
     = option_map f_data (w_fs worldWithFile (Path (snapshot sampleFilter)))
  /\ existsb isRename (newOps worldWithFile w') = false
  /\ (forall filters n,
        mergeOne flt' false filters n
        = (map (fun f => if sameEntry (snapshot sampleFilter) f
                         then setLastUpdated 1000 f else f) filters, n))
  /\ (forall envs now hours filters force w0,
        ar_netErr (refreshFiltersArray envs now hours filters force w0) = true ->
        ar_filters (refreshFiltersArray envs now hours filters force w0) = filters).
Proof.
  apply (failed_attempt_keeps_cache_and_file
           (envWith 1000 None) (snapshot sampleFilter) worldWithFile).
  - repeat split; reflexivity.
  - left. reflexivity.
Defined.

(** C1, as stated, fails: after a fetch that fails, the checksum of the
    copy is still 77, and when another filter of the batch succeeds the
    entry of the registry keeps its two rules and its checksum; only
    [LastUpdated] has moved. *)
Lemma failed_fetch_keeps_checksum :
  snd (update (envWith 1000000 None) (snapshot sampleFilter) worldWithFile)
  = Some ErrTransport
  /\ checksum (fst (fst (fst
       (update (envWith 1000000 None) (snapshot sampleFilter) worldWithFile)))) = 77
  /\ map (fun f => (RulesCount f, checksum f, LastUpdated f))
         (ar_filters
            (refreshFiltersArray
               (fun i => match i with
                         | O => envWith 1000000 None
                         | _ => envWith 1000000 (okResponse sampleBody)
                         end)
               1000000 24 [sampleFilter; otherFilter] false worldWithFile))
     = [(2, 77, 1000000); (1, crc32.ChecksumIEEE sampleBody, 1000000)].
Proof. repeat split; vm_compute; reflexivity. Qed.

(** The return of [updateIntl] computes [cs != flt.checksum] also when
    [processUpdate] failed, where [cs] is zero: with a stored checksum that
    is not zero the rejected download is renamed over the file of the
    filter. *)
Example rejected_content_replaces_the_file :
  let '(flt', w', b, err) :=
    update (envWith 1000 (Some (200, mkReader [bytes "||ads"] (bytes "<html>") EOF)))
           (snapshot sampleFilter) worldWithFile in
  b = false /\ err = Some ErrHTML
  /\ checksum flt' = 0
  /\ option_map f_data (w_fs w' (FilterPath 1)) = Some (bytes "||ads")
  /\ existsb isRename (newOps worldWithFile w') = true.
Proof. vm_compute. repeat split; reflexivity. Qed.

(** C6.  When the local calls succeed and the checksum of the content read
    from the source equals the stored checksum, the attempt returns no
    update and no error, sets [LastUpdated] of the copy to the current time
    and leaves its other fields as they were; nothing is renamed, the
    temporary file is gone and no other file has changed, the file of the
    filter keeps its content and gets the current time as modification
    time; and the merge sets [LastUpdated] of the matching entries and
    nothing else. *)
Theorem unchanged_content_is_not_committed :
  forall (e : env) (flt : filter) (w : world) (r : reader) (n : Z)
         (content : list byte),
    tempFileOK e w ->
    e_chmod e = true -> e_sourceClose e = true -> e_seek e = true ->
    e_chtimes e = true ->
    fetched e flt = Some r ->
    read (e_write e) r = (n, content, None) ->
    crc32.ChecksumIEEE content = checksum flt ->
    let '(flt', w', b, err) := update e flt w in
    b = false /\ err = None
    /\ flt' = setLastUpdated (e_now e) flt
    /\ existsb isRename (newOps w w') = false
    /\ w_fs w' (TempPath (e_tempName e)) = None
    /\ (forall q, q <> Path flt -> w_fs w' q = w_fs w q)
    /\ w_fs w' (Path flt)
       = option_map (fun f => mkFile (f_data f) (e_now e)) (w_fs w (Path flt))
    /\ (forall filters k,
          mergeOne flt' false filters k
          = (map (fun f => if sameEntry flt f then setLastUpdated (e_now e) f else f)
                 filters, k)).
Proof.
  intros e flt w r n content Hok Hch Hsc Hseek Hct Hf Hr Hc.
  destruct (fetchAndProcess_same e flt (TempPath (e_tempName e))
              (logOp (OpCreateTemp (TempPath (e_tempName e))) w
                 (fs_set (TempPath (e_tempName e))
                    (Some (mkFile [] (e_tempMtime e))) (w_fs w)))
              r n content Hch Hsc Hseek Hf Hr Hc) as (p & Hp & Herr).
  pose proof (update_not_updated e flt w p Hok Hp) as H.
  destruct (update e flt w) as [[[flt' w'] b] err].
  destruct H as (H1 & H2 & H3 & H4 & H5 & H6 & H7 & H8).
  subst flt' b err. specialize (H7 Hct).
  repeat split; try assumption.
  - destruct (w_fs w' (Path flt)) as [[d m]|], (w_fs w (Path flt)) as [[d0 m0]|];
      simpl in *; try discriminate; congruence.
  - intros filters k. now rewrite mergeOne_not_updated.
Qed.

(** The theorem on a filter whose stored checksum is that of the body
    served. *)
Lemma unchanged_content_is_not_committed_witness :
  let flt := setChecksum (crc32.ChecksumIEEE sampleBody) (snapshot sampleFilter) in
  let '(flt', w', b, err) :=
    update (envWith 1000 (okResponse sampleBody)) flt worldWithFile in
  b = false /\ err = None
  /\ flt' = setLastUpdated 1000 flt
  /\ existsb isRename (newOps worldWithFile w') = false
  /\ w_fs w' (TempPath 0) = None
  /\ (forall q, q <> Path flt -> w_fs w' q = w_fs worldWithFile q)
  /\ w_fs w' (Path flt)
     = option_map (fun f => mkFile (f_data f) 1000) (w_fs worldWithFile (Path flt))
  /\ (forall filters k,
        mergeOne flt' false filters k
        = (map (fun f => if sameEntry flt f then setLastUpdated 1000 f else f)
               filters, k)).
Proof.
  apply (unchanged_content_is_not_committed
           (envWith 1000 (okResponse sampleBody))
           (setChecksum (crc32.ChecksumIEEE sampleBody) (snapshot sampleFilter))
           worldWithFile (mkReader [] sampleBody EOF)
           (Z.of_nat (length sampleBody)) sampleBody).
  - repeat split; reflexivity.
  - reflexivity.
  - reflexivity.
  - reflexivity.
  - reflexivity.
  - reflexivity.
  - vm_compute. reflexivity.
  - reflexivity.
Defined.

(** ** Property updates *)

Lemma indexOfURL_Some (url : string) (filters : list filter) :
  forall i, indexOfURL url filters = Some i ->
    (i < length filters)%nat /\ URL (nth i filters zeroFilter) = url.
Proof.
  induction filters as [|f rest IH]; intros i H; simpl in H; [discriminate|].
  unfold hasURL in H. destruct (String.eqb (URL f) url) eqn:E.
  - inversion H. subst i. apply String.eqb_eq in E. simpl. split; [lia|exact E].
  - destruct (indexOfURL url rest) as [j|]; [|discriminate].
    inversion H. subst i. destruct (IH j eq_refl) as [H1 H2].
    simpl. split; [lia|exact H2].
Qed.

Lemma nth_split_at {A : Type} (i : nat) (l : list A) (d : A) :
  (i < length l)%nat -> l = firstn i l ++ nth i l d :: skipn (S i) l.
Proof.
  revert l. induction i as [|i IH]; intros [|x l] H; simpl in *; try lia.
  - reflexivity.
  - f_equal. apply IH. lia.
Qed.

Lemma existsb_setNth (u : string) (i : nat) (x : filter) (l : list filter) :
  (i < length l)%nat -> URL x = URL (nth i l zeroFilter) ->
  existsb (hasURL u) (setNth i x l) = existsb (hasURL u) l.
Proof.
  intros Hi Hx. rewrite (nth_split_at i l zeroFilter Hi) at 2.
  unfold setNth. rewrite !existsb_app. simpl. unfold hasURL at 2 4.
  now rewrite Hx.
Qed.

(** Every call that finds the filter and asks for another URL that is
    already taken returns [statusURLExists] alone, and has set the name. *)
Lemma filterSetProperties_collision (le : loadEnv) (fs : filesystem)
    (url : string) (newf : filter) (whitelist : bool) (cfg : config) (i : nat) :
  indexOfURL url (if whitelist then WhitelistFilters cfg else Filters cfg) = Some i ->
  URL newf <> url ->
  filterExistsNoLock cfg (URL newf) = true ->
  filterSetProperties le fs url newf whitelist cfg
  = (statusURLExists,
     let filters := if whitelist then WhitelistFilters cfg else Filters cfg in
     let filters' := setNth i (setName (Name newf) (nth i filters zeroFilter)) filters in
     if whitelist
     then mkConfig (Filters cfg) filters' (FiltersUpdateIntervalHours cfg)
     else mkConfig filters' (WhitelistFilters cfg) (FiltersUpdateIntervalHours cfg)).
Proof.
  intros Hi Hurl Hex. unfold filterSetProperties. rewrite Hi. cbv zeta.
  destruct (indexOfURL_Some _ _ _ Hi) as [Hlt Hu].
  assert (Hc : String.eqb
                 (URL (setName (Name newf)
                         (nth i (if whitelist then WhitelistFilters cfg else Filters cfg)
                              zeroFilter)))
                 (URL newf) = false).
  { apply String.eqb_neq. cbn [URL setName]. rewrite Hu. congruence. }
  rewrite Hc. cbn [negb andb].
  assert (He : filterExistsNoLock
                 (if whitelist
                  then mkConfig (Filters cfg)
                         (setNth i (setName (Name newf) (nth i (WhitelistFilters cfg) zeroFilter))
                            (WhitelistFilters cfg))
                         (FiltersUpdateIntervalHours cfg)
                  else mkConfig
                         (setNth i (setName (Name newf) (nth i (Filters cfg) zeroFilter))
                            (Filters cfg))
                         (WhitelistFilters cfg) (FiltersUpdateIntervalHours cfg))
                 (URL newf) = true).
  { rewrite <- Hex. unfold filterExistsNoLock.
    destruct whitelist; cbn [Filters WhitelistFilters];
      rewrite existsb_setNth by (try exact Hlt; reflexivity); reflexivity. }
  destruct whitelist; rewrite He; reflexivity.
Qed.

(** C3 fails on the code: [filt.Name = newf.Name] comes before the test
    for the new URL.  The call below asks to move filter 1 to the URL of
    filter 2; it returns [statusURLExists] and nothing else, the URL, the
    cache and every other entry are as before, but the name of filter 1 is
    now the new one. *)
Theorem rejected_url_change_renames_filter :
  let cfg := mkConfig [sampleFilter; otherFilter] [] 24 in
  let newf := mkFilter true otherURL "Renamed" 0 0 0 false 0 in
  filterSetProperties (mkLoadEnv true true true) emptyFS listURL newf false cfg
  = (statusURLExists,
     mkConfig [setName "Renamed" sampleFilter; otherFilter] [] 24)
  /\ setName "Renamed" sampleFilter <> sampleFilter.
Proof. split; [vm_compute; reflexivity|discriminate]. Qed.

(** ** Batches *)

(** C4 fails on the code: [refreshFiltersIfNecessary] reports a network
    error only when both arrays report one.  Below the block list has one
    filter that is due and whose fetch fails, and the allow list is empty:
    the array reports that every attempt failed, the batch does not, and the
    scheduler sets its interval to the maximum instead of doubling it. *)
Theorem failed_batch_without_allowlist_is_no_network_error :
  let cfg := mkConfig [sampleFilter] [] 24 in
  let envs := fun _ : nat => envWith 1000000 None in
  let flags := Z.lor filterRefreshBlocklists filterRefreshAllowlists in
  length (candidates false 24 1000000 (Filters cfg)) = 1%nat
  /\ snd (update (envs 0%nat) (snapshot sampleFilter) emptyWorld) = Some ErrTransport
  /\ ar_netErr (refreshFiltersArray envs 1000000 24 (Filters cfg) false emptyWorld) = true
  /\ snd (fst (fst (refreshFiltersIfNecessary envs envs 1000000 flags cfg emptyWorld)))
     = false
  /\ s_intval (periodicIteration envs envs 1000000 true (mkScheduler 5 cfg emptyWorld))
     = 3600.
Proof. repeat split; vm_compute; reflexivity. Qed.

(* ================================================================== *)
(** * Further properties of the code *)

(** ** [filterExistsNoLock] and [filterAdd] *)

Lemma existsb_hasURL (url : string) (l : list filter) :
  existsb (hasURL url) l = true <-> In url (map URL l).
Proof.
  rewrite existsb_exists, in_map_iff. unfold hasURL.
  split; intros (f & H1 & H2).
  - exists f. split; [now apply String.eqb_eq|exact H1].
  - exists f. split; [exact H2|now apply String.eqb_eq].
Qed.

Lemma filterExistsNoLock_In (cfg : config) (url : string) :
  filterExistsNoLock cfg url = true <-> In url (allURLs cfg).
Proof.
  unfold filterExistsNoLock, allURLs.
  rewrite orb_true_iff, in_app_iff, !existsb_hasURL. reflexivity.
Qed.

Lemma filterExistsNoLock_not_In (cfg : config) (url : string) :
  filterExistsNoLock cfg url = false <-> ~ In url (allURLs cfg).
Proof.
  rewrite <- filterExistsNoLock_In. now destruct (filterExistsNoLock cfg url).
Qed.





(** ** [deduplicateFilters] *)

Lemma length_setNth {A : Type} (i : nat) (x : A) (l : list A) :
  (i < length l)%nat -> length (setNth i x l) = length l.
Proof.
  intros H. unfold setNth.
  rewrite length_app, length_firstn. cbn [length]. rewrite length_skipn. lia.
Qed.

Lemma firstn_S_setNth {A : Type} (i : nat) (x : A) (l : list A) :
  (i < length l)%nat -> firstn (S i) (setNth i x l) = firstn i l ++ [x].
Proof.
  intros H. unfold setNth.
  rewrite firstn_app, length_firstn, Nat.min_l by lia.
  rewrite firstn_firstn, Nat.min_r by lia.
  replace (S i - i)%nat with 1%nat by lia. reflexivity.
Qed.

Lemma skipn_S_setNth {A : Type} (i j : nat) (x : A) (l : list A) :
  (i <= j)%nat -> (i < length l)%nat ->
  skipn (S j) (setNth i x l) = skipn (S j) l.
Proof.
  intros Hij Hi. unfold setNth.
  rewrite skipn_app, length_firstn, Nat.min_l by lia.
  rewrite skipn_all2 by (rewrite length_firstn; lia).
  replace (S j - i)%nat with (S (j - i)) by lia.
  cbn [app].
  change (skipn (S (j - i)) (x :: skipn (S i) l)) with (skipn (j - i) (skipn (S i) l)).
  rewrite skipn_skipn. f_equal. lia.
Qed.

Lemma skipn_nth {A : Type} (d : A) (l : list A) :
  forall j, (j < length l)%nat -> skipn j l = nth j l d :: skipn (S j) l.
Proof.
  induction l as [|x l IH]; intros j H; [simpl in H; lia|].
  destruct j as [|j]; [reflexivity|].
  simpl in H. cbn [skipn nth]. apply IH. lia.
Qed.

(** The loop from index [j] on: the part of the array below the output
    index grows by the filters kept from the part not yet read. *)
Lemma deduplicate_loop (k : nat) :
  forall arr i urls j,
    (i <= j)%nat -> (j + k = length arr)%nat ->
    let '(arr', i', _) := fold_left deduplicateBody (seq j k) (arr, i, urls) in
    firstn i' arr' = firstn i arr ++ deduplicateFrom urls (skipn j arr).
Proof.
  induction k as [|k IH]; intros arr i urls j Hij Hlen.
  - cbn [seq fold_left]. rewrite skipn_all2 by lia. cbn. now rewrite app_nil_r.
  - cbn [seq fold_left]. unfold deduplicateBody at 2.
    rewrite (skipn_nth zeroFilter arr j) by lia. cbn [deduplicateFrom].
    destruct (existsb (String.eqb (URL (nth j arr zeroFilter))) urls).
    + apply IH; lia.
    + specialize (IH (setNth i (nth j arr zeroFilter) arr) (S i)
                    (URL (nth j arr zeroFilter) :: urls) (S j)).
      rewrite length_setNth in IH by lia.
      specialize (IH ltac:(lia) ltac:(lia)).
      destruct (fold_left deduplicateBody (seq (S j) k) _) as [[arr' i'] urls'].
      rewrite IH, firstn_S_setNth, skipn_S_setNth by lia.
      now rewrite <- app_assoc.
Qed.

(** X3.  The loop of [deduplicateFilters], which moves the filters to keep
    to the front of the array it is reading and then cuts the array, gives
    the list of the filters whose URL did not occur earlier. *)
Theorem deduplicateInPlace_keeps_first :
  forall filters : list filter,
    deduplicateInPlace filters = deduplicateFrom [] filters.
Proof.
  intros filters. unfold deduplicateInPlace.
  pose proof (deduplicate_loop (length filters) filters 0 [] 0
                (le_n 0) eq_refl) as H.
  destruct (fold_left deduplicateBody (seq 0 (length filters)) (filters, 0%nat, []))
    as [[arr i] urls].
  exact H.
Qed.

Lemma deduplicateFrom_In (l : list filter) :
  forall urls f, In f (deduplicateFrom urls l) -> In f l /\ ~ In (URL f) urls.
Proof.
  induction l as [|g l IH]; intros urls f H; simpl in H; [contradiction|].
  destruct (existsb (String.eqb (URL g)) urls) eqn:E.
  - destruct (IH _ _ H) as [H1 H2]. split; [now right|exact H2].
  - destruct H as [->|H].
    + split; [now left|]. intros Hin.
      assert (existsb (String.eqb (URL f)) urls = true).
      { apply existsb_exists. exists (URL f). split; [exact Hin|apply String.eqb_refl]. }
      congruence.
    + destruct (IH _ _ H) as [H1 H2]. split; [now right|].
      intros Hin. apply H2. now right.
Qed.

Lemma deduplicateFrom_NoDup (l : list filter) :
  forall urls, NoDup (map URL (deduplicateFrom urls l)).
Proof.
  induction l as [|g l IH]; intros urls; simpl; [constructor|].
  destruct (existsb (String.eqb (URL g)) urls); [apply IH|].
  cbn [map]. constructor; [|apply IH].
  intros Hin. apply in_map_iff in Hin as (f & Hu & Hf).
  apply deduplicateFrom_In in Hf as [_ Hf]. apply Hf. rewrite Hu. now left.
Qed.

Lemma deduplicateFrom_subseq (l : list filter) :
  forall urls, subseq (deduplicateFrom urls l) l.
Proof.
  induction l as [|g l IH]; intros urls; simpl; [constructor|].
  destruct (existsb (String.eqb (URL g)) urls); constructor; apply IH.
Qed.

Lemma deduplicateFrom_find (u : string) (l : list filter) :
  forall urls,
    find (hasURL u) (deduplicateFrom urls l)
    = if existsb (String.eqb u) urls then None else find (hasURL u) l.
Proof.
  induction l as [|g l IH]; intros urls.
  - simpl. now destruct (existsb (String.eqb u) urls).
  - cbn [deduplicateFrom find].
    change (hasURL u g) with (String.eqb (URL g) u).
    destruct (existsb (String.eqb (URL g)) urls) eqn:E.
    + rewrite IH. destruct (existsb (String.eqb u) urls) eqn:Eu; [reflexivity|].
      destruct (String.eqb (URL g) u) eqn:Eg; [|reflexivity].
      apply String.eqb_eq in Eg. subst u. congruence.
    + cbn [find]. change (hasURL u g) with (String.eqb (URL g) u).
      destruct (String.eqb (URL g) u) eqn:Eg.
      * apply String.eqb_eq in Eg. subst u. now rewrite E.
      * rewrite IH. cbn [existsb]. now rewrite (String.eqb_sym u (URL g)), Eg.
Qed.

Lemma deduplicateFrom_unique (l : list filter) :
  forall urls,
    (forall f, In f l -> ~ In (URL f) urls) -> NoDup (map URL l) ->
    deduplicateFrom urls l = l.
Proof.
  induction l as [|g l IH]; intros urls Hnew Hnd; simpl; [reflexivity|].
  inversion Hnd as [|? ? Hg Hl]; subst.
  destruct (existsb (String.eqb (URL g)) urls) eqn:E.
  - apply existsb_exists in E as (u & Hu & Eu). apply String.eqb_eq in Eu. subst u.
    exfalso. apply (Hnew g); [now left|exact Hu].
  - f_equal. apply IH; [|exact Hl].
    intros f Hf [Hin|Hin].
    + apply Hg. rewrite Hin. now apply in_map.
    + apply (Hnew f); [now right|exact Hin].
Qed.

(** X4.  After [deduplicateFilters] no URL occurs twice in the block list;
    the filters kept are filters of the old list in their old order; looking
    a URL up gives the same filter as before, the first with that URL; the
    allow list is as it was; a second call changes nothing, and neither does
    a call on a block list without repeated URLs. *)
Theorem deduplicateFilters_keeps_first_of_each_url :
  forall cfg : config,
    NoDup (map URL (Filters (deduplicateFilters cfg)))
    /\ subseq (Filters (deduplicateFilters cfg)) (Filters cfg)
    /\ (forall url,
          find (hasURL url) (Filters (deduplicateFilters cfg))
          = find (hasURL url) (Filters cfg))
    /\ WhitelistFilters (deduplicateFilters cfg) = WhitelistFilters cfg
    /\ deduplicateFilters (deduplicateFilters cfg) = deduplicateFilters cfg
    /\ (NoDup (map URL (Filters cfg)) -> Filters (deduplicateFilters cfg) = Filters cfg).
Proof.
  intros cfg. unfold deduplicateFilters. cbn [Filters WhitelistFilters FiltersUpdateIntervalHours].
  split; [apply deduplicateFrom_NoDup|].
  split; [apply deduplicateFrom_subseq|].
  split; [intros url; now rewrite deduplicateFrom_find|].
  split; [reflexivity|].
  split.
  - f_equal. apply deduplicateFrom_unique; [intros f _ []|apply deduplicateFrom_NoDup].
  - intros H. apply deduplicateFrom_unique; [intros f _ []|exact H].
Qed.

(** ** [load] and [filterSetProperties] *)

(** [load] writes the three cache fields and nothing else, and nothing at
    all when there is no file, which is no error. *)
Lemma load_frame (le : loadEnv) (fs : filesystem) (flt f' : filter)
    (err : option error) :
  load le fs flt = (f', err) ->
  ID f' = ID flt /\ URL f' = URL flt /\ Name f' = Name flt
  /\ Enabled f' = Enabled flt /\ white f' = white flt
  /\ (fs (Path flt) = None -> f' = flt /\ err = None).
Proof.
  unfold load. intros H.
  destruct (fs (Path flt)) as [file|]; [|inversion H; subst; now repeat split].
  destruct (negb (l_open le)); [inversion H; subst; repeat split; discriminate|].
  destruct (negb (l_stat le)); [inversion H; subst; repeat split; discriminate|].
  destruct (parseFilterContents (f_data file)) as [[rulesCount cs] name].
  inversion H; subst. repeat split; discriminate.
Qed.

Lemma map_setNth {A B : Type} (g : A -> B) (i : nat) (x d : A) (l : list A) :
  (i < length l)%nat -> g x = g (nth i l d) ->
  map g (setNth i x l) = map g l.
Proof.
  intros Hi Hx. rewrite (nth_split_at i l d Hi) at 2.
  unfold setNth. rewrite !map_app. cbn [map]. now rewrite Hx.
Qed.

Lemma nth_setNth_other {A : Type} (i k : nat) (x d : A) (l : list A) :
  (i < length l)%nat -> k <> i -> nth k (setNth i x l) d = nth k l d.
Proof.
  intros Hi Hk. rewrite (nth_split_at i l d Hi) at 2. unfold setNth.
  destruct (Nat.lt_ge_cases k i) as [Hlt|Hge].
  - rewrite !app_nth1 by (rewrite length_firstn; lia). reflexivity.
  - rewrite !app_nth2 by (rewrite length_firstn; lia).
    rewrite length_firstn, Nat.min_l by lia.
    destruct (k - i)%nat as [|m] eqn:E; [lia|reflexivity].
Qed.

Lemma filterExistsNoLock_withDesignated (whitelist : bool) (cfg : config)
    (i : nat) (x : filter) (u : string) :
  (i < length (designated whitelist cfg))%nat ->
  URL x = URL (nth i (designated whitelist cfg) zeroFilter) ->
  filterExistsNoLock
    (withDesignated whitelist (setNth i x (designated whitelist cfg)) cfg) u
  = filterExistsNoLock cfg u.
Proof.
  intros Hi Hx. unfold filterExistsNoLock, withDesignated, designated in *.
  destruct whitelist; cbn [Filters WhitelistFilters];
    now rewrite existsb_setNth.
Qed.

(** What a call that finds the filter does to the configuration: the
    entry found is replaced, by a filter with the same identifier and list
    membership, the new name, and either the old URL or a new URL that no
    entry had. *)
Lemma filterSetProperties_found (le : loadEnv) (fs : filesystem) (url : string)
    (newf : filter) (whitelist : bool) (cfg : config) (i : nat) :
  indexOfURL url (designated whitelist cfg) = Some i ->
  exists filt',
    snd (filterSetProperties le fs url newf whitelist cfg)
    = withDesignated whitelist (setNth i filt' (designated whitelist cfg)) cfg
    /\ ID filt' = ID (nth i (designated whitelist cfg) zeroFilter)
    /\ white filt' = white (nth i (designated whitelist cfg) zeroFilter)
    /\ Name filt' = Name newf
    /\ (URL filt' = url
        \/ (URL filt' = URL newf /\ filterExistsNoLock cfg (URL newf) = false))
    /\ (fst (filterSetProperties le fs url newf whitelist cfg) = statusURLExists
        \/ Z.land (fst (filterSetProperties le fs url newf whitelist cfg)) statusFound
           = statusFound).
Proof.
  intros Hi. destruct (indexOfURL_Some _ _ _ Hi) as [Hlt Hu].
  unfold filterSetProperties.
  change (if whitelist then WhitelistFilters cfg else Filters cfg)
    with (designated whitelist cfg).
  rewrite Hi. cbv zeta.
  set (orig := nth i (designated whitelist cfg) zeroFilter) in *.
  match goal with
  | |- context [filterExistsNoLock ?c (URL newf)] =>
    replace (filterExistsNoLock c (URL newf)) with (filterExistsNoLock cfg (URL newf))
      by (symmetry;
          exact (filterExistsNoLock_withDesignated whitelist cfg i
                   (setName (Name newf) orig) (URL newf) Hlt eq_refl))
  end.
  assert (Hload : forall f f' e,
             load le fs f = (f', e) ->
             ID f' = ID f /\ white f' = white f /\ Name f' = Name f /\ URL f' = URL f).
  { intros f f' e H. destruct (load_frame le fs f f' e H) as (? & ? & ? & ? & ? & _).
    now repeat split. }
  destruct (negb (String.eqb (URL (setName (Name newf) orig)) (URL newf))) eqn:Ech;
    [destruct (filterExistsNoLock cfg (URL newf)) eqn:Eex|]; cbn [andb].
  - eexists. split; [reflexivity|]. repeat split; try reflexivity.
    + left. exact Hu.
    + now left.
  - destruct (negb (Bool.eqb (Enabled (clearCache (unload (setURL (URL newf)
                 (setName (Name newf) orig))))) (Enabled newf)));
      [destruct (Enabled (setEnabled (Enabled newf) (clearCache (unload
                   (setURL (URL newf) (setName (Name newf) orig))))))|];
      cbn [fst snd]; eexists; (split; [reflexivity|]); repeat split;
      try reflexivity; try (right; split; reflexivity);
      try (right; reflexivity).
  - apply negb_false_iff, String.eqb_eq in Ech. cbn [URL setName] in Ech.
    destruct (negb (Bool.eqb (Enabled (setName (Name newf) orig)) (Enabled newf)));
      [destruct (Enabled (setEnabled (Enabled newf) (setName (Name newf) orig)))|];
      cbn [fst snd].
    + change (Z.land (Z.lor 0 statusEnabledChanged) statusURLChanged =? 0) with true.
      cbv iota.
      destruct (load le fs (setEnabled (Enabled newf) (setName (Name newf) orig)))
        as [f' [e|]] eqn:El;
        destruct (Hload _ _ _ El) as (H1 & H2 & H3 & H4);
        cbn [fst snd]; eexists; (split; [reflexivity|]); repeat split;
        try (right; reflexivity); try (left; cbn; rewrite H4; exact Hu);
        cbn; rewrite ?H1, ?H2, ?H3; reflexivity.
    + eexists; (split; [reflexivity|]); repeat split;
        try (right; reflexivity); try (left; exact Hu); reflexivity.
    + eexists; (split; [reflexivity|]); repeat split;
        try (right; reflexivity); try (left; exact Hu); reflexivity.
Qed.

Lemma designated_withDesignated (whitelist : bool) (l : list filter) (cfg : config) :
  designated whitelist (withDesignated whitelist l cfg) = l
  /\ designated (negb whitelist) (withDesignated whitelist l cfg)
     = designated (negb whitelist) cfg
  /\ FiltersUpdateIntervalHours (withDesignated whitelist l cfg)
     = FiltersUpdateIntervalHours cfg.
Proof. destruct whitelist; repeat split. Qed.

Lemma filterSetProperties_not_found (le : loadEnv) (fs : filesystem) (url : string)
    (newf : filter) (whitelist : bool) (cfg : config) :
  indexOfURL url (designated whitelist cfg) = None ->
  filterSetProperties le fs url newf whitelist cfg = (0, cfg).
Proof.
  intros H. unfold filterSetProperties.
  change (if whitelist then WhitelistFilters cfg else Filters cfg)
    with (designated whitelist cfg).
  now rewrite H.
Qed.

(** X5.  [filterSetProperties] returns 0 exactly when the designated
    sequence has no filter with the URL, and then the configuration is as it
    was.  In every case the other sequence and the update interval are
    untouched, the designated sequence keeps its identifiers and list
    memberships, position by position, every entry other than the first one
    with the URL is as it was, and the status is 0, [statusURLExists] alone,
    or has [statusFound] set. *)
Theorem filterSetProperties_touches_one_entry :
  forall (le : loadEnv) (fs : filesystem) (url : string) (newf : filter)
         (whitelist : bool) (cfg : config),
    let r := fst (filterSetProperties le fs url newf whitelist cfg) in
    let cfg' := snd (filterSetProperties le fs url newf whitelist cfg) in
    (r = 0 <-> indexOfURL url (designated whitelist cfg) = None)
    /\ (r = 0 -> cfg' = cfg)
    /\ designated (negb whitelist) cfg' = designated (negb whitelist) cfg
    /\ FiltersUpdateIntervalHours cfg' = FiltersUpdateIntervalHours cfg
    /\ map ID (designated whitelist cfg') = map ID (designated whitelist cfg)
    /\ map white (designated whitelist cfg') = map white (designated whitelist cfg)
    /\ (forall k,
          indexOfURL url (designated whitelist cfg) <> Some k ->
          nth k (designated whitelist cfg') zeroFilter
          = nth k (designated whitelist cfg) zeroFilter)
    /\ (r = 0 \/ r = statusURLExists \/ Z.land r statusFound = statusFound).
Proof.
  intros le fs url newf whitelist cfg. cbv zeta.
  destruct (indexOfURL url (designated whitelist cfg)) as [i|] eqn:Hi.
  - destruct (filterSetProperties_found le fs url newf whitelist cfg i Hi)
      as (filt' & Hcfg & HID & Hwhite & _ & _ & Hr).
    destruct (indexOfURL_Some _ _ _ Hi) as [Hlt _].
    destruct (designated_withDesignated whitelist
                (setNth i filt' (designated whitelist cfg)) cfg) as (D1 & D2 & D3).
    assert (Hnz : fst (filterSetProperties le fs url newf whitelist cfg) <> 0).
    { destruct Hr as [Hr|Hr]; rewrite ?Hr; [discriminate|].
      intros H0. rewrite H0 in Hr. discriminate. }
    rewrite Hcfg, D1, D2, D3.
    split; [split; [intros H; contradiction|discriminate]|].
    split; [intros H; contradiction|].
    split; [reflexivity|]. split; [reflexivity|].
    split; [now apply map_setNth with (d := zeroFilter)|].
    split; [now apply map_setNth with (d := zeroFilter)|].
    split; [|right; exact Hr].
    intros k Hk. apply nth_setNth_other; [exact Hlt|congruence].
  - rewrite (filterSetProperties_not_found le fs url newf whitelist cfg Hi).
    cbn [fst snd]. repeat split; try reflexivity; try discriminate. now left.
Qed.

Lemma NoDup_replace {A : Type} (l1 l2 : list A) (a b : A) :
  NoDup (l1 ++ a :: l2) -> ~ In b (l1 ++ a :: l2) -> NoDup (l1 ++ b :: l2).
Proof.
  intros Hnd Hb. apply NoDup_remove in Hnd as [Hnd _].
  apply (Permutation_NoDup (Permutation_middle l1 l2 b)).
  constructor; [|exact Hnd].
  intros Hin. apply Hb. apply in_app_or in Hin as [Hin|Hin]; apply in_or_app;
    [now left|right; now right].
Qed.

Lemma allURLs_withDesignated (whitelist : bool) (cfg : config) (i : nat) (x : filter) :
  (i < length (designated whitelist cfg))%nat ->
  exists l1 l2,
    allURLs cfg = l1 ++ URL (nth i (designated whitelist cfg) zeroFilter) :: l2
    /\ allURLs (withDesignated whitelist (setNth i x (designated whitelist cfg)) cfg)
       = l1 ++ URL x :: l2.
Proof.
  intros Hi. unfold allURLs, withDesignated, designated in *.
  destruct whitelist; cbn [Filters WhitelistFilters].
  - exists (map URL (Filters cfg) ++ map URL (firstn i (WhitelistFilters cfg))),
           (map URL (skipn (S i) (WhitelistFilters cfg))).
    rewrite (nth_split_at i (WhitelistFilters cfg) zeroFilter Hi) at 1.
    unfold setNth. rewrite !map_app. cbn [map]. now rewrite <- !app_assoc.
  - exists (map URL (firstn i (Filters cfg))),
           (map URL (skipn (S i) (Filters cfg)) ++ map URL (WhitelistFilters cfg)).
    rewrite (nth_split_at i (Filters cfg) zeroFilter Hi) at 1.
    unfold setNth. rewrite !map_app. cbn [map]. now rewrite <- !app_assoc.
Qed.

(** X6.  [filterSetProperties] keeps the URLs of the two sequences
    pairwise distinct: if no URL occurs twice before the call, none does
    after it, whatever the call changes. *)
Theorem filterSetProperties_keeps_urls_unique :
  forall (le : loadEnv) (fs : filesystem) (url : string) (newf : filter)
         (whitelist : bool) (cfg : config),
    NoDup (allURLs cfg) ->
    NoDup (allURLs (snd (filterSetProperties le fs url newf whitelist cfg))).
Proof.
  intros le fs url newf whitelist cfg Hnd.
  destruct (indexOfURL url (designated whitelist cfg)) as [i|] eqn:Hi.
  - destruct (filterSetProperties_found le fs url newf whitelist cfg i Hi)
      as (filt' & Hcfg & _ & _ & _ & Hurl & _).
    destruct (indexOfURL_Some _ _ _ Hi) as [Hlt Hu].
    destruct (allURLs_withDesignated whitelist cfg i filt' Hlt) as (l1 & l2 & H1 & H2).
    rewrite Hcfg, H2. rewrite H1 in Hnd.
    destruct Hurl as [Hsame|[Hnew Hfresh]].
    + now rewrite Hsame, <- Hu.
    + apply (NoDup_replace _ _ _ _ Hnd). rewrite Hnew, <- H1.
      now apply filterExistsNoLock_not_In.
  - now rewrite (filterSetProperties_not_found le fs url newf whitelist cfg Hi).
Qed.

(** The theorem on a call that moves filter 1 to a URL not yet taken. *)
Lemma filterSetProperties_keeps_urls_unique_witness :
  NoDup (allURLs (snd (filterSetProperties (mkLoadEnv true true true) emptyFS listURL
                         (mkFilter true "https://example.net/new.txt" "New" 0 0 0 false 0)
                         false (mkConfig [sampleFilter; otherFilter] [] 24)))).
Proof.
  apply (filterSetProperties_keeps_urls_unique (mkLoadEnv true true true) emptyFS listURL
           (mkFilter true "https://example.net/new.txt" "New" 0 0 0 false 0)
           false (mkConfig [sampleFilter; otherFilter] [] 24)).
  repeat constructor; simpl; intuition discriminate.
Defined.

(** ** [update]: attempts that commit *)

Lemma fetchAndProcess_read_ok (e : env) (flt : filter) (tmp : path) (w : world)
    (r : reader) (n : Z) (content : list byte) :
  e_chmod e = true -> e_sourceClose e = true -> e_seek e = true ->
  fetched e flt = Some r -> read (e_write e) r = (n, content, None) ->
  fetchAndProcess e flt tmp w
  = (mkProcessed (snd (parseFilterContents content))
       (fst (fst (parseFilterContents content)))
       (crc32.ChecksumIEEE content) n None,
     negb (crc32.ChecksumIEEE content =? checksum flt),
     writeTemp e tmp content w).
Proof.
  intros Hch Hsc Hseek Hf Hr.
  rewrite (fetchAndProcess_source e flt tmp w r Hch Hf).
  unfold processUpdate. rewrite Hr, Hseek, Hsc. cbn [negb].
  pose proof (parse_checksum content) as Hp.
  destruct (parseFilterContents content) as [[rnum cs] name].
  cbn [fst snd p_name p_rnum p_cs p_n p_err WithDeferred] in *.
  now rewrite Hp.
Qed.

(** The attempt that commits, as an equation. *)
Lemma update_commit (e : env) (flt : filter) (w : world) (r : reader) (n : Z)
    (content : list byte) :
  tempFileOK e w ->
  e_chmod e = true -> e_sourceClose e = true -> e_seek e = true ->
  e_rename e = true ->
  fetched e flt = Some r ->
  read (e_write e) r = (n, content, None) ->
  crc32.ChecksumIEEE content <> checksum flt ->
  update e flt w
  = (setLastUpdated (e_now e)
       (setRulesCount (fst (fst (parseFilterContents content)))
          (setChecksum (crc32.ChecksumIEEE content)
             (setName (Coalesce (Name flt) (snd (parseFilterContents content))) flt))),
     mkWorld
       (fs_set (Path flt) (Some (mkFile content (e_tempMtime e)))
          (fs_set (TempPath (e_tempName e)) None
             (fs_set (TempPath (e_tempName e)) (Some (mkFile content (e_tempMtime e)))
                (fs_set (TempPath (e_tempName e)) (Some (mkFile [] (e_tempMtime e)))
                   (w_fs w)))))
       ((w_ops w ++ [OpCreateTemp (TempPath (e_tempName e))])
        ++ [OpRename (TempPath (e_tempName e)) (Path flt)]),
     true, None).
Proof.
  intros (Hc & Hfresh & Hclose & Hremove) Hch Hsc Hseek Hren Hf Hr Hcs.
  unfold update, updateIntl. rewrite os_CreateTemp_Some by assumption.
  rewrite (fetchAndProcess_read_ok e flt _ _ r n content Hch Hsc Hseek Hf Hr).
  apply Z.eqb_neq in Hcs. rewrite Hcs. cbn [negb].
  unfold finalizeUpdate, os_Rename. rewrite Hclose, Hren. cbn [negb].
  cbn [p_name p_rnum p_cs p_err writeTemp logOp w_fs w_ops].
  rewrite fs_set_same. reflexivity.
Qed.

(** X7.  When the local calls succeed and the checksum of the content
    read from the source differs from the stored one, [update] commits: it
    returns an update and no error; the copy gets the new rule count and
    checksum, the declared title if its name was empty, and the current time
    as [LastUpdated]; the file of the filter holds exactly the content read,
    with the modification time of the temporary file; the temporary file is
    gone, no other file has changed, and the only calls that changed the
    file system are the creation of the temporary file and its renaming. *)
Theorem changed_content_is_committed :
  forall (e : env) (flt : filter) (w : world) (r : reader) (n : Z)
         (content : list byte),
    tempFileOK e w ->
    e_chmod e = true -> e_sourceClose e = true -> e_seek e = true ->
    e_rename e = true ->
    fetched e flt = Some r ->
    read (e_write e) r = (n, content, None) ->
    crc32.ChecksumIEEE content <> checksum flt ->
    let '(flt', w', b, err) := update e flt w in
    b = true /\ err = None
    /\ flt' = setLastUpdated (e_now e)
                (setRulesCount (fst (fst (parseFilterContents content)))
                   (setChecksum (crc32.ChecksumIEEE content)
                      (setName (Coalesce (Name flt) (snd (parseFilterContents content)))
                         flt)))
    /\ w_fs w' (Path flt) = Some (mkFile content (e_tempMtime e))
    /\ w_fs w' (TempPath (e_tempName e)) = None
    /\ (forall q, q <> Path flt -> w_fs w' q = w_fs w q)
    /\ newOps w w' = [OpCreateTemp (TempPath (e_tempName e));
                      OpRename (TempPath (e_tempName e)) (Path flt)].
Proof.
  intros e flt w r n content Hok Hch Hsc Hseek Hren Hf Hr Hcs.
  rewrite (update_commit e flt w r n content Hok Hch Hsc Hseek Hren Hf Hr Hcs).
  destruct Hok as (_ & Hfresh & _ & _).
  assert (Hneq : TempPath (e_tempName e) <> Path flt) by discriminate.
  cbn [w_fs w_ops]. unfold newOps. cbn [w_ops].
  split; [reflexivity|]. split; [reflexivity|]. split; [reflexivity|].
  split; [apply fs_set_same|].
  split; [rewrite fs_set_other by exact Hneq; apply fs_set_same|].
  split.
  - intros q Hq. rewrite fs_set_other by exact Hq.
    destruct (path_eqb q (TempPath (e_tempName e))) eqn:Eq.
    + apply path_eqb_eq in Eq. subst q. now rewrite fs_set_same.
    + assert (q <> TempPath (e_tempName e)).
      { intros ->. now rewrite (proj2 (path_eqb_eq _ _) eq_refl) in Eq. }
      now rewrite !fs_set_other by assumption.
  - rewrite <- app_assoc, skipn_app, skipn_all, Nat.sub_diag. reflexivity.
Qed.

(** The theorem on a first download into an empty directory. *)
Lemma changed_content_is_committed_witness :
  let '(flt', w', b, err) :=
    update (envWith 1000 (okResponse sampleBody)) (snapshot sampleFilter) emptyWorld in
  b = true /\ err = None
  /\ flt' = setLastUpdated 1000
              (setRulesCount (fst (fst (parseFilterContents sampleBody)))
                 (setChecksum (crc32.ChecksumIEEE sampleBody)
                    (setName (Coalesce (Name (snapshot sampleFilter))
                                (snd (parseFilterContents sampleBody)))
                       (snapshot sampleFilter))))
  /\ w_fs w' (Path (snapshot sampleFilter)) = Some (mkFile sampleBody 1000)
  /\ w_fs w' (TempPath 0) = None
  /\ (forall q, q <> Path (snapshot sampleFilter) -> w_fs w' q = w_fs emptyWorld q)
  /\ newOps emptyWorld w' = [OpCreateTemp (TempPath 0);
                             OpRename (TempPath 0) (Path (snapshot sampleFilter))].
Proof.
  apply (changed_content_is_committed
           (envWith 1000 (okResponse sampleBody)) (snapshot sampleFilter) emptyWorld
           (mkReader [] sampleBody EOF) (Z.of_nat (length sampleBody)) sampleBody).
  - repeat split; reflexivity.
  - reflexivity.
  - reflexivity.
  - reflexivity.
  - reflexivity.
  - reflexivity.
  - vm_compute. reflexivity.
  - vm_compute. discriminate.
Defined.

(** X8.  What a commit caches is what [load] computes from the file it
    left: after an attempt that commits, loading the copy from the file
    system gives no error and the same rule count and checksum, and only
    sets [LastUpdated] to the modification time of the file. *)
Theorem load_after_commit_agrees :
  forall (e : env) (le : loadEnv) (flt : filter) (w : world) (r : reader) (n : Z)
         (content : list byte),
    tempFileOK e w ->
    e_chmod e = true -> e_sourceClose e = true -> e_seek e = true ->
    e_rename e = true ->
    fetched e flt = Some r ->
    read (e_write e) r = (n, content, None) ->
    crc32.ChecksumIEEE content <> checksum flt ->
    l_open le = true -> l_stat le = true -> l_close le = true ->
    let '(flt', w', _, _) := update e flt w in
    load le (w_fs w') flt' = (setLastUpdated (e_tempMtime e) flt', None).
Proof.
  intros e le flt w r n content Hok Hch Hsc Hseek Hren Hf Hr Hcs Hlo Hls Hlc.
  rewrite (update_commit e flt w r n content Hok Hch Hsc Hseek Hren Hf Hr Hcs).
  unfold load. cbn [w_fs].
  match goal with
  | |- context [Path ?f] => change (Path f) with (Path flt)
  end.
  rewrite fs_set_same, Hlo, Hls, Hlc. cbn [negb f_data f_mtime].
  pose proof (parse_checksum content) as Hp.
  destruct (parseFilterContents content) as [[rnum cs] name].
  cbn [fst snd] in *. subst cs. destruct flt. reflexivity.
Qed.

(** The theorem on a first download into an empty directory. *)
Lemma load_after_commit_agrees_witness :
  let '(flt', w', _, _) :=
    update (envWith 1000 (okResponse sampleBody)) (snapshot sampleFilter) emptyWorld in
  load (mkLoadEnv true true true) (w_fs w') flt' = (setLastUpdated 1000 flt', None).
Proof.
  apply (load_after_commit_agrees
           (envWith 1000 (okResponse sampleBody)) (mkLoadEnv true true true)
           (snapshot sampleFilter) emptyWorld
           (mkReader [] sampleBody EOF) (Z.of_nat (length sampleBody)) sampleBody).
  - repeat split; reflexivity.
  - reflexivity.
  - reflexivity.
  - reflexivity.
  - reflexivity.
  - reflexivity.
  - vm_compute. reflexivity.
  - vm_compute. discriminate.
  - reflexivity.
  - reflexivity.
  - reflexivity.
Defined.

(** ** What [read] writes *)

Lemma readIter_written (writeOK : nat -> bool) (st : readState) (buf : list byte)
    (eof : bool) :
  rs_total (fst (readIter writeOK st buf eof))
  = wrap_int (rs_total st + Z.of_nat (length buf))
  /\ rs_written (fst (readIter writeOK st buf eof))
     = if isNil (snd (readIter writeOK st buf eof))
       then rs_written st ++ buf else rs_written st.
Proof.
  unfold readIter. cbv zeta.
  destruct (rs_htmlTest st);
    [destruct ((length (rs_firstChunk st
                        ++ firstn (Nat.min (firstChunkCap - length (rs_firstChunk st))
                                     (length buf)) buf) =? firstChunkCap)%nat || eof);
     [destruct (checkFirstChunk _)|]|];
    try destruct (writeOK (rs_nwrites st)); split; reflexivity.
Qed.

Lemma readLoop_written (writeOK : nat -> bool) (last : list byte) (lerr : readErr)
    (chunks : list (list byte)) :
  forall st,
    (exists rest,
        rs_written st ++ concat chunks ++ last
        = rs_written (fst (readLoop writeOK st chunks last lerr)) ++ rest)
    /\ (snd (readLoop writeOK st chunks last lerr) = None ->
        rs_written (fst (readLoop writeOK st chunks last lerr))
        = rs_written st ++ concat chunks ++ last
        /\ lerr = EOF
        /\ rs_total (fst (readLoop writeOK st chunks last lerr))
           = wrap_int (rs_total st + Z.of_nat (length (concat chunks ++ last)))).
Proof.
  induction chunks as [|buf chunks IH]; intros st.
  - cbn [readLoop concat app].
    destruct (readIter_written writeOK st last
                (match lerr with EOF => true | ReadFailure => false end)) as [Ht Hw].
    destruct (readIter writeOK st last _) as [st' [er|]]; cbn [fst snd isNil] in *.
    + split; [exists last; now rewrite Hw|discriminate].
    + split; [exists []; now rewrite Hw, app_nil_r|].
      intros He. destruct lerr; [|discriminate]. now repeat split.
  - cbn [readLoop].
    destruct (readIter_written writeOK st buf false) as [Ht Hw].
    destruct (readIter writeOK st buf false) as [st' [er|]]; cbn [fst snd isNil] in *.
    + split; [|discriminate].
      exists (concat (buf :: chunks) ++ last). now rewrite Hw.
    + destruct (IH st') as [[rest Hrest] Hok].
      assert (Hcat : rs_written st ++ concat (buf :: chunks) ++ last
                     = rs_written st' ++ concat chunks ++ last).
      { rewrite Hw. cbn [concat]. now rewrite <- !app_assoc. }
      split; [exists rest; now rewrite Hcat|].
      intros He. destruct (Hok He) as (H1 & H2 & H3).
      split; [now rewrite Hcat|]. split; [exact H2|].
      rewrite H3, Ht, wrap_int_idem. f_equal. cbn [concat].
      rewrite <- app_assoc, (length_app buf). lia.
Qed.

(** X9.  Whatever the source and the writes do, the bytes [read] has
    written to the temporary file are a prefix of the stream; and when
    [read] returns no error, the stream ended with [io.EOF], the whole of it
    was written, and the count returned is its length (as an [int]). *)
Theorem read_writes_a_prefix_of_the_stream :
  forall (writeOK : nat -> bool) (r : reader),
    (exists rest, streamBytes r = snd (fst (read writeOK r)) ++ rest)
    /\ (snd (read writeOK r) = None ->
        snd (fst (read writeOK r)) = streamBytes r
        /\ r_err r = EOF
        /\ fst (fst (read writeOK r)) = wrap_int (Z.of_nat (length (streamBytes r)))).
Proof.
  intros writeOK r. unfold read, streamBytes.
  destruct (readLoop_written writeOK (r_last r) (r_err r) (r_chunks r) readInit)
    as [Hpre Hok].
  destruct (readLoop writeOK readInit (r_chunks r) (r_last r) (r_err r)) as [st err].
  cbn [fst snd rs_written rs_total readInit app] in *.
  split; [exact Hpre|]. intros He. destruct (Hok He) as (H1 & H2 & H3).
  now rewrite H1, H3.
Qed.

Lemma read_complete (writeOK : nat -> bool) (r : reader) :
  snd (read writeOK r) = None -> snd (fst (read writeOK r)) = streamBytes r.
Proof.
  unfold read, streamBytes.
  destruct (readLoop_written writeOK (r_last r) (r_err r) (r_chunks r) readInit)
    as [_ Hok].
  destruct (readLoop writeOK readInit (r_chunks r) (r_last r) (r_err r)) as [st err].
  cbn [fst snd rs_written readInit app] in *.
  intros He. now destruct (Hok He) as (H1 & _).
Qed.

(** ** [update] in every environment *)

Lemma processUpdate_world (e : env) (r : reader) (tmp : path) (w : world) :
  snd (processUpdate e r tmp w) = writeTemp e tmp (snd (fst (read (e_write e) r))) w.
Proof.
  unfold processUpdate. destruct (read (e_write e) r) as [[n written] [er|]];
    [reflexivity|].
  destruct (negb (e_seek e)); [reflexivity|].
  now destruct (parseFilterContents written) as [[rnum cs] name].
Qed.

Lemma processUpdate_result (e : env) (r : reader) (tmp : path) (w : world) :
  let P := fst (processUpdate e r tmp w) in
  let written := snd (fst (read (e_write e) r)) in
  (p_err P = None /\ snd (read (e_write e) r) = None
   /\ p_cs P = crc32.ChecksumIEEE written
   /\ p_rnum P = fst (fst (parseFilterContents written))
   /\ p_name P = snd (parseFilterContents written))
  \/ (p_err P <> None /\ p_cs P = 0 /\ p_rnum P = 0 /\ p_name P = EmptyString).
Proof.
  cbv zeta. unfold processUpdate.
  destruct (read (e_write e) r) as [[n written] [er|]]; cbn [fst snd].
  - right. repeat split. discriminate.
  - destruct (negb (e_seek e)).
    + right. repeat split. discriminate.
    + pose proof (parse_checksum written) as Hp.
      destruct (parseFilterContents written) as [[rnum cs] name].
      cbn [fst snd p_err p_cs p_rnum p_name] in *. left. now repeat split.
Qed.

(** [fetchAndProcess] either ends with [ok = false] and the temporary file
    as it found it or worse, or has run [processUpdate] on the stream
    fetched. *)
Lemma fetchAndProcess_cases (e : env) (flt : filter) (tmp : path) (w : world) :
  snd (fst (fetchAndProcess e flt tmp w)) = false
  \/ exists r,
       fetched e flt = Some r
       /\ fetchAndProcess e flt tmp w
          = (let P := fst (processUpdate e r tmp w) in
             mkProcessed (p_name P) (p_rnum P) (p_cs P) (p_n P)
               (WithDeferred (p_err P)
                  (if e_sourceClose e then None else Some ErrSourceClose)),
             true, writeTemp e tmp (snd (fst (read (e_write e) r))) w)
       /\ p_cs (fst (processUpdate e r tmp w)) <> checksum flt.
Proof.
  destruct (e_chmod e) eqn:Ech.
  - destruct (fetched e flt) as [r|] eqn:Hf.
    + rewrite (fetchAndProcess_source e flt tmp w r Ech Hf).
      pose proof (processUpdate_world e r tmp w) as Hw.
      destruct (processUpdate e r tmp w) as [P w'] eqn:EP. cbn [fst snd] in *.
      destruct (p_cs P =? checksum flt) eqn:E; [now left|right].
      exists r. rewrite EP. cbn [fst]. split; [reflexivity|].
      split; [now rewrite Hw|]. now apply Z.eqb_neq.
    + destruct (fetchAndProcess_no_source e flt tmp w Hf) as (p & Hp & _).
      left. now rewrite Hp.
  - left. unfold fetchAndProcess. now rewrite Ech.
Qed.

Lemma finalizeUpdate_cases (e : env) (tmp : path) (flt : filter) (updated : bool)
    (name : string) (rnum cs : Z) (w : world) :
  tmp <> Path flt ->
  let flt' := fst (fst (finalizeUpdate e tmp flt updated name rnum cs w)) in
  let w' := snd (fst (finalizeUpdate e tmp flt updated name rnum cs w)) in
  let err := snd (finalizeUpdate e tmp flt updated name rnum cs w) in
  (forall q, q <> tmp -> q <> Path flt -> w_fs w' q = w_fs w q)
  /\ (exists ops, w_ops w' = w_ops w ++ ops)
  /\ ((updated = true /\ err = None
       /\ flt' = setRulesCount rnum (setChecksum cs (setName (Coalesce (Name flt) name) flt))
       /\ w_fs w' (Path flt) = w_fs w tmp /\ w_fs w tmp <> None)
      \/ ((updated = false \/ err <> None)
          /\ flt' = flt /\ w_fs w' (Path flt) = w_fs w (Path flt))).
Proof.
  intros Hneq. cbv zeta. unfold finalizeUpdate.
  assert (Hneq' : Path flt <> tmp) by congruence.
  destruct (e_close e); cbn [negb].
  - destruct updated; cbn [negb].
    + unfold os_Rename. destruct (e_rename e).
      * destruct (w_fs w tmp) as [tf|] eqn:Et.
        -- cbn [fst snd logOp w_fs w_ops]. split; [|split].
           ++ intros q H1 H2. now rewrite !fs_set_other by assumption.
           ++ now eexists.
           ++ left. rewrite fs_set_same. repeat split. discriminate.
        -- unfold os_Remove. rewrite Et.
           destruct (e_remove e); cbn [fst snd]; (split; [|split]);
             try (intros; reflexivity); try (exists []; now rewrite app_nil_r);
             right; repeat split; right; discriminate.
      * unfold os_Remove.
        destruct (e_remove e); [destruct (w_fs w tmp) as [tf|] eqn:Et|];
          cbn [fst snd logOp w_fs w_ops]; (split; [|split]);
          try (intros q H1 H2; rewrite ?fs_set_other by assumption; reflexivity);
          try (now eexists); try (exists []; now rewrite app_nil_r);
          right; rewrite ?fs_set_other by assumption; repeat split; right; discriminate.
    + unfold os_Remove.
      destruct (e_remove e); [destruct (w_fs w tmp) as [tf|] eqn:Et|];
        cbn [fst snd logOp w_fs w_ops]; (split; [|split]);
        try (intros q H1 H2; rewrite ?fs_set_other by assumption; reflexivity);
        try (now eexists); try (exists []; now rewrite app_nil_r);
        right; rewrite ?fs_set_other by assumption; repeat split; now left.
  - cbn [fst snd]. split; [|split].
    + intros; reflexivity.
    + exists []. now rewrite app_nil_r.
    + right. repeat split. right. discriminate.
Qed.

Lemma processUpdate_fst (e : env) (r : reader) (tmp tmp' : path) (w w' : world) :
  fst (processUpdate e r tmp w) = fst (processUpdate e r tmp' w').
Proof.
  unfold processUpdate. destruct (read (e_write e) r) as [[n written] [er|]];
    [reflexivity|].
  destruct (negb (e_seek e)); [reflexivity|].
  now destruct (parseFilterContents written) as [[rnum cs] name].
Qed.

Lemma os_CreateTemp_cases (e : env) (w : world) :
  os_CreateTemp e w = None
  \/ (w_fs w (TempPath (e_tempName e)) = None
      /\ os_CreateTemp e w
         = Some (TempPath (e_tempName e),
                 logOp (OpCreateTemp (TempPath (e_tempName e))) w
                   (fs_set (TempPath (e_tempName e)) (Some (mkFile [] (e_tempMtime e)))
                      (w_fs w)))).
Proof.
  unfold os_CreateTemp. destruct (e_createTemp e); [|now left].
  destruct (w_fs w (TempPath (e_tempName e))); [now left|now right].
Qed.

Lemma updateIntl_cases (e : env) (flt : filter) (w : world) :
  let tmp := TempPath (e_tempName e) in
  let flt' := fst (fst (fst (updateIntl e flt w))) in
  let w' := snd (fst (fst (updateIntl e flt w))) in
  let b := snd (fst (updateIntl e flt w)) in
  let err := snd (updateIntl e flt w) in
  (forall q, q <> tmp -> q <> Path flt -> w_fs w' q = w_fs w q)
  /\ (exists ops, w_ops w' = w_ops w ++ ops)
  /\ ((exists r,
         fetched e flt = Some r
         /\ p_cs (fst (processUpdate e r tmp w)) <> checksum flt
         /\ flt' = setRulesCount (p_rnum (fst (processUpdate e r tmp w)))
                     (setChecksum (p_cs (fst (processUpdate e r tmp w)))
                        (setName (Coalesce (Name flt)
                                    (p_name (fst (processUpdate e r tmp w)))) flt))
         /\ w_fs w' (Path flt)
            = Some (mkFile (snd (fst (read (e_write e) r))) (e_tempMtime e))
         /\ b = isNil err
         /\ err = WithDeferred (p_err (fst (processUpdate e r tmp w)))
                    (if e_sourceClose e then None else Some ErrSourceClose))
      \/ (b = false /\ flt' = flt /\ w_fs w' (Path flt) = w_fs w (Path flt))).
Proof.
  cbv zeta. unfold updateIntl.
  destruct (os_CreateTemp_cases e w) as [Hc|[Hfresh Hc]]; rewrite Hc.
  { cbn [fst snd]. split; [intros; reflexivity|].
    split; [exists []; now rewrite app_nil_r|]. right. now repeat split. }
  set (tmp := TempPath (e_tempName e)) in *.
  set (w1 := logOp (OpCreateTemp tmp) w
               (fs_set tmp (Some (mkFile [] (e_tempMtime e))) (w_fs w))) in *.
  assert (Hneq : tmp <> Path flt) by discriminate.
  assert (Hw1 : forall q, q <> tmp -> w_fs w1 q = w_fs w q).
  { intros q Hq. unfold w1. cbn [logOp w_fs]. now apply fs_set_other. }
  destruct (fetchAndProcess_world e flt tmp w1) as (Hops & Hfs & _).
  destruct (fetchAndProcess_cases e flt tmp w1) as [Hno|(r & Hf & Heq & Hcs)].
  - destruct (fetchAndProcess e flt tmp w1) as [[p ok] w2].
    cbn [fst snd] in *. subst ok.
    destruct (finalizeUpdate_cases e tmp flt false (p_name p) (p_rnum p) (p_cs p) w2 Hneq)
      as (Hq & (ops & Hlog) & Hcase).
    destruct (finalizeUpdate e tmp flt false (p_name p) (p_rnum p) (p_cs p) w2)
      as [[flt' w3] ferr]. cbn [fst snd andb] in *.
    split; [|split].
    + intros q H1 H2. rewrite Hq, Hfs by assumption. now apply Hw1.
    + exists ([OpCreateTemp tmp] ++ ops). rewrite Hlog, Hops. unfold w1.
      cbn [logOp w_ops]. now rewrite <- app_assoc.
    + right. destruct Hcase as [(Hu & _)|(_ & Hflt & Hp)]; [discriminate|].
      split; [reflexivity|]. split; [exact Hflt|].
      rewrite Hp, Hfs by congruence. apply Hw1. congruence.
  - rewrite Heq in *. cbn [fst snd] in *. cbv zeta.
    cbn [p_name p_rnum p_cs p_err].
    set (P := fst (processUpdate e r tmp w1)) in *.
    assert (HP : fst (processUpdate e r tmp w) = P) by apply processUpdate_fst.
    set (closed := WithDeferred (p_err P)
                     (if e_sourceClose e then None else Some ErrSourceClose)).
    set (w2 := writeTemp e tmp (snd (fst (read (e_write e) r))) w1) in *.
    destruct (finalizeUpdate_cases e tmp flt true (p_name P) (p_rnum P) (p_cs P) w2 Hneq)
      as (Hq & (ops & Hlog) & Hcase).
    destruct (finalizeUpdate e tmp flt true (p_name P) (p_rnum P) (p_cs P) w2)
      as [[flt' w3] ferr]. cbn [fst snd andb] in *.
    split; [|split].
    + intros q H1 H2. rewrite Hq, Hfs by assumption. now apply Hw1.
    + exists ([OpCreateTemp tmp] ++ ops). rewrite Hlog, Hops. unfold w1.
      cbn [logOp w_ops]. now rewrite <- app_assoc.
    + destruct Hcase as [(_ & Hferr & Hflt & Hp & _)|([Hu|Hferr] & Hflt & Hp)].
      * left. exists r. rewrite HP. subst ferr. rewrite WithDeferred_nil.
        split; [exact Hf|]. split; [exact Hcs|]. split; [exact Hflt|].
        split; [|split; reflexivity].
        rewrite Hp. unfold w2, writeTemp. cbn [w_fs]. apply fs_set_same.
      * discriminate.
      * right. split; [|split; [exact Hflt|]].
        -- destruct closed, ferr; try reflexivity. contradiction.
        -- rewrite Hp, Hfs by congruence. apply Hw1. congruence.
Qed.

Lemma os_Chtimes_frame (e : env) (p : path) (t : Z) (w : world) :
  (forall q, q <> p -> w_fs (fst (os_Chtimes e p t w)) q = w_fs w q)
  /\ option_map f_data (w_fs (fst (os_Chtimes e p t w)) p) = option_map f_data (w_fs w p)
  /\ exists ops, w_ops (fst (os_Chtimes e p t w)) = w_ops w ++ ops.
Proof.
  unfold os_Chtimes.
  destruct (e_chtimes e); [destruct (w_fs w p) as [f|] eqn:E|];
    cbn [fst logOp w_fs w_ops].
  - split; [intros q Hq; now apply fs_set_other|].
    split; [now rewrite fs_set_same|now eexists].
  - split; [reflexivity|]. split; [now rewrite E|exists []; now rewrite app_nil_r].
  - split; [reflexivity|]. split; [reflexivity|exists []; now rewrite app_nil_r].
Qed.

Lemma update_cases (e : env) (flt : filter) (w : world) :
  let tmp := TempPath (e_tempName e) in
  let flt' := fst (fst (fst (update e flt w))) in
  let w' := snd (fst (fst (update e flt w))) in
  let b := snd (fst (update e flt w)) in
  let err := snd (update e flt w) in
  (forall q, q <> tmp -> q <> Path flt -> w_fs w' q = w_fs w q)
  /\ (exists ops, w_ops w' = w_ops w ++ ops)
  /\ ((exists r,
         fetched e flt = Some r
         /\ p_cs (fst (processUpdate e r tmp w)) <> checksum flt
         /\ flt' = setLastUpdated (e_now e)
                     (setRulesCount (p_rnum (fst (processUpdate e r tmp w)))
                        (setChecksum (p_cs (fst (processUpdate e r tmp w)))
                           (setName (Coalesce (Name flt)
                                       (p_name (fst (processUpdate e r tmp w)))) flt)))
         /\ option_map f_data (w_fs w' (Path flt)) = Some (snd (fst (read (e_write e) r)))
         /\ (b = true ->
             w_fs w' (Path flt)
             = Some (mkFile (snd (fst (read (e_write e) r))) (e_tempMtime e)))
         /\ b = isNil err
         /\ err = WithDeferred (p_err (fst (processUpdate e r tmp w)))
                    (if e_sourceClose e then None else Some ErrSourceClose))
      \/ (b = false /\ flt' = setLastUpdated (e_now e) flt
          /\ option_map f_data (w_fs w' (Path flt))
             = option_map f_data (w_fs w (Path flt)))).
Proof.
  cbv zeta. pose proof (updateIntl_cases e flt w) as H. cbv zeta in H.
  unfold update.
  destruct (updateIntl e flt w) as [[[flt1 w1] b] err]. cbn [fst snd] in *.
  destruct H as (Hq & (ops & Hlog) & Hcase).
  assert (HID : ID flt1 = ID flt).
  { destruct Hcase as [(r & _ & _ & Hflt & _)|(_ & Hflt & _)]; now subst flt1. }
  change (Path (setLastUpdated (e_now e) flt1)) with (FilterPath (ID flt1)).
  rewrite HID. change (FilterPath (ID flt)) with (Path flt).
  destruct (os_Chtimes_frame e (Path flt) (e_now e) w1) as (Cq & Cd & (cops & Clog)).
  split; [|split].
  - intros q H1 H2. destruct b; [now apply Hq|]. rewrite Cq by assumption. now apply Hq.
  - destruct b; [now exists ops|].
    exists (ops ++ cops). now rewrite Clog, Hlog, <- app_assoc.
  - destruct Hcase as [(r & Hf & Hcs & Hflt & Hp & Hb & He)|(Hb & Hflt & Hp)].
    + left. exists r. split; [exact Hf|]. split; [exact Hcs|].
      split; [now rewrite Hflt|]. split; [|split; [|split; assumption]].
      * destruct b; [now rewrite Hp|]. now rewrite Cd, Hp.
      * intros ->. exact Hp.
    + right. subst b flt1. split; [reflexivity|]. split; [reflexivity|].
      now rewrite Cd, Hp.
Qed.

Lemma read_ends_with_EOF (writeOK : nat -> bool) (r : reader) :
  snd (read writeOK r) = None -> r_err r = EOF.
Proof.
  unfold read.
  destruct (readLoop_written writeOK (r_last r) (r_err r) (r_chunks r) readInit)
    as [_ Hok].
  destruct (readLoop writeOK readInit (r_chunks r) (r_last r) (r_err r)) as [st err].
  cbn [fst snd] in *. intros He. now destruct (Hok He) as (_ & H2 & _).
Qed.

(** X10.  In every environment, when [update] reports an update it
    returns no error, and the source was read to its end: the file of the
    filter holds the whole stream, the checksum of the copy is the CRC-32 of
    that stream and differs from the one stored before, the rule count is
    that of the stream, and [LastUpdated] is the current time. *)
Theorem reported_update_is_complete :
  forall (e : env) (flt : filter) (w : world),
    snd (fst (update e flt w)) = true ->
    let flt' := fst (fst (fst (update e flt w))) in
    let w' := snd (fst (fst (update e flt w))) in
    snd (update e flt w) = None
    /\ checksum flt' <> checksum flt
    /\ LastUpdated flt' = e_now e
    /\ exists r,
         fetched e flt = Some r
         /\ r_err r = EOF
         /\ w_fs w' (Path flt) = Some (mkFile (streamBytes r) (e_tempMtime e))
         /\ checksum flt' = crc32.ChecksumIEEE (streamBytes r)
         /\ RulesCount flt' = fst (fst (parseFilterContents (streamBytes r))).
Proof.
  intros e flt w Hb. cbv zeta.
  destruct (update_cases e flt w) as (_ & _ & Hcase).
  destruct Hcase as [(r & Hf & Hcs & Hflt & _ & Hp & Hnil & He)|(Hb' & _)];
    [|congruence].
  rewrite Hb in Hnil. specialize (Hp Hb).
  destruct (snd (update e flt w)) as [er|]; [discriminate|].
  destruct (processUpdate_result e r (TempPath (e_tempName e)) w)
    as [(_ & Hr & H1 & H2 & _)|(Hne & _)].
  - rewrite Hflt. cbn [checksum LastUpdated RulesCount setLastUpdated setRulesCount
                       setChecksum setName].
    rewrite (read_complete _ _ Hr) in *.
    split; [reflexivity|]. split; [congruence|]. split; [reflexivity|].
    exists r. split; [exact Hf|]. split; [now apply (read_ends_with_EOF (e_write e))|].
    split; [exact Hp|]. now split.
  - destruct (p_err (fst (processUpdate e r (TempPath (e_tempName e)) w)));
      [discriminate|contradiction].
Qed.

(** The theorem on a first download into an empty directory. *)
Lemma reported_update_is_complete_witness :
  let e := envWith 1000 (okResponse sampleBody) in
  let flt := snapshot sampleFilter in
  let flt' := fst (fst (fst (update e flt emptyWorld))) in
  let w' := snd (fst (fst (update e flt emptyWorld))) in
  snd (update e flt emptyWorld) = None
  /\ checksum flt' <> checksum flt
  /\ LastUpdated flt' = e_now e
  /\ exists r,
       fetched e flt = Some r
       /\ r_err r = EOF
       /\ w_fs w' (Path flt) = Some (mkFile (streamBytes r) (e_tempMtime e))
       /\ checksum flt' = crc32.ChecksumIEEE (streamBytes r)
       /\ RulesCount flt' = fst (fst (parseFilterContents (streamBytes r))).
Proof.
  apply (reported_update_is_complete
           (envWith 1000 (okResponse sampleBody)) (snapshot sampleFilter) emptyWorld).
  vm_compute. reflexivity.
Defined.

(** X11.  In every environment [update] leaves the identifier, the URL,
    the enabled flag and the list membership of the copy as they were and
    sets [LastUpdated] to the current time; and when it reports neither an
    update nor an error, nothing else of the copy has changed. *)
Theorem update_keeps_identity_of_the_copy :
  forall (e : env) (flt : filter) (w : world),
    let flt' := fst (fst (fst (update e flt w))) in
    ID flt' = ID flt /\ URL flt' = URL flt /\ Enabled flt' = Enabled flt
    /\ white flt' = white flt /\ LastUpdated flt' = e_now e
    /\ (snd (fst (update e flt w)) = false -> snd (update e flt w) = None ->
        flt' = setLastUpdated (e_now e) flt).
Proof.
  intros e flt w. cbv zeta.
  destruct (update_cases e flt w) as (_ & _ & Hcase).
  destruct Hcase as [(r & _ & _ & Hflt & _ & _ & Hnil & _)|(_ & Hflt & _)];
    rewrite Hflt; repeat split.
  intros Hb He. rewrite Hb, He in Hnil. discriminate.
Qed.

Lemma finalizeUpdate_temp (e : env) (tmp : path) (flt : filter) (updated : bool)
    (name : string) (rnum cs : Z) (w : world) :
  tmp <> Path flt -> e_close e = true -> e_remove e = true -> w_fs w tmp <> None ->
  w_fs (snd (fst (finalizeUpdate e tmp flt updated name rnum cs w))) tmp = None.
Proof.
  intros Hneq Hclose Hremove Htmp. unfold finalizeUpdate, os_Rename, os_Remove.
  rewrite Hclose, Hremove. cbn [negb].
  destruct (w_fs w tmp) as [tf|] eqn:Et; [|contradiction].
  destruct updated; cbn [negb].
  - destruct (e_rename e).
    + cbn [fst snd logOp w_fs]. rewrite fs_set_other by exact Hneq. apply fs_set_same.
    + rewrite Et. cbn [fst snd logOp w_fs]. apply fs_set_same.
  - cbn [fst snd logOp w_fs]. apply fs_set_same.
Qed.

Lemma update_temp_gone (e : env) (flt : filter) (w : world) :
  tempFileOK e w ->
  w_fs (snd (fst (fst (update e flt w)))) (TempPath (e_tempName e)) = None.
Proof.
  intros (Hc & Hfresh & Hclose & Hremove).
  set (tmp := TempPath (e_tempName e)).
  assert (Hneq : tmp <> Path flt) by discriminate.
  unfold update, updateIntl. rewrite os_CreateTemp_Some by assumption. fold tmp.
  set (w1 := logOp (OpCreateTemp tmp) w
               (fs_set tmp (Some (mkFile [] (e_tempMtime e))) (w_fs w))).
  destruct (fetchAndProcess_world e flt tmp w1) as (_ & _ & Htmp).
  assert (Hex : w_fs (snd (fetchAndProcess e flt tmp w1)) tmp <> None).
  { apply Htmp. unfold w1. cbn [w_fs logOp]. rewrite fs_set_same. discriminate. }
  destruct (fetchAndProcess e flt tmp w1) as [[p ok] w2]. cbn [snd] in Hex.
  pose proof (finalizeUpdate_temp e tmp flt ok (p_name p) (p_rnum p) (p_cs p) w2
                Hneq Hclose Hremove Hex) as Hgone.
  destruct (finalizeUpdate e tmp flt ok (p_name p) (p_rnum p) (p_cs p) w2)
    as [[flt' w3] ferr]. cbn [fst snd] in *.
  destruct (ok && isNil (WithDeferred (p_err p) ferr)); [exact Hgone|].
  destruct (os_Chtimes_frame e (Path (setLastUpdated (e_now e) flt')) (e_now e) w3)
    as (Cq & _).
  rewrite Cq by discriminate. exact Hgone.
Qed.

(** X12.  In every environment [update] touches two files at most, the
    file of the filter and its temporary file, and only adds to the record
    of calls; the content of the file of the filter afterwards is the
    content it had, or else the bytes [read] wrote for the stream fetched;
    and when the temporary file can be created, closed and removed, none is
    left behind, whether the attempt commits or fails. *)
Theorem update_touches_only_its_files :
  forall (e : env) (flt : filter) (w : world),
    let w' := snd (fst (fst (update e flt w))) in
    (forall q, q <> TempPath (e_tempName e) -> q <> Path flt -> w_fs w' q = w_fs w q)
    /\ (exists ops, w_ops w' = w_ops w ++ ops)
    /\ (option_map f_data (w_fs w' (Path flt)) = option_map f_data (w_fs w (Path flt))
        \/ exists r, fetched e flt = Some r
                     /\ option_map f_data (w_fs w' (Path flt))
                        = Some (snd (fst (read (e_write e) r))))
    /\ (tempFileOK e w -> w_fs w' (TempPath (e_tempName e)) = None).
Proof.
  intros e flt w. cbv zeta.
  destruct (update_cases e flt w) as (Hq & Hops & Hcase).
  split; [exact Hq|]. split; [exact Hops|]. split; [|apply update_temp_gone].
  destruct Hcase as [(r & Hf & _ & _ & Hd & _)|(_ & _ & Hd)].
  - right. now exists r.
  - now left.
Qed.

(** ** Batches and the registry *)

Lemma Forall2_compose {A : Type} (R S T : A -> A -> Prop) (l1 l2 l3 : list A) :
  (forall a b c, R a b -> S b c -> T a c) ->
  Forall2 R l1 l2 -> Forall2 S l2 l3 -> Forall2 T l1 l3.
Proof.
  intros H H1. revert l3. induction H1 as [|a b l1 l2 Hab _ IH]; intros l3 H2.
  - inversion H2. constructor.
  - inversion H2 as [|b' c l2' l3' Hbc Hrest]; subst.
    constructor; [now apply (H a b c)|now apply IH].
Qed.

Lemma Forall2_map_eq {A B : Type} (f : A -> B) (l l' : list A) :
  Forall2 (fun a b => f b = f a) l l' -> map f l' = map f l.
Proof. induction 1 as [|a b l l' H _ IH]; simpl; congruence. Qed.

Lemma Forall2_nth {A : Type} (R : A -> A -> Prop) (d : A) (l l' : list A) :
  Forall2 R l l' -> forall k, (k < length l)%nat -> R (nth k l d) (nth k l' d).
Proof.
  induction 1 as [|a b l l' H _ IH]; intros k Hk; simpl in *; [lia|].
  destruct k; [exact H|]. apply IH. lia.
Qed.

Lemma Forall2_weaken {A : Type} (R S : A -> A -> Prop) (l l' : list A) :
  (forall a b, R a b -> S a b) -> Forall2 R l l' -> Forall2 S l l'.
Proof. intros H. induction 1; constructor; auto. Qed.

Lemma Forall2_refl {A : Type} (R : A -> A -> Prop) (l : list A) :
  (forall a, R a a) -> Forall2 R l l.
Proof. intros H. induction l; constructor; auto. Qed.

Lemma mergeOne_merged (uf : filter) (updated : bool) (filters : list filter) :
  forall n, Forall2 (merged [uf]) filters (fst (mergeOne uf updated filters n)).
Proof.
  induction filters as [|f rest IH]; intros n; cbn [mergeOne]; [constructor|].
  assert (Hsame : negb (ID f =? ID uf) || negb (String.eqb (URL f) (URL uf))
                  = negb (sameEntry uf f)).
  { unfold sameEntry. now destruct (ID f =? ID uf), (String.eqb (URL f) (URL uf)). }
  rewrite Hsame. destruct (sameEntry uf f) eqn:E; cbn [negb].
  - destruct updated; cbn [negb].
    + specialize (IH (wrap_int (n + 1))).
      destruct (mergeOne uf true rest (wrap_int (n + 1))) as [rest' k].
      constructor; [|exact IH]. unfold merged. repeat split.
      intros H. specialize (H uf (or_introl eq_refl)). congruence.
    + specialize (IH n). destruct (mergeOne uf false rest n) as [rest' k].
      constructor; [|exact IH]. unfold merged. repeat split.
      intros H. specialize (H uf (or_introl eq_refl)). congruence.
  - specialize (IH n). destruct (mergeOne uf updated rest n) as [rest' k].
    constructor; [|exact IH]. unfold merged. now repeat split.
Qed.

Lemma merged_trans (uf : filter) (ufs : list filter) (a b c : filter) :
  merged [uf] a b -> merged ufs b c -> merged (uf :: ufs) a c.
Proof.
  intros (A1 & A2 & A3 & A4 & A5) (B1 & B2 & B3 & B4 & B5).
  unfold merged. repeat split; try congruence.
  intros H.
  assert (Hb : b = a).
  { apply A5. intros u [<-|[]]. apply H. now left. }
  subst b. apply B5. intros u Hu. apply H. now right.
Qed.

Lemma mergeAll_merged (ufs : list (filter * bool)) :
  forall filters n,
    Forall2 (merged (map fst ufs)) filters (fst (mergeAll ufs filters n)).
Proof.
  induction ufs as [|[uf updated] rest IH]; intros filters n; cbn [mergeAll map fst].
  - apply Forall2_refl. intros a. unfold merged. now repeat split.
  - pose proof (mergeOne_merged uf updated filters n) as H1.
    destruct (mergeOne uf updated filters n) as [filters' k]. cbn [fst] in H1.
    apply (Forall2_compose _ _ _ _ _ _ (merged_trans uf (map fst rest)) H1 (IH filters' k)).
Qed.

Lemma update_ID_URL (e : env) (flt : filter) (w : world) :
  ID (fst (fst (fst (update e flt w)))) = ID flt
  /\ URL (fst (fst (fst (update e flt w)))) = URL flt.
Proof.
  destruct (update_cases e flt w) as (_ & _ & Hcase).
  destruct Hcase as [(r & _ & _ & Hflt & _)|(_ & Hflt & _)]; rewrite Hflt; now split.
Qed.

Lemma updateEach_shape (ufs : list filter) :
  forall envs i w,
    let '(ufs', flags, nfail, w') := updateEach envs i ufs w in
    length flags = length ufs'
    /\ map (fun f => (ID f, URL f)) ufs' = map (fun f => (ID f, URL f)) ufs.
Proof.
  induction ufs as [|uf rest IH]; intros envs i w; cbn [updateEach]; [now split|].
  destruct (update_ID_URL (envs i) uf w) as [H1 H2].
  destruct (update (envs i) uf w) as [[[uf' w1] updated] err]. cbn [fst] in *.
  specialize (IH envs (S i) w1).
  destruct (updateEach envs (S i) rest w1) as [[[rest' flags] nfail] w2].
  destruct IH as [IH1 IH2]. cbn [length map]. rewrite IH1, IH2, H1, H2. now split.
Qed.

Lemma candidates_due (force : bool) (hours now : Z) (filters : list filter) (c : filter) :
  In c (candidates force hours now filters) ->
  exists g, In g filters /\ due force hours now g = true
            /\ ID c = ID g /\ URL c = URL g.
Proof.
  unfold candidates. intros H. apply in_map_iff in H as (g & <- & Hg).
  apply filter_In in Hg as [Hin Hdue]. exists g. now repeat split.
Qed.

(** The array after [refreshFiltersArray], entry by entry. *)
Lemma refreshFiltersArray_merged (envs : nat -> env) (now hours : Z)
    (filters : list filter) (force : bool) (w : world) :
  let res := refreshFiltersArray envs now hours filters force w in
  length (ar_updateFlags res) = length (ar_updateFilters res)
  /\ Forall2
       (fun f f' =>
          ID f' = ID f /\ URL f' = URL f /\ Enabled f' = Enabled f /\ white f' = white f
          /\ ((forall g, In g filters -> due force hours now g = true ->
                         sameEntry g f = false) -> f' = f))
       filters (ar_filters res).
Proof.
  cbv zeta. unfold refreshFiltersArray.
  assert (Hid : Forall2
                  (fun f f' =>
                     ID f' = ID f /\ URL f' = URL f /\ Enabled f' = Enabled f
                     /\ white f' = white f
                     /\ ((forall g, In g filters -> due force hours now g = true ->
                                    sameEntry g f = false) -> f' = f))
                  filters filters).
  { apply Forall2_refl. intros a. now repeat split. }
  pose proof (candidates_due force hours now filters) as Hcand.
  destruct (candidates force hours now filters) as [|c cs]; [now split|].
  pose proof (updateEach_shape (c :: cs) envs 0%nat w) as Hshape.
  destruct (updateEach envs 0 (c :: cs) w) as [[[ufs flags] nfail] w'].
  destruct Hshape as [Hlen Hkeys].
  destruct (nfail =? length ufs)%nat; [now split|].
  pose proof (mergeAll_merged (combine ufs flags) filters 0) as Hm.
  destruct (mergeAll (combine ufs flags) filters 0) as [filters' n].
  cbn [fst ar_updateFlags ar_updateFilters ar_filters] in *.
  split; [exact Hlen|].
  eapply Forall2_weaken; [|exact Hm].
  intros f f' (A1 & A2 & A3 & A4 & A5). repeat split; try assumption.
  intros Hg. apply A5. intros uf Huf.
  apply in_map_iff in Huf as ([uf0 fl] & <- & Hin). apply in_combine_l in Hin.
  cbn [fst].
  assert (Hk : In (ID uf0, URL uf0) (map (fun f => (ID f, URL f)) (c :: cs))).
  { rewrite <- Hkeys. now apply (in_map (fun f => (ID f, URL f))). }
  apply in_map_iff in Hk as (c0 & Hc0 & Hin0). inversion Hc0 as [[E1 E2]].
  destruct (Hcand c0 Hin0) as (g & Hgin & Hdue & G1 & G2).
  specialize (Hg g Hgin Hdue). unfold sameEntry in *.
  now rewrite <- E1, <- E2, G1, G2.
Qed.

Lemma filter_none {A : Type} (p : A -> bool) (l : list A) :
  (forall a, In a l -> p a = false) -> List.filter p l = [].
Proof.
  induction l as [|a l IH]; intros H; simpl; [reflexivity|].
  rewrite (H a (or_introl eq_refl)). apply IH. intros b Hb. apply H. now right.
Qed.

Lemma refreshFiltersArray_identity (envs : nat -> env) (now hours : Z)
    (filters : list filter) (force : bool) (w : world) :
  map identity (ar_filters (refreshFiltersArray envs now hours filters force w))
  = map identity filters.
Proof.
  destruct (refreshFiltersArray_merged envs now hours filters force w) as [_ H].
  apply Forall2_map_eq. eapply Forall2_weaken; [|exact H].
  intros f f' (A1 & A2 & A3 & A4 & _). unfold identity. congruence.
Qed.

Lemma refreshFiltersArray_netErr (envs : nat -> env) (now hours : Z)
    (filters : list filter) (force : bool) (w : world) :
  ar_netErr (refreshFiltersArray envs now hours filters force w) = true ->
  candidates force hours now filters <> []
  /\ ar_filters (refreshFiltersArray envs now hours filters force w) = filters
  /\ ar_updateCount (refreshFiltersArray envs now hours filters force w) = 0.
Proof.
  unfold refreshFiltersArray.
  destruct (candidates force hours now filters) as [|uf ufs]; [discriminate|].
  destruct (updateEach envs 0 (uf :: ufs) w) as [[[ufs' flags] nfail] w'].
  destruct (nfail =? length ufs')%nat; [now repeat split|].
  destruct (mergeAll (combine ufs' flags) filters 0). discriminate.
Qed.

(** X13.  [refreshFiltersArray] never adds, drops or reorders entries and
    never changes the identifier, the URL, the enabled flag or the list
    membership of one; it returns one flag per updated copy; an entry is as
    it was unless a filter of the array that is due has its identifier and
    its URL; and when no filter is due, nothing is fetched and the array and
    the file system are untouched. *)
Theorem refreshFiltersArray_changes_only_due_entries :
  forall (envs : nat -> env) (now hours : Z) (filters : list filter) (force : bool)
         (w : world),
    let res := refreshFiltersArray envs now hours filters force w in
    map identity (ar_filters res) = map identity filters
    /\ length (ar_updateFlags res) = length (ar_updateFilters res)
    /\ (forall k,
          (forall g, In g filters -> due force hours now g = true ->
                     sameEntry g (nth k filters zeroFilter) = false) ->
          nth k (ar_filters res) zeroFilter = nth k filters zeroFilter)
    /\ ((forall g, In g filters -> due force hours now g = false) ->
        res = mkArrayResult 0 [] [] false filters w).
Proof.
  intros envs now hours filters force w. cbv zeta.
  pose proof (refreshFiltersArray_identity envs now hours filters force w) as Hid.
  destruct (refreshFiltersArray_merged envs now hours filters force w) as [Hlen H].
  split; [exact Hid|]. split; [exact Hlen|]. split.
  - intros k Hk.
    destruct (Nat.lt_ge_cases k (length filters)) as [Hlt|Hge].
    + now apply (Forall2_nth _ zeroFilter _ _ H k Hlt).
    + apply (f_equal (@length _)) in Hid. rewrite !length_map in Hid.
      now rewrite !nth_overflow by lia.
  - intros Hnone. unfold refreshFiltersArray, candidates.
    now rewrite (filter_none _ _ Hnone).
Qed.

(** X14.  [refreshFiltersIfNecessary] keeps the update interval and, in
    both sequences, the entries with their identifiers, URLs, enabled flags
    and list memberships; a sequence that the flags do not select is
    untouched, and with no sequence selected nothing happens at all.  When
    it reports a network error, both sequences were selected, both had
    filters that were due, the count is zero and the configuration is as it
    was. *)
Theorem refreshFiltersIfNecessary_frame :
  forall (envsB envsW : nat -> env) (now flags : Z) (cfg : config) (w : world),
    let res := refreshFiltersIfNecessary envsB envsW now flags cfg w in
    let cfg' := snd (fst res) in
    let force := negb (Z.land flags filterRefreshForce =? 0) in
    let hours := FiltersUpdateIntervalHours cfg in
    FiltersUpdateIntervalHours cfg' = hours
    /\ map identity (Filters cfg') = map identity (Filters cfg)
    /\ map identity (WhitelistFilters cfg') = map identity (WhitelistFilters cfg)
    /\ (Z.land flags filterRefreshBlocklists = 0 -> Filters cfg' = Filters cfg)
    /\ (Z.land flags filterRefreshAllowlists = 0 ->
        WhitelistFilters cfg' = WhitelistFilters cfg)
    /\ (Z.land flags filterRefreshBlocklists = 0 ->
        Z.land flags filterRefreshAllowlists = 0 ->
        res = (0, false, cfg, w))
    /\ (snd (fst (fst res)) = true ->
        fst (fst (fst res)) = 0 /\ cfg' = cfg
        /\ Z.land flags filterRefreshBlocklists <> 0
        /\ Z.land flags filterRefreshAllowlists <> 0
        /\ candidates force hours now (Filters cfg) <> []
        /\ candidates force hours now (WhitelistFilters cfg) <> []).
Proof.
  intros envsB envsW now flags cfg w. cbv zeta.
  unfold refreshFiltersIfNecessary.
  set (hours := FiltersUpdateIntervalHours cfg).
  set (force := negb (Z.land flags filterRefreshForce =? 0)).
  set (b := if negb (Z.land flags filterRefreshBlocklists =? 0)
            then refreshFiltersArray envsB now hours (Filters cfg) force w
            else mkArrayResult 0 [] [] false (Filters cfg) w).
  set (a := if negb (Z.land flags filterRefreshAllowlists =? 0)
            then refreshFiltersArray envsW now hours (WhitelistFilters cfg) force
                   (ar_world b)
            else mkArrayResult 0 [] [] false (WhitelistFilters cfg) (ar_world b)).
  assert (Hcfg : snd (fst
                   (if ar_netErr b && ar_netErr a
                    then (0, true, mkConfig (ar_filters b) (ar_filters a) hours, ar_world a)
                    else if negb (wrap_int (ar_updateCount b + ar_updateCount a) =? 0)
                    then (wrap_int (ar_updateCount b + ar_updateCount a), false,
                          mkConfig (ar_filters b) (ar_filters a) hours,
                          fold_left removeOld
                            (combine (ar_updateFilters b ++ ar_updateFilters a)
                                     (ar_updateFlags b ++ ar_updateFlags a))
                            (ar_world a))
                    else (wrap_int (ar_updateCount b + ar_updateCount a), false,
                          mkConfig (ar_filters b) (ar_filters a) hours, ar_world a)))
                 = mkConfig (ar_filters b) (ar_filters a) hours).
  { destruct (ar_netErr b && ar_netErr a); [reflexivity|].
    now destruct (negb (wrap_int (ar_updateCount b + ar_updateCount a) =? 0)). }
  rewrite Hcfg. cbn [Filters WhitelistFilters FiltersUpdateIntervalHours].
  assert (Hb : map identity (ar_filters b) = map identity (Filters cfg)).
  { unfold b. destruct (negb (Z.land flags filterRefreshBlocklists =? 0));
      [apply refreshFiltersArray_identity|reflexivity]. }
  assert (Ha : map identity (ar_filters a) = map identity (WhitelistFilters cfg)).
  { unfold a. destruct (negb (Z.land flags filterRefreshAllowlists =? 0));
      [apply refreshFiltersArray_identity|reflexivity]. }
  split; [reflexivity|]. split; [exact Hb|]. split; [exact Ha|].
  split; [|split; [|split]].
  - intros H0. unfold b. now rewrite H0.
  - intros H0. unfold a. now rewrite H0.
  - intros H1 H2. unfold a, b. rewrite H1, H2. cbn. now destruct cfg.
  - intros Hnet.
    destruct (ar_netErr b && ar_netErr a) eqn:E.
    + apply andb_true_iff in E as [Eb Ea]. unfold a, b in Ea, Eb |- *.
      destruct (Z.land flags filterRefreshBlocklists =? 0) eqn:Fb; [discriminate|].
      destruct (Z.land flags filterRefreshAllowlists =? 0) eqn:Fa; [discriminate|].
      cbn [negb] in *.
      apply refreshFiltersArray_netErr in Eb as (B1 & B2 & _).
      apply refreshFiltersArray_netErr in Ea as (A1 & A2 & _).
      rewrite B2, A2. apply Z.eqb_neq in Fb, Fa.
      split; [reflexivity|]. split; [now destruct cfg|]. now repeat split.
    + destruct (negb (wrap_int (ar_updateCount b + ar_updateCount a) =? 0));
        discriminate.
Qed.

(** ** The interval of the scheduler over a run *)

Lemma intervalAfter_snoc (batches : list (option bool)) (b : option bool) :
  intervalAfter (batches ++ [b]) = nextInterval b (intervalAfter batches).
Proof. unfold intervalAfter. now rewrite fold_left_app. Qed.

Lemma nextInterval_max (rest : list (option bool)) :
  fold_left (fun intval b => nextInterval b intval) rest maxInterval = maxInterval.
Proof.
  induction rest as [|b rest IH]; [reflexivity|]. cbn [fold_left].
  replace (nextInterval b maxInterval) with maxInterval; [exact IH|].
  now destruct b as [[|]|].
Qed.

(** X15.  Over any run of iterations the interval of the scheduler never
    shrinks; after [k] batches that all failed entirely it is 5 times 2 to
    the [k], capped at 3600 seconds; and once one batch has ended without a
    network error it is 3600 seconds for good, whatever the later batches
    do. *)
Theorem scheduler_backoff_only_grows :
  (forall batches b, intervalAfter batches <= intervalAfter (batches ++ [b]))
  /\ (forall k : nat,
        intervalAfter (repeat (Some true) k) = Z.min (5 * 2 ^ Z.of_nat k) 3600)
  /\ (forall before after, intervalAfter (before ++ Some false :: after) = 3600).
Proof.
  split; [|split].
  - intros batches b. rewrite intervalAfter_snoc.
    pose proof (intervalAfter_range batches) as H.
    destruct b as [[|]|].
    + rewrite nextInterval_failed by exact H.
      unfold maxInterval in H. change (1 * 60 * 60) with 3600 in H. lia.
    + change (nextInterval (Some false) (intervalAfter batches)) with maxInterval. lia.
    + change (nextInterval None (intervalAfter batches)) with (intervalAfter batches). lia.
  - induction k as [|k IH]; [reflexivity|].
    replace (repeat (Some true) (S k)) with (repeat (Some true) k ++ [Some true])
      by (now rewrite <- repeat_cons).
    rewrite intervalAfter_snoc, nextInterval_failed by apply intervalAfter_range.
    rewrite IH, Nat2Z.inj_succ, Z.pow_succ_r by lia.
    assert (0 < 2 ^ Z.of_nat k) by (apply Z.pow_pos_nonneg; lia). lia.
  - intros before after. unfold intervalAfter. rewrite fold_left_app.
    cbn [fold_left].
    change (nextInterval (Some false)
              (fold_left (fun intval b => nextInterval b intval) before initialInterval))
      with maxInterval.
    apply nextInterval_max.
Qed.

(** ** [load] and [loadFilters] *)

Lemma load_success (le : loadEnv) (fs : filesystem) (flt : filter) (file : file) :
  fs (Path flt) = Some file -> l_open le = true -> l_stat le = true ->
  load le fs flt
  = (setLastUpdated (f_mtime file)
       (setChecksum (crc32.ChecksumIEEE (f_data file))
          (setRulesCount (fst (fst (parseFilterContents (f_data file)))) flt)),
     if l_close le then None else Some ErrClose).
Proof.
  intros Hf Ho Hs. unfold load. rewrite Hf, Ho, Hs. cbn [negb].
  pose proof (parse_checksum (f_data file)) as Hp.
  destruct (parseFilterContents (f_data file)) as [[rulesCount cs] name].
  cbn [fst snd] in *. subst cs. now destruct (l_close le).
Qed.

Lemma load_failure (le : loadEnv) (fs : filesystem) (flt : filter) :
  l_open le = false \/ l_stat le = false -> fst (load le fs flt) = flt.
Proof.
  intros H. unfold load. destruct (fs (Path flt)) as [file|]; [|reflexivity].
  destruct (l_open le); [|reflexivity]. destruct H as [H|H]; [discriminate|].
  now rewrite H.
Qed.

(** X16.  [load] never changes the identifier, the URL, the name, the
    enabled flag or the list membership.  Without a file it changes nothing
    and returns no error; when the file cannot be opened or examined the
    filter is as it was; when it can, the checksum becomes the CRC-32 of the
    content of the file, the rule count that of the content and
    [LastUpdated] the modification time of the file, even if closing the
    file then fails; and a load that returned no error, when repeated,
    returns the same filter. *)
Theorem load_reads_the_cache_from_the_file :
  forall (le : loadEnv) (fs : filesystem) (flt : filter),
    let flt' := fst (load le fs flt) in
    identity flt' = identity flt /\ Name flt' = Name flt
    /\ (fs (Path flt) = None -> load le fs flt = (flt, None))
    /\ (l_open le = false \/ l_stat le = false -> flt' = flt)
    /\ (forall file,
          fs (Path flt) = Some file -> l_open le = true -> l_stat le = true ->
          checksum flt' = crc32.ChecksumIEEE (f_data file)
          /\ RulesCount flt' = fst (fst (parseFilterContents (f_data file)))
          /\ LastUpdated flt' = f_mtime file)
    /\ (snd (load le fs flt) = None -> load le fs flt' = (flt', None)).
Proof.
  intros le fs flt. cbv zeta.
  destruct (load le fs flt) as [f' err] eqn:E.
  destruct (load_frame le fs flt f' err E) as (H1 & H2 & H3 & H4 & H5 & H6).
  cbn [fst snd]. unfold identity.
  split; [congruence|]. split; [exact H3|].
  split; [intros Hn; destruct (H6 Hn); congruence|].
  split; [intros Hf; now rewrite <- (load_failure le fs flt Hf), E|].
  split.
  - intros file Hf Ho Hs. rewrite (load_success le fs flt file Hf Ho Hs) in E.
    inversion E. now repeat split.
  - intros ->. destruct (fs (Path flt)) as [file|] eqn:Hf.
    + destruct (l_open le) eqn:Ho;
        [|unfold load in E; rewrite Hf, Ho in E; discriminate].
      destruct (l_stat le) eqn:Hs;
        [|unfold load in E; rewrite Hf, Ho, Hs in E; cbn in E;
          destruct (l_close le); discriminate].
      rewrite (load_success le fs flt file Hf Ho Hs) in E.
      injection E as Ef Ec.
      assert (Hf' : fs (Path f') = Some file).
      { unfold Path. rewrite H1. exact Hf. }
      rewrite (load_success le fs f' file Hf' Ho Hs), Ec.
      f_equal. rewrite <- Ef. now destruct flt.
    + destruct (H6 eq_refl) as [-> _]. unfold load. now rewrite Hf.
Qed.

Lemma setID_same (f : filter) : setID (ID f) f = f.
Proof. now destruct f. Qed.

(** X17.  [loadFilters] keeps the length of the array and, entry by
    entry, the URL, the name, the enabled flag and the list membership; an
    identifier that is not zero is kept; an entry that is disabled, or has
    no file, is as configured apart from its identifier; and an enabled
    entry whose file can be opened and examined gets the CRC-32 and the
    rule count of the content of the file and its modification time. *)
Theorem loadFilters_keeps_entries_and_loads_enabled (array : list filter) :
  forall (les : nat -> loadEnv) (fs : filesystem) (i : nat) (next : Z),
    length (fst (loadFilters les fs i array next)) = length array
    /\ forall k, (k < length array)%nat ->
         let f := nth k array zeroFilter in
         let f' := nth k (fst (loadFilters les fs i array next)) zeroFilter in
         URL f' = URL f /\ Name f' = Name f /\ Enabled f' = Enabled f
         /\ white f' = white f
         /\ (ID f <> 0 -> ID f' = ID f)
         /\ (Enabled f = false \/ fs (Path f') = None -> f' = setID (ID f') f)
         /\ (Enabled f = true ->
             forall file,
               fs (Path f') = Some file ->
               l_open (les (i + k)%nat) = true -> l_stat (les (i + k)%nat) = true ->
               checksum f' = crc32.ChecksumIEEE (f_data file)
               /\ RulesCount f' = fst (fst (parseFilterContents (f_data file)))
               /\ LastUpdated f' = f_mtime file).
Proof.
  induction array as [|f rest IH]; intros les fs i next.
  - split; [reflexivity|]. intros k Hk. simpl in Hk. lia.
  - cbn [loadFilters].
    set (f1 := if ID f =? 0 then setID next f else f).
    set (next1 := if ID f =? 0 then wrap_int (next + 1) else next).
    assert (Hpair : (if ID f =? 0
                     then let '(value, next0) := assignUniqueFilterID next in
                          (setID value f, next0)
                     else (f, next)) = (f1, next1)).
    { unfold f1, next1, assignUniqueFilterID. now destruct (ID f =? 0). }
    rewrite Hpair. clear Hpair.
    assert (Hf1 : f1 = setID (ID f1) f).
    { unfold f1. destruct (ID f =? 0); [reflexivity|]. now rewrite setID_same. }
    assert (Hkeep : ID f <> 0 -> ID f1 = ID f).
    { intros Hnz. unfold f1. apply Z.eqb_neq in Hnz. now rewrite Hnz. }
    assert (Hfields : URL f1 = URL f /\ Name f1 = Name f /\ Enabled f1 = Enabled f
                      /\ white f1 = white f).
    { unfold f1. now destruct (ID f =? 0). }
    destruct Hfields as (F1 & F2 & F3 & F4).
    destruct (IH les fs (S i) next1) as [Hlen Hrest].
    destruct (loadFilters les fs (S i) rest next1) as [rest' next2].
    cbn [fst length] in *. split; [now rewrite Hlen|].
    intros [|k] Hk; cbn [nth].
    + cbv zeta. rewrite Nat.add_0_r.
      destruct (Enabled f1) eqn:En; cbn [negb].
      * destruct (load (les i) fs f1) as [f2 err] eqn:El. cbn [fst].
        destruct (load_frame _ _ _ _ _ El) as (L1 & L2 & L3 & L4 & L5 & L6).
        assert (HP : Path f2 = Path f1) by (unfold Path; now rewrite L1).
        rewrite HP.
        split; [congruence|]. split; [congruence|]. split; [congruence|].
        split; [congruence|]. split; [intros Hnz; rewrite L1; now apply Hkeep|].
        split.
        -- intros [Hd|Hn]; [congruence|].
           destruct (L6 Hn) as [-> _]. exact Hf1.
        -- intros _ file Hfile Ho Hs.
           rewrite (load_success _ _ _ file Hfile Ho Hs) in El.
           inversion El. now repeat split.
      * split; [exact F1|]. split; [exact F2|]. split; [congruence|].
        split; [exact F4|]. split; [exact Hkeep|].
        split; [intros _; exact Hf1|]. intros Hen. congruence.
    + cbv zeta. replace (i + S k)%nat with (S i + k)%nat by lia.
      apply Hrest. lia.
Qed.

(** ** The counter of identifiers and [Init] *)

Lemma updateUniqueFilterID_fixed_le (filters : list filter) :
  forall next, (forall f, In f filters -> ID f <= next) ->
    updateUniqueFilterID filters next = next.
Proof.
  unfold updateUniqueFilterID.
  induction filters as [|f rest IH]; intros next H; simpl; [reflexivity|].
  assert (E : (next <? ID f) = false).
  { apply Z.ltb_ge. apply H. now left. }
  rewrite E. apply IH. intros g Hg. apply H. now right.
Qed.

Lemma updateUniqueFilterID_post (filters : list filter) :
  forall next,
    (forall f, In f filters -> ID f < 9223372036854775807) ->
    -9223372036854775808 <= next ->
    next <= updateUniqueFilterID filters next
    /\ (forall f, In f filters -> ID f <= updateUniqueFilterID filters next)
    /\ (updateUniqueFilterID filters next = next
        \/ exists f, In f filters /\ updateUniqueFilterID filters next = ID f + 1).
Proof.
  unfold updateUniqueFilterID.
  induction filters as [|f rest IH]; intros next Hmax Hlo; cbn [fold_left].
  - split; [lia|]. split; [intros f []|now left].
  - assert (Hf : ID f < 9223372036854775807) by (apply Hmax; now left).
    assert (Hrest : forall g, In g rest -> ID g < 9223372036854775807).
    { intros g Hg. apply Hmax. now right. }
    destruct (next <? ID f) eqn:E.
    + apply Z.ltb_lt in E. rewrite wrap_int_small by lia.
      destruct (IH (ID f + 1) Hrest ltac:(lia)) as (H1 & H2 & H3).
      split; [lia|]. split.
      * intros g [<-|Hg]; [lia|now apply H2].
      * right. destruct H3 as [H3|(g & Hg & H3)].
        -- exists f. split; [now left|exact H3].
        -- exists g. split; [now right|exact H3].
    + apply Z.ltb_ge in E.
      destruct (IH next Hrest Hlo) as (H1 & H2 & H3).
      split; [exact H1|]. split.
      * intros g [<-|Hg]; [lia|now apply H2].
      * destruct H3 as [H3|(g & Hg & H3)]; [now left|right].
        exists g. split; [now right|exact H3].
Qed.

(** X18.  When no identifier of the array is the largest [int64] and the
    counter is an [int64], [updateUniqueFilterID] never lowers the counter;
    afterwards no identifier of the array is above the counter (one may be
    equal to it, the comparison being strict); the counter is either as it
    was or one more than an identifier of the array; and a second call
    changes nothing. *)
Theorem updateUniqueFilterID_raises_counter :
  forall (filters : list filter) (next : Z),
    (forall f, In f filters -> ID f < 9223372036854775807) ->
    -9223372036854775808 <= next ->
    let next' := updateUniqueFilterID filters next in
    next <= next'
    /\ (forall f, In f filters -> ID f <= next')
    /\ (next' = next \/ exists f, In f filters /\ next' = ID f + 1)
    /\ ((forall f, In f filters -> ID f <= next) -> next' = next)
    /\ updateUniqueFilterID filters next' = next'.
Proof.
  intros filters next Hmax Hlo. cbv zeta.
  destruct (updateUniqueFilterID_post filters next Hmax Hlo) as (H1 & H2 & H3).
  split; [exact H1|]. split; [exact H2|]. split; [exact H3|].
  split; [apply updateUniqueFilterID_fixed_le|].
  now apply updateUniqueFilterID_fixed_le.
Qed.

(** The theorem on the identifiers 7 and 3 with the counter at 5. *)
Lemma updateUniqueFilterID_raises_counter_witness :
  let filters := [setID 7 zeroFilter; setID 3 zeroFilter] in
  let next' := updateUniqueFilterID filters 5 in
  5 <= next'
  /\ (forall f, In f filters -> ID f <= next')
  /\ (next' = 5 \/ exists f, In f filters /\ next' = ID f + 1)
  /\ ((forall f, In f filters -> ID f <= 5) -> next' = 5)
  /\ updateUniqueFilterID filters next' = next'.
Proof.
  apply (updateUniqueFilterID_raises_counter
           [setID 7 zeroFilter; setID 3 zeroFilter] 5).
  - simpl. intros f [<-|[<-|[]]]; simpl; lia.
  - lia.
Defined.

Lemma loadFilters_settings (array : list filter) :
  forall les fs i next,
    map settings (fst (loadFilters les fs i array next)) = map settings array.
Proof.
  induction array as [|f rest IH]; intros les fs i next; [reflexivity|].
  cbn [loadFilters].
  set (f1 := if ID f =? 0 then setID next f else f).
  set (next1 := if ID f =? 0 then wrap_int (next + 1) else next).
  assert (Hpair : (if ID f =? 0
                   then let '(value, next0) := assignUniqueFilterID next in
                        (setID value f, next0)
                   else (f, next)) = (f1, next1)).
  { unfold f1, next1, assignUniqueFilterID. now destruct (ID f =? 0). }
  rewrite Hpair. clear Hpair.
  assert (H1 : settings f1 = settings f).
  { unfold f1. now destruct (ID f =? 0). }
  assert (H2 : settings (if negb (Enabled f1) then f1 else fst (load (les i) fs f1))
               = settings f1).
  { destruct (negb (Enabled f1)); [reflexivity|].
    destruct (load (les i) fs f1) as [f2 err] eqn:El.
    destruct (load_frame _ _ _ _ _ El) as (_ & L2 & L3 & L4 & L5 & _).
    unfold settings. cbn [fst]. congruence. }
  specialize (IH les fs (S i) next1).
  destruct (loadFilters les fs (S i) rest next1) as [rest' next2].
  cbn [fst map] in *. now rewrite H2, H1, IH.
Qed.

Lemma subseq_map {A B : Type} (g : A -> B) (l1 l2 : list A) :
  subseq l1 l2 -> subseq (map g l1) (map g l2).
Proof. induction 1; cbn [map]; constructor; assumption. Qed.

Lemma zeros_le_length (ids : list Z) : zeros ids <= Z.of_nat (length ids).
Proof.
  unfold zeros. apply inj_le. apply filter_length_le.
Qed.

(** X19.  [Init] leaves the update interval and the allow list with its
    settings as configured, and a block list in which no URL occurs twice
    and whose entries are configured ones, in their order, with their URL,
    name and flags.  When the counter starts above zero and neither it nor
    a configured identifier can overflow, every filter then has an
    identifier that is not zero and not above the counter, and the counter
    was not lowered. *)
Theorem Init_establishes_the_registry :
  forall (les lesW : nat -> loadEnv) (fs : filesystem) (cfg : config) (next : Z),
    let cfg' := fst (Init les lesW fs cfg next) in
    let next' := snd (Init les lesW fs cfg next) in
    FiltersUpdateIntervalHours cfg' = FiltersUpdateIntervalHours cfg
    /\ map settings (WhitelistFilters cfg') = map settings (WhitelistFilters cfg)
    /\ NoDup (map URL (Filters cfg'))
    /\ subseq (map settings (Filters cfg')) (map settings (Filters cfg))
    /\ (0 < next ->
        next + Z.of_nat (length (Filters cfg))
        + Z.of_nat (length (WhitelistFilters cfg)) < 9223372036854775808 ->
        (forall f, In f (Filters cfg ++ WhitelistFilters cfg) ->
                   ID f < 9223372036854775807) ->
        next <= next'
        /\ forall f, In f (Filters cfg' ++ WhitelistFilters cfg') ->
                     ID f <> 0 /\ ID f <= next').
Proof.
  intros les lesW fs cfg next. cbv zeta. unfold Init.
  pose proof (loadFilters_settings (Filters cfg) les fs 0%nat next) as HsF.
  pose proof (loadFilters_ids (Filters cfg) les fs 0%nat next) as HiF.
  destruct (loadFilters les fs 0 (Filters cfg) next) as [fl next1].
  pose proof (loadFilters_settings (WhitelistFilters cfg) lesW fs 0%nat next1) as HsW.
  pose proof (loadFilters_ids (WhitelistFilters cfg) lesW fs 0%nat next1) as HiW.
  destruct (loadFilters lesW fs 0 (WhitelistFilters cfg) next1) as [wl next2].
  cbn [fst snd deduplicateFilters Filters WhitelistFilters FiltersUpdateIntervalHours]
    in *.
  split; [reflexivity|]. split; [exact HsW|].
  split; [apply deduplicateFrom_NoDup|].
  split; [rewrite <- HsF; apply subseq_map, deduplicateFrom_subseq|].
  intros Hpos Hhi Hmax.
  pose proof (zeros_nonneg (map ID (Filters cfg))) as Z1.
  pose proof (zeros_le_length (map ID (Filters cfg))) as Z2.
  pose proof (zeros_nonneg (map ID (WhitelistFilters cfg))) as Z3.
  pose proof (zeros_le_length (map ID (WhitelistFilters cfg))) as Z4.
  rewrite length_map in Z2, Z4.
  destruct HiF as (F1 & F2 & _); [lia|lia|]. subst next1.
  destruct HiW as (W1 & W2 & _); [lia|lia|]. subst next2.
  set (n2 := next + zeros (map ID (Filters cfg)) + zeros (map ID (WhitelistFilters cfg))).
  assert (HidF : forall f, In f fl -> ID f <> 0 /\ ID f < 9223372036854775807).
  { intros f Hf. apply (in_map ID) in Hf. rewrite F1 in Hf.
    apply renumber_In in Hf as [[Hin Hnz]|Hr]; [|lia].
    split; [exact Hnz|]. apply in_map_iff in Hin as (g & <- & Hg).
    apply Hmax, in_or_app. now left. }
  assert (HidW : forall f, In f wl -> ID f <> 0 /\ ID f < 9223372036854775807).
  { intros f Hf. apply (in_map ID) in Hf. rewrite W1 in Hf.
    apply renumber_In in Hf as [[Hin Hnz]|Hr]; [|lia].
    split; [exact Hnz|]. apply in_map_iff in Hin as (g & <- & Hg).
    apply Hmax, in_or_app. now right. }
  assert (HD : forall f, In f (deduplicateFrom [] fl) -> In f fl).
  { intros f Hf. now apply deduplicateFrom_In in Hf. }
  destruct (updateUniqueFilterID_post (deduplicateFrom [] fl) n2) as (A1 & A2 & _);
    [intros f Hf; now apply HidF, HD|unfold n2; lia|].
  destruct (updateUniqueFilterID_post wl
              (updateUniqueFilterID (deduplicateFrom [] fl) n2)) as (B1 & B2 & _);
    [intros f Hf; now apply HidW|unfold n2 in *; lia|].
  split; [unfold n2 in *; lia|].
  intros f Hf. apply in_app_or in Hf as [Hf|Hf].
  - split; [now apply HidF, HD|]. specialize (A2 f Hf). lia.
  - split; [now apply HidW|]. now apply B2.
Qed.

(** ** [filterSetProperties]: a new URL, and the enabled flag *)

Lemma nth_setNth_same {A : Type} (i : nat) (x d : A) (l : list A) :
  (i < length l)%nat -> nth i (setNth i x l) d = x.
Proof.
  intros Hi. unfold setNth.
  rewrite app_nth2 by (rewrite length_firstn; lia).
  rewrite length_firstn. replace (i - Nat.min i (length l))%nat with 0%nat by lia.
  reflexivity.
Qed.

Lemma filterSetProperties_at (le : loadEnv) (fs : filesystem) (url : string)
    (newf : filter) (whitelist : bool) (cfg : config) (i : nat)
    (r : Z) (filt' : filter) :
  (i < length (designated whitelist cfg))%nat ->
  filterSetProperties le fs url newf whitelist cfg
  = (r, withDesignated whitelist (setNth i filt' (designated whitelist cfg)) cfg) ->
  nth i (designated whitelist (snd (filterSetProperties le fs url newf whitelist cfg)))
      zeroFilter = filt'.
Proof.
  intros Hi ->. cbn [snd].
  destruct (designated_withDesignated whitelist
              (setNth i filt' (designated whitelist cfg)) cfg) as (-> & _).
  now apply nth_setNth_same.
Qed.

Lemma cleared_filter_is_due (f : filter) (hours now : Z) :
  LastUpdated f = zeroTime -> 0 <= hours <= 1000000 -> 0 <= now ->
  due false hours now f = Enabled f.
Proof.
  intros Hl Hh Hn. unfold due, expireTime. rewrite Hl. unfold zeroTime.
  rewrite (wrap_int_small (hours * 60)) by lia.
  rewrite (wrap_int_small (hours * 60 * 60)) by lia.
  rewrite wrap_int_small by lia.
  assert (E : (-62135596800 + hours * 60 * 60 >? now) = false).
  { rewrite Z.gtb_ltb. apply Z.ltb_ge. lia. }
  rewrite E. now destruct (Enabled f).
Qed.

(** X20.  When [filterSetProperties] finds the filter and the new URL
    differs from the old one and is not taken, the call sets the found,
    URL-changed and update-required flags (and the enabled-changed flag if
    the enabled flag changes), nothing is read from the file system, and the
    entry gets the new URL, name and enabled flag with its cache cleared:
    no rules, no checksum and the zero time as [LastUpdated]; so that, if
    enabled, it is due at the next refresh whatever the update interval. *)
Theorem url_change_clears_cache_and_forces_refetch :
  forall (le : loadEnv) (fs : filesystem) (url : string) (newf : filter)
         (whitelist : bool) (cfg : config) (i : nat),
    indexOfURL url (designated whitelist cfg) = Some i ->
    URL newf <> url ->
    filterExistsNoLock cfg (URL newf) = false ->
    let orig := nth i (designated whitelist cfg) zeroFilter in
    let filt' := mkFilter (Enabled newf) (URL newf) (Name newf) 0 zeroTime 0
                   (white orig) (ID orig) in
    filterSetProperties le fs url newf whitelist cfg
    = (Z.lor (Z.lor (Z.lor statusURLChanged statusUpdateRequired)
                (if Bool.eqb (Enabled orig) (Enabled newf)
                 then 0 else statusEnabledChanged))
             statusFound,
       withDesignated whitelist (setNth i filt' (designated whitelist cfg)) cfg)
    /\ (forall hours now,
          0 <= hours <= 1000000 -> 0 <= now ->
          due false hours now
            (nth i (designated whitelist
                      (snd (filterSetProperties le fs url newf whitelist cfg)))
                 zeroFilter)
          = Enabled newf).
Proof.
  intros le fs url newf whitelist cfg i Hi Hne Hfree. cbv zeta.
  destruct (indexOfURL_Some _ _ _ Hi) as [Hlt Hu].
  set (orig := nth i (designated whitelist cfg) zeroFilter) in *.
  assert (Heq : filterSetProperties le fs url newf whitelist cfg
                = (Z.lor (Z.lor (Z.lor statusURLChanged statusUpdateRequired)
                            (if Bool.eqb (Enabled orig) (Enabled newf)
                             then 0 else statusEnabledChanged))
                         statusFound,
                   withDesignated whitelist
                     (setNth i (mkFilter (Enabled newf) (URL newf) (Name newf) 0 zeroTime 0
                                  (white orig) (ID orig))
                        (designated whitelist cfg)) cfg)).
  { unfold filterSetProperties.
    change (if whitelist then WhitelistFilters cfg else Filters cfg)
      with (designated whitelist cfg).
    rewrite Hi. cbv zeta. fold orig.
    match goal with
    | |- context [filterExistsNoLock ?c (URL newf)] =>
      replace (filterExistsNoLock c (URL newf)) with (filterExistsNoLock cfg (URL newf))
        by (symmetry;
            exact (filterExistsNoLock_withDesignated whitelist cfg i
                     (setName (Name newf) orig) (URL newf) Hlt eq_refl))
    end.
    rewrite Hfree, andb_false_r.
    assert (Ech : String.eqb (URL (setName (Name newf) orig)) (URL newf) = false).
    { apply String.eqb_neq. cbn [URL setName]. congruence. }
    rewrite Ech. cbn [negb].
    unfold withDesignated.
    destruct orig as [en u nm rc lu cs wh id].
    destruct en, (Enabled newf) eqn:En; destruct whitelist; reflexivity. }
  split; [exact Heq|].
  intros hours now Hh Hn.
  rewrite (filterSetProperties_at le fs url newf whitelist cfg i _ _ Hlt Heq).
  now rewrite cleared_filter_is_due.
Qed.

(** The theorem on a call that moves filter 1 to a URL not yet taken. *)
Lemma url_change_clears_cache_and_forces_refetch_witness :
  let le := mkLoadEnv true true true in
  let newf := mkFilter true "https://example.net/new.txt" "New" 0 0 0 false 0 in
  let cfg := mkConfig [sampleFilter; otherFilter] [] 24 in
  let orig := nth 0 (designated false cfg) zeroFilter in
  let filt' := mkFilter (Enabled newf) (URL newf) (Name newf) 0 zeroTime 0
                 (white orig) (ID orig) in
  filterSetProperties le emptyFS listURL newf false cfg
  = (Z.lor (Z.lor (Z.lor statusURLChanged statusUpdateRequired)
              (if Bool.eqb (Enabled orig) (Enabled newf)
               then 0 else statusEnabledChanged))
           statusFound,
     withDesignated false (setNth 0 filt' (designated false cfg)) cfg)
  /\ (forall hours now,
        0 <= hours <= 1000000 -> 0 <= now ->
        due false hours now
          (nth 0 (designated false
                    (snd (filterSetProperties le emptyFS listURL newf false cfg)))
               zeroFilter)
        = Enabled newf).
Proof.
  apply (url_change_clears_cache_and_forces_refetch
           (mkLoadEnv true true true) emptyFS listURL
           (mkFilter true "https://example.net/new.txt" "New" 0 0 0 false 0)
           false (mkConfig [sampleFilter; otherFilter] [] 24) 0%nat).
  - reflexivity.
  - discriminate.
  - reflexivity.
Defined.

(** X21.  When [filterSetProperties] finds the filter and the URL stays,
    the entry gets the new name, and: with the enabled flag unchanged,
    nothing else happens and the status is the found flag alone; on
    disabling, the rule count and checksum are cleared; on enabling, the
    filter is loaded from its file, and if the load fails the status asks
    for an update and the cache is cleared. *)
Theorem toggling_enabled_unloads_or_loads :
  forall (le : loadEnv) (fs : filesystem) (url : string) (newf : filter)
         (whitelist : bool) (cfg : config) (i : nat),
    indexOfURL url (designated whitelist cfg) = Some i ->
    URL newf = url ->
    let named := setName (Name newf) (nth i (designated whitelist cfg) zeroFilter) in
    let res := filterSetProperties le fs url newf whitelist cfg in
    let filt' := nth i (designated whitelist (snd res)) zeroFilter in
    (Enabled named = Enabled newf -> fst res = statusFound /\ filt' = named)
    /\ (Enabled named = true -> Enabled newf = false ->
        fst res = Z.lor statusEnabledChanged statusFound
        /\ filt' = unload (setEnabled false named))
    /\ (Enabled named = false -> Enabled newf = true ->
        (snd (load le fs (setEnabled true named)) = None ->
         fst res = Z.lor statusEnabledChanged statusFound
         /\ filt' = fst (load le fs (setEnabled true named)))
        /\ (snd (load le fs (setEnabled true named)) <> None ->
            fst res = Z.lor (Z.lor statusEnabledChanged statusUpdateRequired) statusFound
            /\ filt' = clearCache (fst (load le fs (setEnabled true named))))).
Proof.
  intros le fs url newf whitelist cfg i Hi Hurl. cbv zeta.
  destruct (indexOfURL_Some _ _ _ Hi) as [Hlt Hu].
  set (orig := nth i (designated whitelist cfg) zeroFilter) in *.
  set (named := setName (Name newf) orig).
  assert (Hshape : forall r f,
             filterSetProperties le fs url newf whitelist cfg
             = (r, withDesignated whitelist (setNth i f (designated whitelist cfg)) cfg) ->
             fst (filterSetProperties le fs url newf whitelist cfg) = r
             /\ nth i (designated whitelist
                         (snd (filterSetProperties le fs url newf whitelist cfg)))
                    zeroFilter = f).
  { intros r f H. split; [now rewrite H|].
    now apply (filterSetProperties_at le fs url newf whitelist cfg i r f Hlt). }
  assert (Hunf : filterSetProperties le fs url newf whitelist cfg
                 = let '(r2, filt2) :=
                     if negb (Bool.eqb (Enabled named) (Enabled newf)) then
                       let r := Z.lor 0 statusEnabledChanged in
                       let f := setEnabled (Enabled newf) named in
                       if Enabled f then
                         if Z.land r statusURLChanged =? 0 then
                           match load le fs f with
                           | (f', None) => (r, f')
                           | (f', Some _) => (Z.lor r statusUpdateRequired, clearCache f')
                           end
                         else (r, f)
                       else (r, unload f)
                     else (0, named) in
                   (Z.lor r2 statusFound,
                    withDesignated whitelist (setNth i filt2 (designated whitelist cfg))
                      cfg)).
  { unfold filterSetProperties.
    change (if whitelist then WhitelistFilters cfg else Filters cfg)
      with (designated whitelist cfg).
    rewrite Hi. cbv zeta. fold orig. fold named.
    assert (Ech : String.eqb (URL named) (URL newf) = true).
    { apply String.eqb_eq. unfold named. cbn [URL setName]. congruence. }
    rewrite Ech. cbn [negb andb]. unfold withDesignated.
    destruct (negb (Bool.eqb (Enabled named) (Enabled newf)));
      [destruct (Enabled (setEnabled (Enabled newf) named));
       [destruct (Z.land (Z.lor 0 statusEnabledChanged) statusURLChanged =? 0);
        [destruct (load le fs (setEnabled (Enabled newf) named)) as [f' [er|]]|]|]|];
      destruct whitelist; reflexivity. }
  split; [|split].
  - intros Hen. apply Hshape. rewrite Hunf, Hen, Bool.eqb_reflx. reflexivity.
  - intros H1 H2. apply Hshape. rewrite Hunf, H1, H2. reflexivity.
  - intros H1 H2. split.
    + intros Hok. apply Hshape. rewrite Hunf, H1, H2. cbn [Bool.eqb negb].
      cbn [Enabled setEnabled].
      change (Z.land (Z.lor 0 statusEnabledChanged) statusURLChanged =? 0) with true.
      cbv iota.
      destruct (load le fs (setEnabled true named)) as [f' [er|]];
        [discriminate|reflexivity].
    + intros Hbad. apply Hshape. rewrite Hunf, H1, H2. cbn [Bool.eqb negb].
      cbn [Enabled setEnabled].
      change (Z.land (Z.lor 0 statusEnabledChanged) statusURLChanged =? 0) with true.
      cbv iota.
      destruct (load le fs (setEnabled true named)) as [f' [er|]];
        [reflexivity|contradiction].
Qed.

(** The theorem on a call that disables filter 1. *)
Lemma toggling_enabled_unloads_or_loads_witness :
  let le := mkLoadEnv true true true in
  let newf := mkFilter false listURL "Example" 0 0 0 false 0 in
  let cfg := mkConfig [sampleFilter; otherFilter] [] 24 in
  let named := setName (Name newf) (nth 0 (designated false cfg) zeroFilter) in
  let res := filterSetProperties le emptyFS listURL newf false cfg in
  let filt' := nth 0 (designated false (snd res)) zeroFilter in
  (Enabled named = Enabled newf -> fst res = statusFound /\ filt' = named)
  /\ (Enabled named = true -> Enabled newf = false ->
      fst res = Z.lor statusEnabledChanged statusFound
      /\ filt' = unload (setEnabled false named))
  /\ (Enabled named = false -> Enabled newf = true ->
      (snd (load le emptyFS (setEnabled true named)) = None ->
       fst res = Z.lor statusEnabledChanged statusFound
       /\ filt' = fst (load le emptyFS (setEnabled true named)))
      /\ (snd (load le emptyFS (setEnabled true named)) <> None ->
          fst res = Z.lor (Z.lor statusEnabledChanged statusUpdateRequired) statusFound
          /\ filt' = clearCache (fst (load le emptyFS (setEnabled true named))))).
Proof.
  apply (toggling_enabled_unloads_or_loads
           (mkLoadEnv true true true) emptyFS listURL
           (mkFilter false listURL "Example" 0 0 0 false 0)
           false (mkConfig [sampleFilter; otherFilter] [] 24) 0%nat).
  - reflexivity.
  - reflexivity.
Defined.

(** ** [parseFilterContents] on a stream in two parts *)

Lemma readLinesFrom_split (a : list byte) :
  forall cur, exists L,
    readLinesFrom cur (a ++ [x0a]) = L ++ [[]]
    /\ forall b, readLinesFrom cur (a ++ x0a :: b) = L ++ readLinesFrom [] b.
Proof.
  induction a as [|c a IH]; intros cur.
  - exists [rev (x0a :: cur)]. split; [reflexivity|]. intros b. reflexivity.
  - cbn [app readLinesFrom]. destruct (Byte.eqb c x0a).
    + destruct (IH []) as (L & H1 & H2). exists (rev (c :: cur) :: L).
      split; [now rewrite H1|]. intros b. now rewrite H2.
    + destruct (IH (c :: cur)) as (L & H1 & H2). exists L. now split.
Qed.

Lemma firstTitle_app (l1 l2 : list (list byte)) :
  firstTitle (l1 ++ l2)
  = match firstTitle l1 with Some m => Some m | None => firstTitle l2 end.
Proof.
  induction l1 as [|raw l1 IH]; cbn [app firstTitle]; [reflexivity|].
  now destruct (titleOf raw).
Qed.

Lemma firstTitle_nonempty (lines : list (list byte)) (m : list byte) :
  firstTitle lines = Some m -> m <> [].
Proof.
  induction lines as [|raw lines IH]; cbn [firstTitle]; [discriminate|].
  destruct (titleOf raw) as [m'|] eqn:E; [|exact IH].
  intros H. inversion H. subst m'. now apply (title_text_nonempty raw).
Qed.

(** X22.  Parsing is compositional at the end of a line: for a stream
    that is a first part ending in a line feed followed by a second part,
    the rule count is the sum of the counts of the parts (as an [int]), the
    checksum is the checksum of the first part updated with the bytes of
    the second, and the name is the title declared in the first part or,
    if it declares none, the one declared in the second. *)
Theorem parse_is_compositional_at_line_ends :
  forall a b : list byte,
    parseFilterContents ((a ++ [x0a]) ++ b)
    = (wrap_int (fst (fst (parseFilterContents (a ++ [x0a])))
                 + fst (fst (parseFilterContents b))),
       crc32.Update (snd (fst (parseFilterContents (a ++ [x0a])))) crc32.IEEETable b,
       Coalesce (snd (parseFilterContents (a ++ [x0a]))) (snd (parseFilterContents b))).
Proof.
  intros a b.
  pose proof (parse_checksum ((a ++ [x0a]) ++ b)) as Hc.
  pose proof (parse_rulesCount ((a ++ [x0a]) ++ b)) as Hr.
  pose proof (parse_name ((a ++ [x0a]) ++ b)) as Hn.
  destruct (parseFilterContents ((a ++ [x0a]) ++ b)) as [[rnum cs] name].
  cbn [fst snd] in *. subst rnum cs name.
  rewrite !parse_rulesCount, !parse_checksum, !parse_name.
  destruct (readLinesFrom_split a []) as (L & H1 & H2).
  unfold readLines. rewrite <- app_assoc. cbn [app]. rewrite H1, H2.
  f_equal; [f_equal|].
  - rewrite !filter_app, !length_app. cbn [List.filter].
    change (isRule []) with false. cbn [length].
    rewrite wrap_int_idem, Z.add_comm, wrap_int_idem. f_equal. lia.
  - unfold crc32.ChecksumIEEE. rewrite Update_app.
    now rewrite <- app_assoc.
  - unfold declaredName. rewrite !firstTitle_app.
    change (firstTitle [[]]) with (@None (list byte)).
    destruct (firstTitle L) as [m|] eqn:E; [|reflexivity].
    apply firstTitle_nonempty in E. destruct m as [|c m]; [contradiction|].
    reflexivity.
Qed.

Lemma rules_le_bytes (lines : list (list byte)) :
  (length (List.filter isRule lines) <= length (concat lines))%nat.
Proof.
  induction lines as [|raw lines IH]; cbn [List.filter concat]; [reflexivity|].
  rewrite length_app. destruct raw as [|c raw].
  - change (isRule []) with false. cbn [length]. lia.
  - destruct (isRule (c :: raw)); cbn [length]; lia.
Qed.

(** X23.  For a stream of fewer than 2 to the 63 bytes the rule count
    does not wrap around: it is the number of lines whose trimmed text is
    not empty and starts with neither [!] nor [#], and lies between zero and
    the number of bytes; and the checksum is an unsigned 32-bit value. *)
Theorem rule_count_is_exact :
  forall file : list byte,
    Z.of_nat (length file) < 9223372036854775808 ->
    fst (fst (parseFilterContents file))
    = Z.of_nat (length (List.filter isRule (readLines file)))
    /\ 0 <= fst (fst (parseFilterContents file)) <= Z.of_nat (length file)
    /\ 0 <= snd (fst (parseFilterContents file)) < 4294967296.
Proof.
  intros file Hlen.
  pose proof (rules_le_bytes (readLines file)) as Hle.
  rewrite concat_readLines in Hle.
  rewrite parse_rulesCount, wrap_int_small by lia.
  split; [reflexivity|]. split; [lia|apply parsed_checksum_uint32].
Qed.

(** The theorem on a list with a title, a comment, a blank line and one
    rule. *)
Lemma rule_count_is_exact_witness :
  let file := bytes "! Title: T" ++ [x0a] ++ bytes "# c" ++ [x0a; x0a] ++ sampleBody in
  fst (fst (parseFilterContents file))
  = Z.of_nat (length (List.filter isRule (readLines file)))
  /\ 0 <= fst (fst (parseFilterContents file)) <= Z.of_nat (length file)
  /\ 0 <= snd (fst (parseFilterContents file)) < 4294967296.
Proof.
  apply (rule_count_is_exact
           (bytes "! Title: T" ++ [x0a] ++ bytes "# c" ++ [x0a; x0a] ++ sampleBody)).
  vm_compute. reflexivity.
Defined.

(** ** The number of updates *)

Lemma mergeOne_count (uf : filter) (updated : bool) (filters : list filter) :
  forall n,
    0 <= n -> n + Z.of_nat (length filters) < 9223372036854775808 ->
    length (fst (mergeOne uf updated filters n)) = length filters
    /\ n <= snd (mergeOne uf updated filters n) <= n + Z.of_nat (length filters)
    /\ (snd (mergeOne uf updated filters n) = n ->
        map content (fst (mergeOne uf updated filters n)) = map content filters).
Proof.
  induction filters as [|f rest IH]; intros n Hn Hhi; cbn [mergeOne].
  - cbn [fst snd length map]. repeat split; lia.
  - cbn [length] in Hhi. rewrite Nat2Z.inj_succ in Hhi.
    destruct (negb (ID f =? ID uf) || negb (String.eqb (URL f) (URL uf))).
    + destruct (IH n Hn ltac:(lia)) as (H1 & H2 & H3).
      destruct (mergeOne uf updated rest n) as [rest' k].
      cbn [fst snd length map] in *. rewrite Nat2Z.inj_succ.
      split; [now rewrite H1|]. split; [lia|]. intros Hk. now rewrite H3.
    + destruct updated; cbn [negb].
      * rewrite wrap_int_small by lia.
        destruct (IH (n + 1) ltac:(lia) ltac:(lia)) as (H1 & H2 & H3).
        destruct (mergeOne uf true rest (n + 1)) as [rest' k].
        cbn [fst snd length map] in *. rewrite Nat2Z.inj_succ.
        split; [now rewrite H1|]. split; [lia|]. intros Hk. lia.
      * destruct (IH n Hn ltac:(lia)) as (H1 & H2 & H3).
        destruct (mergeOne uf false rest n) as [rest' k].
        cbn [fst snd length map] in *. rewrite Nat2Z.inj_succ.
        split; [now rewrite H1|]. split; [lia|]. intros Hk. now rewrite H3.
Qed.

Lemma mergeAll_count (ufs : list (filter * bool)) :
  forall filters n,
    0 <= n ->
    n + Z.of_nat (length ufs) * Z.of_nat (length filters) < 9223372036854775808 ->
    length (fst (mergeAll ufs filters n)) = length filters
    /\ n <= snd (mergeAll ufs filters n)
       <= n + Z.of_nat (length ufs) * Z.of_nat (length filters)
    /\ (snd (mergeAll ufs filters n) = n ->
        map content (fst (mergeAll ufs filters n)) = map content filters).
Proof.
  induction ufs as [|[uf updated] rest IH]; intros filters n Hn Hhi; cbn [mergeAll].
  - cbn [fst snd length]. repeat split; lia.
  - cbn [length] in *. rewrite Nat2Z.inj_succ in *.
    assert (Hmul : Z.succ (Z.of_nat (length rest)) * Z.of_nat (length filters)
                   = Z.of_nat (length filters)
                     + Z.of_nat (length rest) * Z.of_nat (length filters)) by ring.
    rewrite Hmul in *.
    assert (0 <= Z.of_nat (length rest) * Z.of_nat (length filters))
      by (apply Z.mul_nonneg_nonneg; lia).
    destruct (mergeOne_count uf updated filters n Hn ltac:(lia)) as (M1 & M2 & M3).
    destruct (mergeOne uf updated filters n) as [filters1 n1]. cbn [fst snd] in *.
    destruct (IH filters1 n1 ltac:(lia)) as (H1 & H2 & H3); [rewrite M1; lia|].
    rewrite M1 in *. split; [exact H1|]. split; [lia|].
    intros Hk. rewrite H3 by lia. apply M3. lia.
Qed.

Lemma refreshFiltersArray_count (envs : nat -> env) (now hours : Z)
    (filters : list filter) (force : bool) (w : world) :
  Z.of_nat (length filters) * Z.of_nat (length filters) < 9223372036854775808 ->
  0 <= ar_updateCount (refreshFiltersArray envs now hours filters force w)
  /\ ar_updateCount (refreshFiltersArray envs now hours filters force w)
     <= Z.of_nat (length filters) * Z.of_nat (length filters)
  /\ (ar_updateCount (refreshFiltersArray envs now hours filters force w) = 0 ->
      map content (ar_filters (refreshFiltersArray envs now hours filters force w))
      = map content filters).
Proof.
  intros Hhi.
  assert (Hsq : 0 <= Z.of_nat (length filters) * Z.of_nat (length filters))
    by (apply Z.mul_nonneg_nonneg; lia).
  unfold refreshFiltersArray.
  assert (Hc : (length (candidates force hours now filters) <= length filters)%nat).
  { unfold candidates. rewrite length_map. apply filter_length_le. }
  destruct (candidates force hours now filters) as [|c cs] eqn:Ec;
    [cbn [ar_updateCount ar_filters]; now repeat split|].
  pose proof (updateEach_shape (c :: cs) envs 0%nat w) as Hshape.
  destruct (updateEach envs 0 (c :: cs) w) as [[[ufs flags] nfail] w'].
  destruct Hshape as [Hlen Hkeys].
  destruct (nfail =? length ufs)%nat;
    [cbn [ar_updateCount ar_filters]; now repeat split|].
  apply (f_equal (@length _)) in Hkeys. rewrite !length_map in Hkeys.
  assert (Hcomb : (length (combine ufs flags) <= length filters)%nat).
  { rewrite length_combine. lia. }
  assert (Hprod : Z.of_nat (length (combine ufs flags)) * Z.of_nat (length filters)
                  <= Z.of_nat (length filters) * Z.of_nat (length filters)).
  { apply Z.mul_le_mono_nonneg_r; lia. }
  destruct (mergeAll_count (combine ufs flags) filters 0 ltac:(lia) ltac:(lia))
    as (H1 & H2 & H3).
  destruct (mergeAll (combine ufs flags) filters 0) as [filters' n].
  cbn [fst snd ar_updateCount ar_filters] in *.
  split; [lia|]. split; [lia|exact H3].
Qed.

(** X24.  When the squares of the lengths of the two sequences add up to
    less than 2 to the 63, the number of updates that
    [refreshFiltersIfNecessary] returns is not negative, and when it is zero
    no entry of the configuration has changed its name, its rule count or
    its checksum. *)
Theorem zero_updates_means_no_content_change :
  forall (envsB envsW : nat -> env) (now flags : Z) (cfg : config) (w : world),
    Z.of_nat (length (Filters cfg)) * Z.of_nat (length (Filters cfg))
    + Z.of_nat (length (WhitelistFilters cfg)) * Z.of_nat (length (WhitelistFilters cfg))
    < 9223372036854775808 ->
    let res := refreshFiltersIfNecessary envsB envsW now flags cfg w in
    let cfg' := snd (fst res) in
    0 <= fst (fst (fst res))
    /\ (fst (fst (fst res)) = 0 ->
        map content (Filters cfg') = map content (Filters cfg)
        /\ map content (WhitelistFilters cfg') = map content (WhitelistFilters cfg)).
Proof.
  intros envsB envsW now flags cfg w Hhi. cbv zeta.
  assert (HB : 0 <= Z.of_nat (length (Filters cfg)) * Z.of_nat (length (Filters cfg)))
    by (apply Z.mul_nonneg_nonneg; lia).
  assert (HW : 0 <= Z.of_nat (length (WhitelistFilters cfg))
                    * Z.of_nat (length (WhitelistFilters cfg)))
    by (apply Z.mul_nonneg_nonneg; lia).
  unfold refreshFiltersIfNecessary.
  set (hours := FiltersUpdateIntervalHours cfg).
  set (force := negb (Z.land flags filterRefreshForce =? 0)).
  set (b := if negb (Z.land flags filterRefreshBlocklists =? 0)
            then refreshFiltersArray envsB now hours (Filters cfg) force w
            else mkArrayResult 0 [] [] false (Filters cfg) w).
  set (a := if negb (Z.land flags filterRefreshAllowlists =? 0)
            then refreshFiltersArray envsW now hours (WhitelistFilters cfg) force
                   (ar_world b)
            else mkArrayResult 0 [] [] false (WhitelistFilters cfg) (ar_world b)).
  assert (Hb : 0 <= ar_updateCount b
               /\ ar_updateCount b
                  <= Z.of_nat (length (Filters cfg)) * Z.of_nat (length (Filters cfg))
               /\ (ar_updateCount b = 0 ->
                   map content (ar_filters b) = map content (Filters cfg))).
  { unfold b. destruct (negb (Z.land flags filterRefreshBlocklists =? 0)).
    - apply refreshFiltersArray_count. lia.
    - cbn [ar_updateCount ar_filters]. now repeat split. }
  assert (Ha : 0 <= ar_updateCount a
               /\ ar_updateCount a
                  <= Z.of_nat (length (WhitelistFilters cfg))
                     * Z.of_nat (length (WhitelistFilters cfg))
               /\ (ar_updateCount a = 0 ->
                   map content (ar_filters a) = map content (WhitelistFilters cfg))).
  { unfold a. destruct (negb (Z.land flags filterRefreshAllowlists =? 0)).
    - apply refreshFiltersArray_count. lia.
    - cbn [ar_updateCount ar_filters]. now repeat split. }
  destruct Hb as (B1 & B2 & B3). destruct Ha as (A1 & A2 & A3).
  rewrite (wrap_int_small (ar_updateCount b + ar_updateCount a)) by lia.
  destruct (ar_netErr b && ar_netErr a) eqn:E.
  - cbn [fst snd Filters WhitelistFilters]. split; [lia|]. intros _.
    apply andb_true_iff in E as [Eb Ea]. unfold a, b in Ea, Eb |- *.
    destruct (negb (Z.land flags filterRefreshBlocklists =? 0)); [|discriminate].
    destruct (negb (Z.land flags filterRefreshAllowlists =? 0)); [|discriminate].
    apply refreshFiltersArray_netErr in Eb as (_ & -> & _).
    apply refreshFiltersArray_netErr in Ea as (_ & -> & _). now split.
  - destruct (negb (ar_updateCount b + ar_updateCount a =? 0));
      cbn [fst snd Filters WhitelistFilters];
      (split; [lia|]); intros H0; (split; [apply B3|apply A3]); lia.
Qed.

(** The theorem on a batch in which the content served is the one already
    stored. *)
Lemma zero_updates_means_no_content_change_witness :
  let envs := fun _ : nat => envWith 1000000 (okResponse sampleBody) in
  let cfg := mkConfig [setChecksum (crc32.ChecksumIEEE sampleBody) sampleFilter] [] 24 in
  let res := refreshFiltersIfNecessary envs envs 1000000
               (Z.lor filterRefreshBlocklists filterRefreshAllowlists) cfg worldWithFile in
  let cfg' := snd (fst res) in
  0 <= fst (fst (fst res))
  /\ (fst (fst (fst res)) = 0 ->
      map content (Filters cfg') = map content (Filters cfg)
      /\ map content (WhitelistFilters cfg') = map content (WhitelistFilters cfg)).
Proof.
  apply (zero_updates_means_no_content_change
           (fun _ : nat => envWith 1000000 (okResponse sampleBody))
           (fun _ : nat => envWith 1000000 (okResponse sampleBody))
           1000000 (Z.lor filterRefreshBlocklists filterRefreshAllowlists)
           (mkConfig [setChecksum (crc32.ChecksumIEEE sampleBody) sampleFilter] [] 24)
           worldWithFile).
  simpl. lia.
Defined.
